(** * A phishing URL checker: the scoring pipeline of [Code.py]

    The program takes one URL string, normalises it with [urllib.parse],
    runs a handful of lexical detectors over the normalised text, compares
    the registered domain with a fixed list of well-known sites using
    [difflib.SequenceMatcher], and adds the detectors' points up into a score
    and a label.  Around it, a command-line loop reads URLs until [exit] is
    typed and prints each verdict.

    Python strings are modelled as lists of characters; a character is a
    code point below 256 (ASCII and Latin-1), on which [str.lower],
    [str.strip], [str.isascii] and the regular expression class [\d] are
    written out below.  The standard-library functions the program calls are
    embedded from CPython 3.11 ([urllib/parse.py], [difflib.py],
    [encodings/idna.py]); the three library calls whose result depends on
    data outside the program (the public suffix list of [tldextract], the
    IDNA tables and [ipaddress]) are the fields of the record [Libs].

    A similarity ratio is kept as the exact fraction [2 * matches / length]
    that Python rounds to a float.  The program only compares ratios with
    one another, with [0] and with [0.85]; rounding to the nearest float
    keeps the order of two such fractions and tells apart any two that
    differ, as long as the strings have fewer than 2^26 characters, and it
    sends the fraction [17/20] to the very float the literal [0.85]
    denotes, so the comparisons come out as they do on the floats. *)

From Stdlib Require Import Ascii String QArith Lia ZArith Bool.
From stdpp Require Import gmap strings list.

Close Scope Q_scope.
Open Scope nat_scope.
Open Scope list_scope.

(** ** Strings *)

Abbreviation str := (list ascii).

(** A string literal of the program. *)
Definition py (x : string) : str := list_ascii_of_string x.

Module PyStr.

Definition code (c : ascii) : N := N_of_ascii c.

Definition between (lo hi : N) (c : ascii) : bool :=
  ((lo <=? code c) && (code c <=? hi))%N.

(** [c.isascii()] *)
Definition isascii (c : ascii) : bool := (code c <? 128)%N.

(** [c.isalpha()] on an ASCII character. *)
Definition ascii_alpha (c : ascii) : bool :=
  between 65 90 c || between 97 122 c.

(** The class [\d] of [re] on a [str] pattern: the decimal digits; below
    256 these are 0-9. *)
Definition isdecimal (c : ascii) : bool := between 48 57 c.

(** [str.isspace]: below 256 the white space characters are TAB..CR,
    FS..US, SPACE, NEL and NBSP. *)
Definition isspace (c : ascii) : bool :=
  between 9 13 c || between 28 32 c
  || (code c =? 133)%N || (code c =? 160)%N.

(** [str.lower] on one character: A-Z and the Latin-1 capitals. *)
Definition lower_char (c : ascii) : ascii :=
  if between 65 90 c || (between 192 222 c && negb (code c =? 215)%N)
  then ascii_of_N (code c + 32)
  else c.

Definition lower (u : str) : str := map lower_char u.

(** [u.lstrip(chars)], [u.rstrip(chars)] and [u.strip()]. *)
Fixpoint lstrip_by (p : ascii -> bool) (u : str) : str :=
  match u with
  | c :: u' => if p c then lstrip_by p u' else u
  | [] => []
  end.

Definition rstrip_by (p : ascii -> bool) (u : str) : str :=
  rev (lstrip_by p (rev u)).

Definition strip (u : str) : str := rstrip_by isspace (lstrip_by isspace u).

(** [u.startswith(pre)] *)
Fixpoint startswith (pre u : str) : bool :=
  match pre, u with
  | [], _ => true
  | c :: pre', d :: u' => bool_decide (c = d) && startswith pre' u'
  | _ :: _, [] => false
  end.

(** [sub in u] *)
Fixpoint contains (sub u : str) : bool :=
  startswith sub u
  || match u with
     | [] => false
     | _ :: u' => contains sub u'
     end.

(** [c in u] for one character. *)
Definition has (c : ascii) (u : str) : bool := bool_decide (c ∈ u).

(** [u.count(c)] for one character. *)
Definition count (c : ascii) (u : str) : nat :=
  length (filter (λ d, d = c) u).

(** [u.find(c)]; [None] stands for Python's [-1]. *)
Fixpoint find (c : ascii) (u : str) : option nat :=
  match u with
  | [] => None
  | d :: u' => if decide (d = c) then Some 0 else S <$> find c u'
  end.

(** [u.find(c, start)] *)
Definition find_from (c : ascii) (start : nat) (u : str) : option nat :=
  (λ i, start + i) <$> find c (drop start u).

(** [u.rfind(c)] *)
Fixpoint rfind (c : ascii) (u : str) : option nat :=
  match u with
  | [] => None
  | d :: u' =>
      match rfind c u' with
      | Some i => Some (S i)
      | None => if decide (d = c) then Some 0 else None
      end
  end.

(** [u.replace(c, "")] for one character. *)
Definition remove (c : ascii) (u : str) : str := filter (λ d, d ≠ c) u.

(** [u.split(c, 1)] when [c in u]: the text before the first [c] and the
    text after it.  [u.partition(c)] has the same two outer parts. *)
Definition split1 (c : ascii) (u : str) : str * str :=
  match find c u with
  | Some i => (take i u, drop (S i) u)
  | None => (u, [])
  end.

(** [u.rpartition(c)[2]]: the text after the last [c], all of [u] when
    there is none. *)
Definition after_last (c : ascii) (u : str) : str :=
  match rfind c u with
  | Some i => drop (S i) u
  | None => u
  end.

(** [u.split(c)]: never empty, [[""]] on the empty string. *)
Fixpoint split (c : ascii) (u : str) : list str :=
  match u with
  | [] => [[]]
  | d :: u' =>
      if decide (d = c) then [] :: split c u'
      else match split c u' with
           | w :: ws => (d :: w) :: ws
           | [] => [[d]]
           end
  end.

(** The text is four groups of one to three decimal digits with dots
    between them. *)
Definition is_dotted_quad (h : str) : bool :=
  let groups := split "." h in
  (length groups =? 4)
  && forallb (λ g, (1 <=? length g) && (length g <=? 3)
                   && forallb isdecimal g) groups.

End PyStr.

(** ** Exceptions *)

Inductive exn := ValueError | TypeError | UnicodeError.

Inductive result (A : Type) :=
| Ok (a : A)
| Raise (e : exn).
Arguments Ok {A} a.
Arguments Raise {A} e.

Definition rbind {A B} (r : result A) (k : A -> result B) : result B :=
  match r with
  | Ok a => k a
  | Raise e => Raise e
  end.

Declare Scope exc_scope.
Delimit Scope exc_scope with exc.
Notation "x <- e ;; k" := (rbind e (fun x => k))
  (at level 100, e at next level, right associativity) : exc_scope.

(** ** Regular expressions

    The two patterns the program runs through [re] use literals, character
    classes, grouping, [?], [+] and bounded repetition.  Whether [re.search]
    or [re.match] finds a match does not depend on the order in which the
    backtracking engine tries the alternatives, so the patterns are run here
    by derivatives. *)

Module Re.

(** A pattern over the alphabet [A]: the program's strings are texts of
    characters, and the same patterns run on any other alphabet. *)
Inductive regex (A : Type) :=
| Never
| Empty
| Class (p : A -> bool)
| Seq (r1 r2 : regex A)
| Alt (r1 r2 : regex A)
| Star (r : regex A).
Arguments Never {A}.
Arguments Empty {A}.
Arguments Class {A} p.
Arguments Seq {A} r1 r2.
Arguments Alt {A} r1 r2.
Arguments Star {A} r.

Section alphabet.
Context {A : Type} `{EqDecision A}.

(** One literal character, a literal text, [r?], [r+], [r{n}], [r{0,n}]
    and [r{lo,hi}]. *)
Definition Lit (c : A) : regex A := Class (λ d, bool_decide (d = c)).

Fixpoint Text (u : list A) : regex A :=
  match u with
  | [] => Empty
  | c :: u' => Seq (Lit c) (Text u')
  end.

Definition Opt (r : regex A) : regex A := Alt r Empty.

Definition Plus (r : regex A) : regex A := Seq r (Star r).

Fixpoint Rep (n : nat) (r : regex A) : regex A :=
  match n with
  | 0 => Empty
  | S n' => Seq r (Rep n' r)
  end.

Fixpoint UpTo (n : nat) (r : regex A) : regex A :=
  match n with
  | 0 => Empty
  | S n' => Opt (Seq r (UpTo n' r))
  end.

Definition Range (lo hi : nat) (r : regex A) : regex A :=
  Seq (Rep lo r) (UpTo (hi - lo) r).

Fixpoint nullable (r : regex A) : bool :=
  match r with
  | Never => false
  | Empty => true
  | Class _ => false
  | Seq r1 r2 => nullable r1 && nullable r2
  | Alt r1 r2 => nullable r1 || nullable r2
  | Star _ => true
  end.

Fixpoint deriv (c : A) (r : regex A) : regex A :=
  match r with
  | Never => Never
  | Empty => Never
  | Class p => if p c then Empty else Never
  | Seq r1 r2 =>
      if nullable r1 then Alt (Seq (deriv c r1) r2) (deriv c r2)
      else Seq (deriv c r1) r2
  | Alt r1 r2 => Alt (deriv c r1) (deriv c r2)
  | Star r1 => Seq (deriv c r1) (Star r1)
  end.

(** Some prefix of [u] matches [r]: [re.match(r, u) is not None]. *)
Fixpoint match_prefix (r : regex A) (u : list A) : bool :=
  nullable r
  || match u with
     | [] => false
     | c :: u' => match_prefix (deriv c r) u'
     end.

(** All of [u] matches [r]: [re.match] of a pattern between [\A] and
    [\Z]. *)
Fixpoint fullmatch (r : regex A) (u : list A) : bool :=
  match u with
  | [] => nullable r
  | c :: u' => fullmatch (deriv c r) u'
  end.

(** [re.search(r, u) is not None]: a match starting at some position. *)
Fixpoint search (r : regex A) (u : list A) : bool :=
  match_prefix r u
  || match u with
     | [] => false
     | _ :: u' => search r u'
     end.

(** The words of a pattern. *)
Inductive lang : regex A -> list A -> Prop :=
| lang_empty : lang Empty []
| lang_class p c : p c = true -> lang (Class p) [c]
| lang_seq r1 r2 u1 u2 :
    lang r1 u1 -> lang r2 u2 -> lang (Seq r1 r2) (u1 ++ u2)
| lang_alt_l r1 r2 u : lang r1 u -> lang (Alt r1 r2) u
| lang_alt_r r1 r2 u : lang r2 u -> lang (Alt r1 r2) u
| lang_star_nil r : lang (Star r) []
| lang_star_app r u1 u2 :
    lang r u1 -> lang (Star r) u2 -> lang (Star r) (u1 ++ u2).

End alphabet.
End Re.

(** ** Library calls that depend on data outside the program *)

(** [tldextract.ExtractResult]: the three parts of a host name. *)
Record ExtractResult := {
  subdomain : str;
  domain : str;
  suffix : str
}.

Inductive ip_version := IPv4Address | IPv6Address.

Record Libs := {
  (** [tldextract.extract(u)]: splits the host of [u] along the public
      suffix list. *)
  tldextract_extract : str -> ExtractResult;
  (** The [idna] codec's encoder on a name that has a non-ASCII character
      (nameprep and punycode, label by label), decoded back to text; it may
      raise [UnicodeError]. *)
  idna_encode_nonascii : str -> result str;
  (** [ipaddress.ip_address(host)]: the kind of address, [None] when it
      raises [ValueError]. *)
  ipaddress_ip_address : str -> option ip_version
}.

(** ** [urllib.parse] *)

Module UrlParse.
Import PyStr Re.

Record SplitResult := {
  s_scheme : str;
  s_netloc : str;
  s_url : str;
  s_query : str;
  s_fragment : str
}.

Record ParseResult := {
  scheme : str;
  netloc : str;
  path : str;
  params : str;
  query : str;
  fragment : str
}.

Definition uses_params : list str :=
  map py ["" ; "ftp"; "hdl"; "prospero"; "http"; "imap";
          "https"; "shttp"; "rtsp"; "rtspu"; "sip"; "sips";
          "mms"; "sftp"; "tel"]%string.

Definition scheme_chars : str :=
  py "abcdefghijklmnopqrstuvwxyzABCDEFGHIJKLMNOPQRSTUVWXYZ0123456789+-.".

(** [_WHATWG_C0_CONTROL_OR_SPACE]: the characters 0 to 32. *)
Definition c0_control_or_space (c : ascii) : bool := between 0 32 c.

(** [_UNSAFE_URL_BYTES_TO_REMOVE]: TAB, CR, LF. *)
Definition unsafe_url_bytes : list ascii :=
  [ascii_of_N 9; ascii_of_N 13; ascii_of_N 10].

(** [_splitparams]: only called on a [url] that has a [;], so the last
    branch (Python's [url[:-1], url[0:]] at [i = -1]) is never taken. *)
Definition _splitparams (url : str) : str * str :=
  if has "/" url then
    match find_from ";" (default 0 (rfind "/" url)) url with
    | None => (url, [])
    | Some i => (take i url, drop (S i) url)
    end
  else
    match find ";" url with
    | Some i => (take i url, drop (S i) url)
    | None => (take (length url - 1) url, url)
    end.

Definition _splitnetloc (url : str) (start : nat) : str * str :=
  let delim :=
    foldl (λ delim c,
             match find_from c start url with
             | Some wdelim => min delim wdelim
             | None => delim
             end)
          (length url) (py "/?#") in
  (drop start (take delim url), drop delim url).

(** [_checknetloc] has nothing to check on an empty or ASCII netloc; any
    other is put in NFKC normal form, its [@ : # ?] taken out first, and
    [ValueError] is raised when that form differs from it and has one of
    [/ ? # @ :].  The fourteen characters below 256 that NFKC changes (the
    no-break space, the diaeresis, macron, acute and cedilla, the two
    ordinal indicators, the superscripts 1, 2 and 3, the micro sign and the
    three fractions) become a space, a letter, a digit, a combining mark or
    digits around the fraction slash U+2044, never one of the five: on
    the strings of this file, the texts of code points below 256, the check
    passes.  Beyond them it can fail (on U+2100, whose form is [a/c]), so
    what is proved below of [urlsplit] and its callers is proved of these
    strings. *)
Definition _checknetloc (netloc : str) : result unit := Ok tt.

(** The pattern [\Av[a-fA-F0-9]+\..+\Z]. *)
Definition ipvfuture : regex ascii :=
  Seq (Lit "v"%char)
    (Seq (Plus (Class (λ c, between 97 102 c || between 65 70 c
                            || between 48 57 c)))
       (Seq (Lit "."%char)
          (Plus (Class (λ c, negb (code c =? 10)%N))))).

(** The part of [urlsplit] that takes the scheme off: the text before the
    first [:], in lower case, when it starts with an ASCII letter and is
    made of [scheme_chars]. *)
Definition split_scheme (url : str) : str * str :=
  match find ":" url, url with
  | Some (S i'), c0 :: _ =>
      if isascii c0 && ascii_alpha c0
         && forallb (λ c, has c scheme_chars) (take (S i') url)
      then (lower (take (S i') url), drop (S (S i')) url)
      else ([], url)
  | _, _ => ([], url)
  end.

Section with_libs.
Variable L : Libs.

Definition _check_bracketed_host (hostname : str) : result unit :=
  if startswith (py "v") hostname then
    if fullmatch ipvfuture hostname then Ok tt else Raise ValueError
  else
    match ipaddress_ip_address L hostname with
    | None => Raise ValueError
    | Some IPv4Address => Raise ValueError
    | Some IPv6Address => Ok tt
    end.

Definition _check_bracketed_netloc (netloc : str) : result unit :=
  let hostname_and_port := after_last "@" netloc in
  if has "[" hostname_and_port then
    let '(before_bracket, bracketed) := split1 "[" hostname_and_port in
    if negb (bool_decide (before_bracket = [])) then Raise ValueError
    else
      let '(hostname, port) := split1 "]" bracketed in
      if negb (bool_decide (port = [])) && negb (startswith (py ":") port)
      then Raise ValueError
      else _check_bracketed_host hostname
  else
    let '(hostname, _) := split1 ":" hostname_and_port in
    _check_bracketed_host hostname.

(** The part of [urlsplit] that takes the netloc off a [url] that starts
    with [//] and checks its brackets. *)
Definition split_netloc (url : str) : result (str * str) :=
  (if bool_decide (take 2 url = py "//") then
     let '(netloc, url) := _splitnetloc url 2 in
     if (has "[" netloc && negb (has "]" netloc))
        || (has "]" netloc && negb (has "[" netloc))
     then Raise ValueError
     else if has "[" netloc && has "]" netloc
     then (_ <- _check_bracketed_netloc netloc ;; Ok (netloc, url))
     else Ok (netloc, url)
   else Ok ([], url))%exc.

(** [urlsplit(url)] with the default [scheme=''] and
    [allow_fragments=True]. *)
Definition urlsplit (url : str) : result SplitResult :=
  let url := lstrip_by c0_control_or_space url in
  let url := foldl (λ url b, remove b url) url unsafe_url_bytes in
  let '(scheme, url) := split_scheme url in
  (nu <- split_netloc url ;;
   let '(netloc, url) := nu in
   let '(url, fragment) :=
     if has "#" url then split1 "#" url else (url, []) in
   let '(url, query) :=
     if has "?" url then split1 "?" url else (url, []) in
   _ <- _checknetloc netloc ;;
   Ok {| s_scheme := scheme; s_netloc := netloc; s_url := url;
         s_query := query; s_fragment := fragment |})%exc.

Definition urlparse (url : str) : result ParseResult :=
  (splitresult <- urlsplit url ;;
   let scheme := s_scheme splitresult in
   let url := s_url splitresult in
   let '(url, params) :=
     if bool_decide (scheme ∈ uses_params) && has ";" url
     then _splitparams url
     else (url, []) in
   Ok {| scheme := scheme; netloc := s_netloc splitresult; path := url;
         params := params; query := s_query splitresult;
         fragment := s_fragment splitresult |})%exc.

End with_libs.
End UrlParse.

(** ** [difflib.SequenceMatcher]

    [SequenceMatcher(None, a, b)]: no junk predicate, so [bjunk] is empty,
    and [autojunk] left on. *)

Module Difflib.

(** [Match(a, b, size)] *)
Record Match := {
  m_a : nat;
  m_b : nat;
  m_size : nat
}.

Section matcher.
Variables a b : str.

(** [__chain_b]: the positions of every element of [b], in increasing
    order ... *)
Definition b2j_all : gmap ascii (list nat) :=
  foldl (λ b2j '(i, elt), <[elt := default [] (b2j !! elt) ++ [i]]> b2j)
        ∅ (imap pair b).

(** ... without the popular elements when [b] has 200 elements or
    more. *)
Definition b2j : gmap ascii (list nat) :=
  let n := length b in
  if 200 <=? n then
    let ntest := n / 100 + 1 in
    filter (λ kv, ¬ (ntest < length kv.2)) b2j_all
  else b2j_all.

(** [j2len.get(j-1, 0)]; the dictionary has no key [-1]. *)
Definition j2lenget (j2len : gmap nat nat) (j : nat) : nat :=
  match j with
  | 0 => 0
  | S j' => default 0 (j2len !! j')
  end.

(** The inner loop of [find_longest_match], over the positions [j] of
    [a[i]] in [b]. *)
Fixpoint scan_row (blo bhi i : nat) (j2len : gmap nat nat)
    (js : list nat) (newj2len : gmap nat nat) (best : Match)
    : gmap nat nat * Match :=
  match js with
  | [] => (newj2len, best)
  | j :: js' =>
      if j <? blo then scan_row blo bhi i j2len js' newj2len best
      else if bhi <=? j then (newj2len, best)
      else
        let k := j2lenget j2len j + 1 in
        let newj2len := <[j := k]> newj2len in
        let best :=
          if m_size best <? k
          then {| m_a := i + 1 - k; m_b := j + 1 - k; m_size := k |}
          else best in
        scan_row blo bhi i j2len js' newj2len best
  end.

(** The outer loop, [for i in range(alo, ahi)]. *)
Fixpoint scan_rows (blo bhi : nat) (rows : list nat)
    (j2len : gmap nat nat) (best : Match) : Match :=
  match rows with
  | [] => best
  | i :: rows' =>
      let js :=
        match a !! i with
        | Some elt => default [] (b2j !! elt)
        | None => []
        end in
      let '(newj2len, best) := scan_row blo bhi i j2len js ∅ best in
      scan_rows blo bhi rows' newj2len best
  end.

Definition same_at (i j : nat) : bool :=
  match a !! i, b !! j with
  | Some x, Some y => bool_decide (x = y)
  | _, _ => false
  end.

(** [while besti > alo and bestj > blo and a[besti-1] == b[bestj-1]] *)
Fixpoint extend_left (alo blo besti bestj bestsize : nat) : Match :=
  match besti, bestj with
  | S i', S j' =>
      if (alo <? besti) && (blo <? bestj) && same_at i' j'
      then extend_left alo blo i' j' (S bestsize)
      else {| m_a := besti; m_b := bestj; m_size := bestsize |}
  | _, _ => {| m_a := besti; m_b := bestj; m_size := bestsize |}
  end.

(** [while besti+bestsize < ahi and bestj+bestsize < bhi and
    a[besti+bestsize] == b[bestj+bestsize]]; [room] is
    [ahi - (besti+bestsize)], which the loop uses up. *)
Fixpoint extend_right (room ahi bhi besti bestj bestsize : nat) : Match :=
  match room with
  | 0 => {| m_a := besti; m_b := bestj; m_size := bestsize |}
  | S room' =>
      if (besti + bestsize <? ahi) && (bestj + bestsize <? bhi)
         && same_at (besti + bestsize) (bestj + bestsize)
      then extend_right room' ahi bhi besti bestj (S bestsize)
      else {| m_a := besti; m_b := bestj; m_size := bestsize |}
  end.

(** [find_longest_match(alo, ahi, blo, bhi)].  The two loops that take in
    junk on either side never run, [bjunk] being empty. *)
Definition find_longest_match (alo ahi blo bhi : nat) : Match :=
  let best :=
    scan_rows blo bhi (seq alo (ahi - alo)) ∅
              {| m_a := alo; m_b := blo; m_size := 0 |} in
  let best := extend_left alo blo (m_a best) (m_b best) (m_size best) in
  extend_right (ahi - (m_a best + m_size best)) ahi bhi
               (m_a best) (m_b best) (m_size best).

(** The loop of [get_matching_blocks]; the head of [queue] is the end of
    Python's list, where [pop] takes and [append] adds.  [fuel] bounds
    the number of turns. *)
Fixpoint blocks_loop (fuel : nat) (queue : list (nat * nat * nat * nat))
    (matching_blocks : list Match) : list Match :=
  match fuel, queue with
  | S fuel', (alo, ahi, blo, bhi) :: queue =>
      let x := find_longest_match alo ahi blo bhi in
      let '(i, j, k) := (m_a x, m_b x, m_size x) in
      if k =? 0 then blocks_loop fuel' queue matching_blocks
      else
        let queue :=
          if (alo <? i) && (blo <? j) then (alo, i, blo, j) :: queue
          else queue in
        let queue :=
          if (i + k <? ahi) && (j + k <? bhi)
          then (i + k, ahi, j + k, bhi) :: queue
          else queue in
        blocks_loop fuel' queue (matching_blocks ++ [x])
  | _, _ => matching_blocks
  end.

(** What is left to look at: every range of the queue counts twice its
    width in [a] plus one. *)
Definition queue_weight (queue : list (nat * nat * nat * nat)) : nat :=
  foldr (λ '(alo, ahi, _, _) w, 2 * (ahi - alo) + 1 + w) 0 queue.

(** The blocks found; sorting them and merging adjacent ones, as
    [get_matching_blocks] goes on to do, keeps the sum of their sizes. *)
Definition matching_blocks : list Match :=
  let queue := [(0, length a, 0, length b)] in
  blocks_loop (queue_weight queue) queue [].

(** [sum(triple[-1] for triple in self.get_matching_blocks())] *)
Definition matches : nat := foldr (λ x n, m_size x + n) 0 matching_blocks.

End matcher.

(** [_calculate_ratio(matches, length)] as an exact fraction; Python
    rounds it to a float. *)
Definition _calculate_ratio (matches length : nat) : Q :=
  if length =? 0 then 1%Q
  else Qmake (2 * Z.of_nat matches) (Pos.of_nat length).

(** [SequenceMatcher(None, a, b).ratio()] *)
Definition ratio (a b : str) : Q :=
  _calculate_ratio (matches a b) (length a + length b).

End Difflib.

(** ** The [idna] codec *)

Module Idna.
Import PyStr.

(** [input.encode("idna").decode("utf-8")]: an ASCII name is checked for
    the length of its labels and returned as it is; any other name goes
    through the tables. *)
Definition encode (L : Libs) (input : str) : result str :=
  if bool_decide (input = []) then Ok []
  else if forallb isascii input then
    let labels := split "." input in
    if forallb (λ label, (0 <? length label) && (length label <? 64))
               (removelast labels)
       && (length (default [] (last labels)) <? 64)
    then Ok input
    else Raise UnicodeError
  else idna_encode_nonascii L input.

End Idna.

(** ** The program *)

Module Code.
Import PyStr.

(** The module-level lists; the functions below read them where the
    program does. *)
Record Globals := {
  SAFE_DOMAINS : list str;
  TRICKY_WORDS : list str
}.

Definition module_globals : Globals := {|
  SAFE_DOMAINS :=
    map py ["google.com"; "facebook.com"; "microsoft.com"; "apple.com";
            "amazon.com"; "paypal.com"; "github.com"; "linkedin.com";
            "twitter.com"]%string;
  TRICKY_WORDS :=
    map py ["login"; "secure"; "account"; "update"; "verify"; "signin";
            "auth"; "webscr"; "bank"; "bonus"; "reset"; "free"; "claim";
            "activity"; "security"; "confirm"; "submit"; "support"]%string
|}.

(** A computation of the program: it runs in a state of the globals and
    returns a value or raises. *)
Definition M (A : Type) : Type := Globals -> result A * Globals.

Definition ret {A} (x : A) : M A := λ g, (Ok x, g).

Definition bind {A B} (m : M A) (k : A -> M B) : M B :=
  λ g, match m g with
       | (Ok x, g') => k x g'
       | (Raise e, g') => (Raise e, g')
       end.

Definition lift {A} (r : result A) : M A := λ g, (r, g).

Definition global {A} (name : Globals -> A) : M A := λ g, (Ok (name g), g).

Declare Scope prog_scope.
Delimit Scope prog_scope with prog.
Notation "x <- e ;; k" := (bind e (fun x => k))
  (at level 100, e at next level, right associativity) : prog_scope.

(** [x > y] on the similarity ratios. *)
Definition Qgtb (x y : Q) : bool := negb (Qle_bool x y).

(** The three labels a verdict can carry: "HIGH RISK: Probably PHISHING",
    "Suspicious" and "Seems OK", each after its pictograph. *)
Inductive label_text := HIGH_RISK | Suspicious | Seems_OK.

(** The dictionary [check_url] fills in, key by key. *)
Record Verdict := {
  original : str;
  ip_in_url : bool;
  bad_words : list str;
  crazy_chars : bool;
  https : bool;
  len : nat;
  subs : nat;
  closest_match : Q * option str;
  score : Z;
  label : label_text
}.

(** What [check_url] returns: a dictionary with the one key [error], or
    a full verdict. *)
Inductive Outcome :=
| ErrorVerdict (error : str)
| FullVerdict (verdict : Verdict).

(** The pattern [http[s]?://(?:\d{1,3}\.){3}\d{1,3}], on a text over any
    alphabet [A]: [chr] gives the characters of the pattern in [A], and
    [digit] is the class [\d] there.  A Python string is a text of code
    points, and on these [\d] is every decimal digit of Unicode. *)
Section pattern.
Context {A : Type} `{EqDecision A}.
Variable chr : ascii -> A.
Variable digit : A -> bool.

Definition ip_regex_on : Re.regex A :=
  Re.Seq (Re.Text (map chr (py "http")))
    (Re.Seq (Re.Opt (Re.Class (λ c, bool_decide (c ∈ map chr (py "s")))))
       (Re.Seq (Re.Text (map chr (py "://")))
          (Re.Seq (Re.Rep 3 (Re.Seq (Re.Range 1 3 (Re.Class digit))
                                    (Re.Lit (chr "."))))
                  (Re.Range 1 3 (Re.Class digit))))).

Definition looks_like_ip_on (u : list A) : bool := Re.search ip_regex_on u.

End pattern.

(** The pattern on the strings of this file, the texts of code points
    below 256, where [\d] is [isdecimal]. *)
Definition ip_regex : Re.regex ascii := ip_regex_on (λ c, c) isdecimal.

Definition looks_like_ip (u : str) : bool := Re.search ip_regex u.

Definition find_bad_words (u : str) : M (list str) :=
  (let lowered := lower u in
   words <- global TRICKY_WORDS ;;
   ret (List.filter (λ w, contains w lowered) words))%prog.

Definition too_many_symbols (u : str) : bool :=
  (5 <? count "-" u) || (1 <? count "@" u) || (5 <? count "=" u).

Definition is_secure (u : str) : bool :=
  startswith (py "https://") (lower u).

(** [legit not in u]: a [TypeError] when [legit] is [None]. *)
Definition not_in (legit : option str) (u : str) : result bool :=
  match legit with
  | Some w => Ok (negb (contains w u))
  | None => Raise TypeError
  end.

(** One turn of the loop of [closest_real_site]. *)
Definition closer (domain : str) (acc : Q * option str) (legit : str)
    : Q * option str :=
  let '(top_score, closest) := acc in
  let sim := Difflib.ratio domain legit in
  if Qgtb sim top_score then (sim, Some legit) else (top_score, closest).

(** The loop over a list of safe domains, from [top_score = 0] and
    [closest = None]. *)
Definition closest_in (safe : list str) (domain : str) : Q * option str :=
  foldl (closer domain) (0%Q, None) safe.

Section with_libs.
Variable L : Libs.

Definition normalize_url (u : str) : result str :=
  (parsed <- UrlParse.urlparse L u ;;
   parsed <- (if bool_decide (UrlParse.scheme parsed = [])
              then UrlParse.urlparse L (py "http://" ++ u)
              else Ok parsed) ;;
   Ok (UrlParse.scheme parsed ++ py "://" ++ UrlParse.netloc parsed
       ++ UrlParse.path parsed))%exc.

Definition count_subs (u : str) : nat :=
  let parts := tldextract_extract L u in
  let subs :=
    List.filter (λ s, negb (bool_decide (strip s = [])))
                (split "." (subdomain parts)) in
  length subs.

Definition get_domain_ascii (u : str) : str :=
  let parts := tldextract_extract L u in
  let domain_ascii :=
    match Idna.encode L (domain parts) with
    | Ok encoded => encoded
    | Raise _ => domain parts
    end in
  domain_ascii ++ py "." ++ suffix parts.

Definition closest_real_site (u : str) : M (Q * option str) :=
  (let domain := get_domain_ascii u in
   safe <- global SAFE_DOMAINS ;;
   ret (closest_in safe domain))%prog.

(** [check_url], with the normaliser it calls as an argument. *)
Definition check_url_with (normalize : str -> result str) (u : str)
    : M Outcome :=
  (let u := strip u in
   if bool_decide (u = []) then
     ret (ErrorVerdict (py "No URL entered... try again."))
   else
     u <- lift (normalize u) ;;
     let ip_in_url := looks_like_ip u in
     bad_words <- find_bad_words u ;;
     let crazy_chars := too_many_symbols u in
     let https := is_secure u in
     let len := length u in
     let subs := count_subs u in
     closest <- closest_real_site u ;;
     let '(ratio, legit) := closest in
     let score := 0%Z in
     let score := if ip_in_url then (score + 5)%Z else score in
     let score :=
       if negb (bool_decide (bad_words = [])) then (score + 3)%Z
       else score in
     let score := if negb https then (score + 2)%Z else score in
     let score := if crazy_chars then (score + 2)%Z else score in
     let score := if 100 <? len then (score + 2)%Z else score in
     let score := if 3 <? subs then (score + 3)%Z else score in
     similar <- lift (if Qgtb ratio (85 # 100) then not_in legit u
                      else Ok false) ;;
     let score := if similar then (score + 4)%Z else score in
     let label :=
       if (8 <=? score)%Z then HIGH_RISK
       else if (4 <=? score)%Z then Suspicious
       else Seems_OK in
     ret (FullVerdict
            {| original := u; ip_in_url := ip_in_url;
               bad_words := bad_words; crazy_chars := crazy_chars;
               https := https; len := len; subs := subs;
               closest_match := (ratio, legit); score := score;
               label := label |}))%prog.

Definition check_url (u : str) : M Outcome :=
  check_url_with normalize_url u.

End with_libs.
End Code.

(** ** A sample of the library calls

    Enough of the three libraries to run the program on examples: the host
    is the text between [://] and the next [/]; a host that is a dotted
    quad is all domain, of any other the last label is taken for the public
    suffix and the one before for the domain; no name has an IDNA form and
    [ipaddress] accepts no text. *)

Module Sample.
Import PyStr.

Fixpoint after_scheme (u : str) : str :=
  match u with
  | [] => []
  | _ :: u' => if startswith (py "://") u then drop 3 u else after_scheme u'
  end.

Definition host (u : str) : str := (split1 "/" (after_scheme u)).1.

Fixpoint join (sep : str) (ws : list str) : str :=
  match ws with
  | [] => []
  | [w] => w
  | w :: ws' => w ++ sep ++ join sep ws'
  end.

Definition extract (u : str) : ExtractResult :=
  if is_dotted_quad (host u) then
    {| subdomain := []; domain := host u; suffix := [] |}
  else
    match rev (split "." (host u)) with
    | suf :: dom :: subs =>
        {| subdomain := join (py ".") (rev subs); domain := dom;
           suffix := suf |}
    | [dom] => {| subdomain := []; domain := dom; suffix := [] |}
    | [] => {| subdomain := []; domain := []; suffix := [] |}
    end.

Definition libs : Libs := {|
  tldextract_extract := extract;
  idna_encode_nonascii := λ _, Raise UnicodeError;
  ipaddress_ip_address := λ _, None
|}.

End Sample.

(** ** The command line

    The block under [if __name__ == "__main__"]: a banner, then a loop that
    reads a URL, stops on [exit], and prints the verdict of [check_url].
    The standard input is the list of the lines typed; [input] raises
    [EOFError] when there is none left.  What is written is kept call by
    call: a [line] is one call of [print], or the prompt of one call of
    [input], with the values it shows (how a number or a ratio is
    formatted is left out).  Every call of [print] is taken to succeed:
    the standard output is one whose encoding has the pictographs of the
    labels and of the risk bar, where [print] would otherwise raise
    [UnicodeEncodeError]. *)

Module Cli.
Import PyStr Code.

(** The two pictographs of the risk bar, a red and a green square. *)
Inductive cell := red | green.

Definition is_red (c : cell) : bool :=
  match c with
  | red => true
  | green => false
  end.

Inductive line :=
(** [print(t)] of a text of the program *)
| Text (t : str)
(** the prompt ["URL: "] of [input] *)
| Prompt
(** [print("Goodbye!")] *)
| GoodbyeLine
(** [print("Error:", outcome["error"])] *)
| ErrorLine (msg : str)
(** [print(f"\nResult: {outcome['label']}")] *)
| ResultLine (l : label_text)
(** [print("Score:", outcome["score"])] *)
| ScoreLine (score : Z)
(** [print("Risk Bar:", ...)] *)
| RiskBarLine (bar : list cell)
(** [print(" * HTTPS:", "Yes" if outcome["https"] else "No")] *)
| HttpsLine (yes : bool)
(** [print(" * Contains IP:", "Yes" if outcome["ip_in_url"] else "No")] *)
| ContainsIpLine (yes : bool)
(** [print(" * Subdomains:", outcome["subs"])] *)
| SubdomainsLine (n : nat)
(** [print(" * URL length:", outcome["len"])] *)
| UrlLengthLine (n : nat)
(** [print(" * Suspicious words:", ", ".join(outcome["bad_words"]))] *)
| SuspiciousWordsLine (joined : str)
(** [print(" * Lots of odd characters in URL")] *)
| OddCharactersLine
(** [print(f" * Closest safe domain: {legit} (sim: {ratio:.2f})")] *)
| ClosestLine (legit : option str) (ratio : Q)
(** [print("-" * 45, "\n")] *)
| RuleLine.

(** How a run ends, on such a standard output: [break] after [exit];
    [EOFError] from [input]; an exception of [check_url], which nothing
    catches. *)
Inductive ending :=
| Quit
| EndOfInput
| Uncaught (e : exn).

(** The red squares, [min(score, 10)] of them, then the green ones,
    [10 - min(score, 10)]; a string times a negative number is empty. *)
Definition risk_bar (score : Z) : list cell :=
  repeat red (Z.to_nat (Z.min score 10))
  ++ repeat green (Z.to_nat (10 - Z.min score 10)).

(** The lines printed for a full verdict. *)
Definition report (v : Verdict) : list line :=
  [ResultLine (label v); ScoreLine (score v);
   RiskBarLine (risk_bar (score v)); HttpsLine (https v);
   ContainsIpLine (ip_in_url v); SubdomainsLine (subs v);
   UrlLengthLine (len v)]
  ++ (if bool_decide (bad_words v = []) then []
      else [SuspiciousWordsLine (Sample.join (py ", ") (bad_words v))])
  ++ (if crazy_chars v then [OddCharactersLine] else [])
  ++ [ClosestLine (closest_match v).2 (closest_match v).1; RuleLine].

Definition banner : list line :=
  [Text (repeat "="%char 50);
   Text (py "     Phishing URL Checker (improved version)");
   Text (repeat "="%char 50);
   Text (py "Paste a URL (or type 'exit' to quit).");
   Text (py "--------------------------------------------------")].

Section with_libs.
Variable L : Libs.

(** The [while True] loop, on what is left of the standard input. *)
Fixpoint main_loop (stdin : list str) (g : Globals) : list line * ending :=
  match stdin with
  | [] => ([Prompt], EndOfInput)
  | typed :: stdin =>
      let user_url := strip typed in
      if bool_decide (lower user_url = py "exit")
      then ([Prompt; GoodbyeLine], Quit)
      else
        match check_url L user_url g with
        | (Raise e, _) => ([Prompt], Uncaught e)
        | (Ok outcome, g) =>
            let printed :=
              match outcome with
              | ErrorVerdict error => [ErrorLine error]
              | FullVerdict v => report v
              end in
            let '(more, e) := main_loop stdin g in
            (Prompt :: printed ++ more, e)
        end
  end.

Definition main (stdin : list str) (g : Globals) : list line * ending :=
  let '(printed, e) := main_loop stdin g in (banner ++ printed, e).

End with_libs.
End Cli.

(** ** Reading a verdict

    The terms in which the properties below speak of a verdict. *)

Module Reading.
Import PyStr Code.

(** The points of one rule. *)
Definition points (hit : bool) (p : Z) : Z := if hit then p else 0%Z.

(** The similarity rule: the best ratio is above 0.85 and the matched
    entry is not a piece of the normalised URL. *)
Definition similar_rule (closest : Q * option str) (n : str) : bool :=
  Qgtb closest.1 (85 # 100)
  && match closest.2 with
     | Some w => negb (contains w n)
     | None => false
     end.

(** The fields of the verdict [v] are the detectors' results on the
    normalised URL [n] in the state [g] of the globals. *)
Definition fields_of (L : Libs) (v : Verdict) (n : str) (g : Globals)
    : Prop :=
  original v = n
  ∧ ip_in_url v = looks_like_ip n
  ∧ bad_words v = List.filter (λ w, contains w (lower n)) (TRICKY_WORDS g)
  ∧ crazy_chars v = too_many_symbols n
  ∧ https v = is_secure n
  ∧ len v = length n
  ∧ subs v = count_subs L n
  ∧ closest_match v = closest_in (SAFE_DOMAINS g) (get_domain_ascii L n).

(** The sum of the seven rules. *)
Definition score_of (v : Verdict) : Z :=
  (points (ip_in_url v) 5
   + points (negb (bool_decide (bad_words v = []))) 3
   + points (negb (https v)) 2
   + points (crazy_chars v) 2
   + points (100 <? len v)%nat 2
   + points (3 <? subs v)%nat 3
   + points (similar_rule (closest_match v) (original v)) 4)%Z.

(** The label that goes with a score. *)
Definition label_of (z : Z) (l : label_text) : Prop :=
  ((8 <= z)%Z -> l = HIGH_RISK)
  ∧ ((4 <= z < 8)%Z -> l = Suspicious)
  ∧ ((z < 4)%Z -> l = Seems_OK).

(** One to three characters of the class [digit]. *)
Definition group13 {A : Type} (digit : A -> bool) (w : list A) : Prop :=
  1 <= length w <= 3 ∧ Forall (λ c, digit c = true) w.

(** One to three decimal digits. *)
Definition digits13 (w : str) : Prop :=
  1 <= length w <= 3 ∧ Forall (λ c, isdecimal c = true) w.

(** Four groups of one to three digits with dots between them. *)
Definition dotted_quad (w : str) : Prop :=
  ∃ g1 g2 g3 g4,
    w = g1 ++ py "." ++ g2 ++ py "." ++ g3 ++ py "." ++ g4
    ∧ digits13 g1 ∧ digits13 g2 ∧ digits13 g3 ∧ digits13 g4.

(** Somewhere in [u] the text [sch] stands with a dotted quad right after
    it; nothing is asked of what comes next. *)
Definition quad_after (sch u : str) : Prop :=
  ∃ pre q post, u = pre ++ sch ++ q ++ post ∧ dotted_quad q.

(** Follows the spec's words, to compare [looks_like_ip] with: the host
    portion of a URL, the text between the scheme delimiter [://] and the
    next [/], [?] or [#], is a dotted quad. *)
Definition host_portion (u : str) : str :=
  (UrlParse._splitnetloc (Sample.after_scheme u) 0).1.

Definition host_is_dotted_quad (u : str) : bool :=
  is_dotted_quad (host_portion u).


(** The three parts of a URL that [normalize_url] keeps as it is: a scheme
    of lower-case letters, digits, [+], [-] and [.] that starts with a
    letter; a host without [/ ? # [ ]] and without TAB, CR, LF; a path
    that is empty or starts with [/], without [? #] and TAB, CR, LF, and,
    under a scheme that takes parameters, without [;] in its last
    segment. *)
Definition lower_scheme_char (c : ascii) : bool :=
  between 97 122 c || between 48 57 c || has c (py "+-.").

Definition normal_scheme (scheme : str) : Prop :=
  ∃ c s, scheme = c :: s ∧ between 97 122 c = true
         ∧ Forall (λ d, lower_scheme_char d = true) s.



(** Where the netloc of [rest] ends: at its first [/], or at its end. *)
Definition netloc_end (rest : str) : nat :=
  default (length rest) (find "/" rest).

(** A text without [?], [#], TAB, CR and LF. *)
Definition plain (rest : str) : Prop :=
  Forall (λ c, has c (py "?#" ++ UrlParse.unsafe_url_bytes) = false) rest.

(** Under a scheme that takes parameters, no [;] after the last [/]. *)
Definition no_params (scheme rest : str) : Prop :=
  scheme ∈ UrlParse.uses_params -> "/"%char ∈ rest ->
  ";"%char ∉ after_last "/" rest.

(** A visible ASCII character other than [: ? # [ ] ;]. *)
Definition bare_char (c : ascii) : bool :=
  between 33 126 c && negb (has c (py ":?#[];")).

(** A text of such characters: a host and a path written with no scheme,
    no query string, no fragment, no bracket and no parameter. *)
Definition bare (u : str) : Prop := Forall (λ c, bare_char c = true) u.

(** A scheme name in any letter case: an ASCII letter, then letters,
    digits, [+], [-] and [.]. *)
Definition scheme_name (scheme : str) : Prop :=
  ∃ c s, scheme = c :: s ∧ ascii_alpha c = true
         ∧ Forall (λ d, has d UrlParse.scheme_chars = true) s.

(** The five rules worth two or three points, as they apply to a
    verdict. *)
Definition minor_rules (v : Verdict) : list bool :=
  [negb (bool_decide (bad_words v = [])); negb (https v); crazy_chars v;
   (100 <? len v)%nat; (3 <? subs v)%nat].

End Reading.

(** * Properties *)

(** ** White space and [strip] *)

Section strip_facts.
Import PyStr.

Lemma lstrip_by_all p u :
  Forall (λ c, p c = true) u -> lstrip_by p u = [].
Proof.
  induction 1 as [|c u Hc _ IH]; simpl; [done|].
  by rewrite Hc.
Qed.

Lemma lstrip_by_nil_inv p u :
  lstrip_by p u = [] -> Forall (λ c, p c = true) u.
Proof.
  induction u as [|c u IH]; simpl; [constructor|].
  destruct (p c) eqn:Hc; [|done].
  intros H. constructor; auto.
Qed.

Lemma lstrip_by_sublist p u : ∃ v, u = v ++ lstrip_by p u.
Proof.
  induction u as [|c u [v IH]]; simpl.
  - by exists [].
  - destruct (p c).
    + exists (c :: v). simpl. by f_equal.
    + by exists [].
Qed.

(** A string of white space, the empty one included, strips to
    nothing. *)
Lemma strip_blank u :
  Forall (λ c, isspace c = true) u -> strip u = [].
Proof.
  intros H. unfold strip, rstrip_by.
  by rewrite (lstrip_by_all _ _ H).
Qed.

Lemma lstrip_by_head p u c w : lstrip_by p u = c :: w -> p c = false.
Proof.
  induction u as [|d u IH]; simpl; [done|].
  destruct (p d) eqn:Hd; [done|]. congruence.
Qed.

Lemma strip_nil_inv u :
  strip u = [] -> Forall (λ c, isspace c = true) u.
Proof.
  unfold strip, rstrip_by. intros H.
  apply (f_equal (@rev ascii)) in H. rewrite rev_involutive in H.
  simpl in H. apply lstrip_by_nil_inv in H.
  destruct (lstrip_by isspace u) as [|c w] eqn:E.
  - by apply lstrip_by_nil_inv.
  - exfalso. apply lstrip_by_head in E.
    simpl in H. apply Forall_app in H as [_ H].
    apply Forall_inv in H. congruence.
Qed.

End strip_facts.

(** ** The loop of [closest_real_site] *)

Section closest_facts.
Import Code.

Lemma ratio_nonneg a b : (0 <= Difflib.ratio a b)%Q.
Proof.
  unfold Difflib.ratio, Difflib._calculate_ratio.
  destruct (_ =? 0); [done|].
  unfold Qle. simpl. lia.
Qed.

Lemma Qgtb_lt x y : Qgtb x y = true <-> (y < x)%Q.
Proof.
  unfold Qgtb. rewrite negb_true_iff.
  destruct (Qle_bool x y) eqn:E.
  - apply Qle_bool_iff in E. split; [done|]. intros H.
    exfalso. eapply Qlt_not_le; eauto.
  - split; [|done]. intros _. apply Qnot_le_lt. intros H.
    apply Qle_bool_iff in H. congruence.
Qed.

Lemma Qgtb_le x y : Qgtb x y = false <-> (x <= y)%Q.
Proof.
  unfold Qgtb. rewrite negb_false_iff. apply Qle_bool_iff.
Qed.

(** As long as no entry has been kept, the best score is the initial
    [0]. *)
Lemma foldl_closer_none domain safe acc r :
  foldl (closer domain) acc safe = (r, None) -> acc = (r, None).
Proof.
  revert acc. induction safe as [|w safe IH]; simpl; intros acc H.
  - done.
  - apply IH in H. destruct acc as [top closest]. simpl in H.
    destruct (Qgtb _ _); [done|]. done.
Qed.

Lemma closest_in_none safe domain r :
  closest_in safe domain = (r, None) -> r = 0%Q.
Proof.
  unfold closest_in. intros H. apply foldl_closer_none in H. congruence.
Qed.

End closest_facts.

(** ** What [check_url] computes *)

Section check_url_facts.
Import PyStr Code Reading.
Variable L : Libs.

(** The three ways a call of [check_url] ends, whatever normaliser it is
    given: the error verdict on a blank input, the normaliser's exception,
    or a full verdict built from the normalised URL. *)
Lemma check_url_with_cases normalize u g :
  (strip u = []
   ∧ check_url_with L normalize u g
     = (Ok (ErrorVerdict (py "No URL entered... try again.")), g))
  ∨ (strip u ≠ []
     ∧ ∃ e, normalize (strip u) = Raise e
            ∧ check_url_with L normalize u g = (Raise e, g))
  ∨ (strip u ≠ []
     ∧ ∃ n v, normalize (strip u) = Ok n
              ∧ check_url_with L normalize u g = (Ok (FullVerdict v), g)
              ∧ fields_of L v n g
              ∧ score v = score_of v
              ∧ label_of (score v) (label v)).
Proof.
  unfold check_url_with.
  destruct (bool_decide (strip u = [])) eqn:Hblank.
  { left. apply bool_decide_eq_true in Hblank. done. }
  apply bool_decide_eq_false in Hblank. right.
  unfold bind, lift, ret, find_bad_words, closest_real_site, global.
  destruct (normalize (strip u)) as [n|e] eqn:Hn.
  2:{ left. split; [done|]. by exists e. }
  right. split; [done|]. exists n. simpl.
  destruct (closest_in (SAFE_DOMAINS g) (get_domain_ascii L n))
    as [ratio legit] eqn:Hc.
  assert (Hsim : (if Qgtb ratio (85 # 100) then not_in legit n else Ok false)
                 = Ok (similar_rule (ratio, legit) n)).
  { unfold similar_rule. simpl. destruct (Qgtb ratio (85 # 100)) eqn:Hq.
    - destruct legit as [w|]; [done|].
      apply closest_in_none in Hc. subst ratio. done.
    - done. }
  rewrite Hsim. eexists. split; [done|]. split; [reflexivity|].
  split; [|split].
  - unfold fields_of. simpl. rewrite Hc. done.
  - unfold score_of, points. simpl.
    destruct (looks_like_ip n), (bool_decide (_ = [])), (is_secure n),
      (too_many_symbols n), (100 <? length n), (3 <? count_subs L n),
      (similar_rule (ratio, legit) n); reflexivity.
  - unfold label_of. simpl.
    match goal with |- context [(8 <=? ?z)%Z] => generalize z end.
    intros z. destruct (Z.leb_spec 8 z), (Z.leb_spec 4 z);
      repeat split; intros; try reflexivity; lia.
Qed.

(** The score is a sum of seven terms, each zero or its rule's points. *)
Lemma score_of_range v : (0 <= score_of v <= 21)%Z.
Proof.
  unfold score_of, points.
  destruct (ip_in_url v), (negb (bool_decide _)), (negb (https v)),
    (crazy_chars v), (100 <? len v), (3 <? subs v), (similar_rule _ _);
    lia.
Qed.

(** A full verdict comes from a normalised URL, carries the detectors'
    results on it, and its score is the sum of the rules. *)
Lemma check_url_verdict_inv u g g' v :
  check_url L u g = (Ok (FullVerdict v), g') ->
  ∃ n, normalize_url L (strip u) = Ok n
       ∧ fields_of L v n g ∧ score v = score_of v.
Proof.
  intros H. unfold check_url in H.
  destruct (check_url_with_cases (normalize_url L) u g)
    as [[_ E]|[[_ (e & _ & E)]|[_ (n & w & Hn & E & Hf & Hs & _)]]];
    rewrite E in H; try discriminate.
  injection H as -> _. by exists n.
Qed.

(** A call leaves the module's lists as they were. *)
Lemma check_url_with_frame normalize u g :
  (check_url_with L normalize u g).2 = g.
Proof.
  destruct (check_url_with_cases normalize u g)
    as [[_ ->]|[[_ (e & _ & ->)]|[_ (n & v & _ & -> & _)]]]; done.
Qed.

End check_url_facts.

(** ** The verdict of [check_url] *)

Section verdicts.
Import PyStr Code Reading.

(** C1, at the input where it fails: on ["http://["] the call raises
    [ValueError] out of [urlparse] (an opening bracket in the host without
    its closing one) and no verdict is returned, whatever the libraries
    answer and whatever the globals hold. *)
Theorem check_url_raises_on_open_bracket (L : Libs) (g : Globals) :
  strip (py "http://[") ≠ []
  ∧ check_url L (py "http://[") g = (Raise ValueError, g).
Proof.
  split; [by vm_compute|]. reflexivity.
Qed.

(** C2: on an input that is empty or all white space, [check_url] returns
    the error verdict with a message that is not empty, never a full
    verdict, and the same holds with any normaliser put in place of
    [normalize_url], one that always raises included: normalisation is not
    run on it. *)
Theorem check_url_blank_input (L : Libs) (g : Globals) (u : str) :
  Forall (λ c, isspace c = true) u ->
  ∃ msg,
    msg ≠ []
    ∧ check_url L u g = (Ok (ErrorVerdict msg), g)
    ∧ ∀ normalize,
        check_url_with L normalize u g = (Ok (ErrorVerdict msg), g).
Proof.
  intros Hu. apply strip_blank in Hu.
  exists (py "No URL entered... try again."). split; [done|].
  assert (H : ∀ normalize,
             check_url_with L normalize u g
             = (Ok (ErrorVerdict (py "No URL entered... try again.")), g)).
  { intros normalize.
    destruct (check_url_with_cases L normalize u g)
      as [[_ H]|[[Hne _]|[Hne _]]]; done. }
  split; [apply H|apply H].
Qed.

Lemma check_url_blank_input_witness :
  ∃ msg,
    msg ≠ []
    ∧ check_url Sample.libs (py "   ") module_globals
      = (Ok (ErrorVerdict msg), module_globals)
    ∧ ∀ normalize,
        check_url_with Sample.libs normalize (py "   ") module_globals
        = (Ok (ErrorVerdict msg), module_globals).
Proof.
  apply (check_url_blank_input Sample.libs module_globals (py "   ")).
  repeat constructor.
Defined.

(** C3: on an input that is not blank, [check_url] either passes on the
    exception of [normalize_url] or returns a full verdict; the score of
    the verdict lies between 0 and 21 and the label follows from it: 8 and
    above is the high-risk label, 4 to 7 the suspicious one, below 4 the
    seems-ok one. *)
Theorem check_url_score_range_and_label (L : Libs) (g : Globals) (u : str) :
  strip u ≠ [] ->
  match check_url L u g with
  | (Ok (FullVerdict v), _) =>
      (0 <= score v <= 21)%Z
      ∧ ((8 <= score v)%Z -> label v = HIGH_RISK)
      ∧ ((4 <= score v < 8)%Z -> label v = Suspicious)
      ∧ ((score v < 4)%Z -> label v = Seems_OK)
  | (Ok (ErrorVerdict _), _) => False
  | (Raise e, _) => normalize_url L (strip u) = Raise e
  end.
Proof.
  intros Hu. unfold check_url.
  destruct (check_url_with_cases L (normalize_url L) u g)
    as [[? _]|[[_ (e & He & ->)]|[_ (n & v & _ & -> & _ & Hs & Hl)]]];
    [done|done|].
  split; [rewrite Hs; apply score_of_range|apply Hl].
Qed.

Lemma check_url_score_range_and_label_witness :
  match check_url Sample.libs (py "http://paypal.com/account")
                  module_globals with
  | (Ok (FullVerdict v), _) =>
      (0 <= score v <= 21)%Z
      ∧ ((8 <= score v)%Z -> label v = HIGH_RISK)
      ∧ ((4 <= score v < 8)%Z -> label v = Suspicious)
      ∧ ((score v < 4)%Z -> label v = Seems_OK)
  | (Ok (ErrorVerdict _), _) => False
  | (Raise e, _) =>
      normalize_url Sample.libs (strip (py "http://paypal.com/account"))
      = Raise e
  end.
Proof.
  apply (check_url_score_range_and_label Sample.libs module_globals
           (py "http://paypal.com/account")).
  by vm_compute.
Defined.

(** C4: the fields of a verdict are the detectors' results on the
    normalised URL, and its score is the sum of the seven rules, each
    counted on its own: 5 for the IP flag, 3 for a trigger word, 2 for a
    transport that is not secure, 2 for the symbol flag, 2 for a length
    above 100, 3 for more than 3 subdomains, 4 for a best ratio above 0.85
    whose entry is not a piece of the normalised URL. *)
Theorem check_url_score_sum (L : Libs) (g g' : Globals) (u : str)
    (v : Verdict) :
  check_url L u g = (Ok (FullVerdict v), g') ->
  ∃ n,
    normalize_url L (strip u) = Ok n
    ∧ original v = n
    ∧ ip_in_url v = looks_like_ip n
    ∧ bad_words v
      = List.filter (λ w, contains w (lower n)) (TRICKY_WORDS g)
    ∧ crazy_chars v = too_many_symbols n
    ∧ https v = is_secure n
    ∧ len v = length n
    ∧ subs v = count_subs L n
    ∧ closest_match v
      = closest_in (SAFE_DOMAINS g) (get_domain_ascii L n)
    ∧ score v
      = ((if ip_in_url v then 5 else 0)
         + (if bool_decide (bad_words v = []) then 0 else 3)
         + (if https v then 0 else 2)
         + (if crazy_chars v then 2 else 0)
         + (if (100 <? len v)%nat then 2 else 0)
         + (if (3 <? subs v)%nat then 3 else 0)
         + (if Qgtb (closest_match v).1 (85 # 100)
               && match (closest_match v).2 with
                  | Some w => negb (contains w n)
                  | None => false
                  end
            then 4 else 0))%Z.
Proof.
  intros H. apply check_url_verdict_inv in H as (n & Hn & Hf & Hs).
  exists n. split; [done|].
  destruct Hf as (Ho & ? & ? & ? & ? & ? & ? & ?).
  repeat (split; [done|]).
  rewrite Hs. unfold score_of, points, similar_rule. rewrite Ho.
  destruct (bool_decide (bad_words v = [])), (https v); reflexivity.
Qed.

Lemma check_url_score_sum_witness :
  ∃ v n,
    check_url Sample.libs (py "http://192.168.1.1/login") module_globals
    = (Ok (FullVerdict v), module_globals)
    ∧ normalize_url Sample.libs (strip (py "http://192.168.1.1/login"))
      = Ok n
    ∧ score v = 10%Z
    ∧ score v
      = ((if ip_in_url v then 5 else 0)
         + (if bool_decide (bad_words v = []) then 0 else 3)
         + (if https v then 0 else 2)
         + (if crazy_chars v then 2 else 0)
         + (if (100 <? len v)%nat then 2 else 0)
         + (if (3 <? subs v)%nat then 3 else 0)
         + (if Qgtb (closest_match v).1 (85 # 100)
               && match (closest_match v).2 with
                  | Some w => negb (contains w n)
                  | None => false
                  end
            then 4 else 0))%Z.
Proof.
  destruct (check_url Sample.libs (py "http://192.168.1.1/login")
              module_globals) as [r g'] eqn:E.
  assert (E' := E). vm_compute in E'.
  injection E' as <- <-.
  destruct (check_url_score_sum Sample.libs module_globals module_globals
              (py "http://192.168.1.1/login") _ E)
    as (n & Hn & H).
  eexists _, n. split; [reflexivity|]. split; [exact Hn|].
  split; [reflexivity|]. apply H.
Defined.

(** X2: where [normalize_url] returns, [check_url] returns a full verdict for
    it: nothing after the normalisation raises, the [legit not in u] test
    included, which is only reached with an entry in hand. *)
Theorem check_url_returns_when_normalized (L : Libs) (g : Globals)
    (u n : str) :
  strip u ≠ [] -> normalize_url L (strip u) = Ok n ->
  ∃ v, check_url L u g = (Ok (FullVerdict v), g) ∧ original v = n.
Proof.
  intros Hu Hn. unfold check_url.
  destruct (check_url_with_cases L (normalize_url L) u g)
    as [[? _]|[[_ (e & He & _)]|[_ (n' & v & Hn' & -> & Hf & _)]]];
    [done|congruence|].
  exists v. split; [done|]. destruct Hf as [-> _]. congruence.
Qed.

Lemma check_url_returns_when_normalized_witness :
  ∃ v, check_url Sample.libs (py " example.com/page ") module_globals
       = (Ok (FullVerdict v), module_globals)
       ∧ original v = py "http://example.com/page".
Proof.
  apply (check_url_returns_when_normalized Sample.libs module_globals
           (py " example.com/page ") (py "http://example.com/page")).
  - by vm_compute.
  - by vm_compute.
Defined.

End verdicts.

(** ** The matcher finds a block where the two strings share an element *)

Section difflib_facts.
Import Difflib.
Variables a b : str.

Lemma scan_row_size blo bhi i j2len js new best :
  m_size best <= m_size (scan_row blo bhi i j2len js new best).2.
Proof.
  revert new best. induction js as [|j js IH]; intros new best; simpl.
  - done.
  - destruct (j <? blo); [apply IH|].
    destruct (bhi <=? j); [done|].
    etrans; [|apply IH].
    destruct (Nat.ltb_spec (m_size best) (j2lenget j2len j + 1));
      simpl; lia.
Qed.

Lemma scan_row_hit blo bhi i j2len j js new best :
  blo <= j < bhi ->
  1 <= m_size (scan_row blo bhi i j2len (j :: js) new best).2.
Proof.
  intros [Hlo Hhi]. simpl.
  destruct (Nat.ltb_spec j blo); [lia|].
  destruct (Nat.leb_spec bhi j); [lia|].
  etrans; [|apply scan_row_size].
  destruct (Nat.ltb_spec (m_size best) (j2lenget j2len j + 1));
    simpl; lia.
Qed.

Lemma scan_rows_size blo bhi rows j2len best :
  m_size best <= m_size (scan_rows a b blo bhi rows j2len best).
Proof.
  revert j2len best. induction rows as [|i rows IH]; intros j2len best;
    simpl; [done|].
  match goal with |- context [scan_row ?x ?y ?i ?m ?js ?n ?bst] =>
    pose proof (scan_row_size x y i m js n bst) as Hrow;
    destruct (scan_row x y i m js n bst) as [new best'] end.
  simpl in Hrow. etrans; [exact Hrow|apply IH].
Qed.

Lemma scan_rows_hit blo bhi rows j2len best i elt j js :
  i ∈ rows -> a !! i = Some elt -> b2j b !! elt = Some (j :: js) ->
  blo <= j < bhi ->
  1 <= m_size (scan_rows a b blo bhi rows j2len best).
Proof.
  intros Hi Ha Hb Hj. revert j2len best.
  induction rows as [|i' rows IH]; intros j2len best.
  - by apply elem_of_nil in Hi.
  - simpl. apply elem_of_cons in Hi as [<-|Hi].
    + rewrite Ha, Hb.
      pose proof (scan_row_hit blo bhi i j2len j js ∅ best Hj) as Hrow.
      remember (j :: js) as jjs eqn:Ejjs. simpl.
      destruct (scan_row blo bhi i j2len jjs ∅ best) as [new best'].
      simpl in Hrow. etrans; [exact Hrow|apply scan_rows_size].
    + match goal with |- context [scan_row ?x ?y ?i ?m ?js ?n ?bst] =>
        destruct (scan_row x y i m js n bst) as [new best'] end.
      by apply IH.
Qed.

Lemma extend_left_size alo blo besti bestj bestsize :
  bestsize <= m_size (extend_left a b alo blo besti bestj bestsize).
Proof.
  revert bestj bestsize.
  induction besti as [|i IH]; intros bestj bestsize; simpl; [done|].
  destruct bestj as [|j]; [done|].
  destruct (_ && _); simpl; [|done].
  etrans; [|apply IH]. lia.
Qed.

Lemma extend_right_size room ahi bhi besti bestj bestsize :
  bestsize <= m_size (extend_right a b room ahi bhi besti bestj bestsize).
Proof.
  revert bestsize. induction room as [|room IH]; intros bestsize; simpl;
    [done|].
  destruct (_ && _); simpl; [|done].
  etrans; [|apply IH]. lia.
Qed.

Lemma find_longest_match_hit alo ahi blo bhi i elt j js :
  alo <= i < ahi -> a !! i = Some elt -> b2j b !! elt = Some (j :: js) ->
  blo <= j < bhi ->
  1 <= m_size (find_longest_match a b alo ahi blo bhi).
Proof.
  intros Hi Ha Hb Hj. unfold find_longest_match.
  etrans; [|apply extend_right_size].
  etrans; [|apply extend_left_size].
  eapply scan_rows_hit; eauto.
  apply elem_of_seq. lia.
Qed.

Lemma blocks_loop_app fuel queue blocks :
  ∃ more, blocks_loop a b fuel queue blocks = blocks ++ more.
Proof.
  revert queue blocks. induction fuel as [|fuel IH]; intros queue blocks.
  - exists []. simpl. by rewrite app_nil_r.
  - destruct queue as [|[[[alo ahi] blo] bhi] queue].
    + exists []. simpl. by rewrite app_nil_r.
    + simpl. destruct (_ =? 0); [apply IH|].
      match goal with |- context [blocks_loop a b fuel ?q ?bl] =>
        destruct (IH q bl) as [more ->] end.
      eexists. by rewrite <- app_assoc.
Qed.

Lemma matches_hit i elt j js :
  a !! i = Some elt -> b2j b !! elt = Some (j :: js) -> j < length b ->
  1 <= matches a b.
Proof.
  intros Ha Hb Hj.
  assert (Hi : i < length a) by (apply lookup_lt_is_Some; eauto).
  assert (Hk : 1 <= m_size (find_longest_match a b 0 (length a) 0 (length b))).
  { eapply find_longest_match_hit; eauto; lia. }
  unfold matches, matching_blocks. simpl queue_weight.
  replace (length a - 0 + (length a - 0 + 0) + 1 + 0)
    with (S (2 * length a)) by lia.
  simpl blocks_loop.
  destruct (Nat.eqb_spec (m_size (find_longest_match a b 0 (length a) 0
                                    (length b))) 0); [lia|].
  match goal with |- context [blocks_loop a b ?f ?q ?bl] =>
    destruct (blocks_loop_app f q bl) as [more ->] end.
  simpl. lia.
Qed.

Lemma ratio_pos_of_matches :
  1 <= matches a b -> (0 < Difflib.ratio a b)%Q.
Proof.
  intros H. unfold Difflib.ratio, _calculate_ratio.
  destruct (_ =? 0); [done|].
  unfold Qlt. simpl. lia.
Qed.

End difflib_facts.

(** ** The best match *)

Section best_match.
Import PyStr Code.

(** The loop from any starting pair: the result is the starting pair when
    no entry beats its score, and otherwise the first entry whose ratio is
    above the starting score and above the ratio of every entry before it,
    no entry after it having a greater ratio. *)
Lemma foldl_closer_spec domain safe top closest :
  let '(r, c) := foldl (closer domain) (top, closest) safe in
  (∀ w, w ∈ safe -> (Difflib.ratio domain w <= r)%Q)
  ∧ (((r, c) = (top, closest))
     ∨ (∃ pre w post,
          safe = pre ++ w :: post ∧ c = Some w
          ∧ r = Difflib.ratio domain w ∧ (top < r)%Q
          ∧ ∀ w', w' ∈ pre -> (Difflib.ratio domain w' < r)%Q)).
Proof.
  revert top closest. induction safe as [|w safe IH]; intros top closest.
  - simpl. split; [|by left]. intros w Hw. by apply elem_of_nil in Hw.
  - simpl. destruct (Qgtb (Difflib.ratio domain w) top) eqn:Hq.
    + apply Qgtb_lt in Hq.
      specialize (IH (Difflib.ratio domain w) (Some w)).
      destruct (foldl _ _ safe) as [r c].
      destruct IH as [Hmax [Heq|(pre & w1 & post & -> & -> & -> & Hlt & Hpre)]].
      * injection Heq as -> ->. split.
        -- intros w' [->|Hw']%elem_of_cons; [apply Qle_refl|by apply Hmax].
        -- right. exists [], w, safe. repeat split; try done.
           intros w' Hw'. by apply elem_of_nil in Hw'.
      * split.
        -- intros w' [->|Hw']%elem_of_cons;
             [by apply Qlt_le_weak|by apply Hmax].
        -- right. exists (w :: pre), w1, post. repeat split; try done.
           ++ by eapply Qlt_trans.
           ++ intros w' [->|Hw']%elem_of_cons; [done|by apply Hpre].
    + apply Qgtb_le in Hq. specialize (IH top closest).
      destruct (foldl _ _ safe) as [r c].
      destruct IH as [Hmax [Heq|(pre & w1 & post & -> & -> & -> & Hlt & Hpre)]].
      * injection Heq as -> ->. split; [|by left].
        intros w' [->|Hw']%elem_of_cons; [done|by apply Hmax].
      * split.
        -- intros w' [->|Hw']%elem_of_cons; [|by apply Hmax].
           apply Qlt_le_weak. by eapply Qle_lt_trans.
        -- right. exists (w :: pre), w1, post. repeat split; try done.
           intros w' [->|Hw']%elem_of_cons; [|by apply Hpre].
           by eapply Qle_lt_trans.
Qed.

(** Once an entry is kept, one stays kept. *)
Lemma foldl_closer_some domain safe top w :
  ∃ r w', foldl (closer domain) (top, Some w) safe = (r, Some w').
Proof.
  destruct (foldl (closer domain) (top, Some w) safe) as [r [w'|]] eqn:E.
  - by exists r, w'.
  - by apply foldl_closer_none in E.
Qed.

(** A domain with a dot in it shares that dot with the first entry of the
    program's list. *)
Lemma ratio_google_pos x y :
  (0 < Difflib.ratio (x ++ py "." ++ y) (py "google.com"))%Q.
Proof.
  apply ratio_pos_of_matches.
  eapply (matches_hit _ _ (length x) "."%char 6 []).
  - rewrite lookup_app_r by lia. by rewrite Nat.sub_diag.
  - by vm_compute.
  - simpl. lia.
Qed.

End best_match.

Section closest_real_site_facts.
Import PyStr Code.

(** C6: [closest_real_site] returns the greatest ratio over the list of
    safe domains with the entry that has it, the earliest such entry when
    several have it (every entry before the one returned has a smaller
    ratio); on an empty list it returns 0 and no entry, and does not
    raise.  No entry is returned only when no ratio is above 0, which
    does not happen with the list the program ships: the domain text
    always has a dot in it, and so has every entry. *)
Theorem closest_real_site_best (L : Libs) (g : Globals) (u : str) :
  ∃ r c,
    closest_real_site L u g = (Ok (r, c), g)
    ∧ (SAFE_DOMAINS g = [] -> r = 0%Q ∧ c = None)
    ∧ (∀ w, w ∈ SAFE_DOMAINS g ->
            (Difflib.ratio (get_domain_ascii L u) w <= r)%Q)
    ∧ match c with
      | Some w =>
          ∃ pre post,
            SAFE_DOMAINS g = pre ++ w :: post
            ∧ r = Difflib.ratio (get_domain_ascii L u) w
            ∧ ∀ w', w' ∈ pre ->
                    (Difflib.ratio (get_domain_ascii L u) w' < r)%Q
      | None =>
          r = 0%Q
          ∧ ∀ w, w ∈ SAFE_DOMAINS g ->
                 (Difflib.ratio (get_domain_ascii L u) w == 0)%Q
      end
    ∧ ∃ w, (closest_in (SAFE_DOMAINS module_globals)
                       (get_domain_ascii L u)).2 = Some w.
Proof.
  set (d := get_domain_ascii L u).
  pose proof (foldl_closer_spec d (SAFE_DOMAINS g) 0%Q None) as H.
  destruct (foldl (closer d) (0%Q, None) (SAFE_DOMAINS g)) as [r c] eqn:E.
  destruct H as [Hmax Hcase].
  exists r, c. split; [|split; [|split; [|split]]].
  - unfold closest_real_site, bind, global, ret, closest_in. fold d.
    by rewrite E.
  - intros Hnil. rewrite Hnil in E. simpl in E. by injection E as <- <-.
  - exact Hmax.
  - destruct c as [w|].
    + destruct Hcase as [Heq|(pre & w1 & post & Hs & Hc & Hr & _ & Hpre)];
        [done|].
      injection Hc as <-. by exists pre, post.
    + destruct Hcase as [Heq|(pre & w1 & post & _ & Hc & _)]; [|done].
      injection Heq as ->. split; [done|].
      intros w Hw. apply Qle_antisym; [by apply Hmax|apply ratio_nonneg].
  - unfold d, get_domain_ascii, closest_in.
    change (SAFE_DOMAINS module_globals)
      with (py "google.com" :: tail (SAFE_DOMAINS module_globals)).
    cbn [foldl closer].
    match goal with |- context [Qgtb ?x 0] =>
      assert (Hp : Qgtb x 0 = true) end.
    { apply Qgtb_lt, ratio_google_pos. }
    rewrite Hp.
    match goal with |- context [foldl ?f (?top, Some ?w) ?l] =>
      destruct (foldl_closer_some
                  (match Idna.encode L (domain (tldextract_extract L u)) with
                   | Ok encoded => encoded
                   | Raise _ => domain (tldextract_extract L u)
                   end ++ py "." ++ suffix (tldextract_extract L u))
                  l top w) as (r' & w' & ->) end.
    by exists w'.
Qed.

(** Two entries with the same ratio: the one listed first is returned,
    in either order of the list. *)
Example closest_in_tie :
  Difflib.ratio (py "abxx") (py "abcd") = Difflib.ratio (py "abxx") (py "abdc")
  ∧ closest_in [py "abcd"; py "abdc"] (py "abxx")
    = ((4 # 8)%Q, Some (py "abcd"))
  ∧ closest_in [py "abdc"; py "abcd"] (py "abxx")
    = ((4 # 8)%Q, Some (py "abdc")).
Proof. by vm_compute. Qed.

End closest_real_site_facts.

(** ** Patterns and their words *)

Section regex_facts.
Import Re.
Context {A : Type} `{EqDecision A}.

Lemma lang_nil_nullable (r : regex A) : lang r [] -> nullable r = true.
Proof.
  intros H. remember [] as u eqn:Eu.
  induction H as [|p c Hc|r1 r2 u1 u2 _ IH1 _ IH2|r1 r2 u _ IH|r1 r2 u _ IH
                 |r|r u1 u2 _ _ _ _]; simpl; try done.
  - apply app_eq_nil in Eu as [-> ->]. by rewrite IH1, IH2.
  - by rewrite IH.
  - rewrite IH by done. apply orb_true_r.
Qed.

Lemma nullable_lang_nil (r : regex A) : nullable r = true -> lang r [].
Proof.
  induction r as [| |p|r1 IH1 r2 IH2|r1 IH1 r2 IH2|r IH]; simpl; try done.
  - intros _. constructor.
  - intros [H1 H2]%andb_true_iff.
    change (@nil A) with (@nil A ++ []). constructor; auto.
  - intros [H|H]%orb_true_iff;
      [apply lang_alt_l|apply lang_alt_r]; auto.
  - intros _. constructor.
Qed.

Lemma lang_seq_inv (r1 r2 : regex A) u :
  lang (Seq r1 r2) u -> ∃ u1 u2, u = u1 ++ u2 ∧ lang r1 u1 ∧ lang r2 u2.
Proof. inversion 1; subst. eauto. Qed.

Lemma lang_alt_inv (r1 r2 : regex A) u :
  lang (Alt r1 r2) u -> lang r1 u ∨ lang r2 u.
Proof. inversion 1; subst; auto. Qed.

Lemma lang_class_inv (p : A -> bool) u :
  lang (Class p) u -> ∃ c, u = [c] ∧ p c = true.
Proof. inversion 1; subst. eauto. Qed.

Lemma lang_empty_inv (u : list A) : lang Empty u -> u = [].
Proof. by inversion 1. Qed.

Lemma lang_star_cons_inv (r : regex A) c u :
  lang (Star r) (c :: u) ->
  ∃ u1 u2, u = u1 ++ u2 ∧ lang r (c :: u1) ∧ lang (Star r) u2.
Proof.
  intros H. remember (Star r) as s eqn:Es. remember (c :: u) as w eqn:Ew.
  revert u Ew.
  induction H as [| | | | | |r' u1 u2 H1 _ H2 IH2]; intros v Ew; try done.
  injection Es as ->. destruct u1 as [|c1 u1].
  - simpl in Ew. by apply IH2.
  - simpl in Ew. injection Ew as -> <-. eauto.
Qed.

Lemma deriv_lang c (r : regex A) u : lang (deriv c r) u <-> lang r (c :: u).
Proof.
  revert u. induction r as [| |p|r1 IH1 r2 IH2|r1 IH1 r2 IH2|r IH];
    intros u; simpl.
  - split; inversion 1.
  - split; inversion 1.
  - split.
    + destruct (p c) eqn:Hc; [|inversion 1].
      intros ->%lang_empty_inv. by constructor.
    + intros (d & [= -> ->] & Hd)%lang_class_inv. rewrite Hd. constructor.
  - split.
    + intros H.
      assert (Hl : lang (Seq (deriv c r1) r2) u -> lang (Seq r1 r2) (c :: u)).
      { intros (u1 & u2 & -> & H1 & H2)%lang_seq_inv.
        change (c :: u1 ++ u2) with ((c :: u1) ++ u2).
        constructor; [by apply IH1|done]. }
      destruct (nullable r1) eqn:Hn; [|by apply Hl].
      apply lang_alt_inv in H as [H|H]; [by apply Hl|].
      change (c :: u) with ([] ++ c :: u).
      constructor; [by apply nullable_lang_nil|by apply IH2].
    + intros (u1 & u2 & E & H1 & H2)%lang_seq_inv.
      destruct u1 as [|c1 u1]; simpl in E.
      * subst u2. rewrite (lang_nil_nullable _ H1).
        apply lang_alt_r. by apply IH2.
      * injection E as <- ->.
        assert (lang (Seq (deriv c r1) r2) (u1 ++ u2))
          by (constructor; [by apply IH1|done]).
        destruct (nullable r1); [by apply lang_alt_l|done].
  - split.
    + intros [H|H]%lang_alt_inv;
        [apply lang_alt_l, IH1|apply lang_alt_r, IH2]; done.
    + intros [H|H]%lang_alt_inv;
        [apply lang_alt_l, IH1|apply lang_alt_r, IH2]; done.
  - split.
    + intros (u1 & u2 & -> & H1 & H2)%lang_seq_inv.
      change (c :: u1 ++ u2) with ((c :: u1) ++ u2).
      constructor; [by apply IH|done].
    + intros (u1 & u2 & -> & H1 & H2)%lang_star_cons_inv.
      constructor; [by apply IH|done].
Qed.

(** [match_prefix] finds the patterns that have a word at the start of
    the text ... *)
Lemma match_prefix_spec (r : regex A) u :
  match_prefix r u = true <-> ∃ m post, u = m ++ post ∧ lang r m.
Proof.
  revert r. induction u as [|c u IH]; intros r; simpl.
  - rewrite orb_false_r. split.
    + intros H. exists [], []. split; [done|by apply nullable_lang_nil].
    + intros (m & post & E & H). symmetry in E.
      apply app_eq_nil in E as [-> _]. by apply lang_nil_nullable.
  - rewrite orb_true_iff, IH. split.
    + intros [H|(m & post & -> & H)].
      * exists [], (c :: u). split; [done|by apply nullable_lang_nil].
      * exists (c :: m), post. split; [done|by apply deriv_lang].
    + intros (m & post & E & H). destruct m as [|c1 m]; simpl in E.
      * left. by apply lang_nil_nullable.
      * injection E as <- ->. right. exists m, post.
        split; [done|by apply deriv_lang].
Qed.

(** ... and [search] those that have a word anywhere in it. *)
Lemma search_spec (r : regex A) u :
  search r u = true <-> ∃ pre m post, u = pre ++ m ++ post ∧ lang r m.
Proof.
  induction u as [|c u IH]; cbn [search].
  - rewrite orb_false_r, match_prefix_spec. split.
    + intros (m & post & E & H). by exists [], m, post.
    + intros (pre & m & post & E & H). symmetry in E.
      apply app_eq_nil in E as [-> E]. by exists m, post.
  - rewrite orb_true_iff, match_prefix_spec, IH. split.
    + intros [(m & post & E & H)|(pre & m & post & -> & H)].
      * by exists [], m, post.
      * by exists (c :: pre), m, post.
    + intros (pre & m & post & E & H). destruct pre as [|c1 pre].
      * left. by exists m, post.
      * injection E as <- ->. right. by exists pre, m, post.
Qed.

Lemma lang_text (w u : list A) : lang (Text w) u <-> u = w.
Proof.
  revert u. induction w as [|c w IH]; intros u; simpl.
  - split; [apply lang_empty_inv|intros ->; constructor].
  - split.
    + intros (u1 & u2 & -> & H1 & H2)%lang_seq_inv.
      apply lang_class_inv in H1 as (d & -> & Hd).
      apply bool_decide_eq_true in Hd as ->. apply IH in H2 as ->. done.
    + intros ->. change (c :: w) with ([c] ++ w).
      constructor; [|by apply IH].
      constructor. by apply bool_decide_eq_true.
Qed.

(** The words of [p{1,3}] for a class [p]. *)
Lemma lang_range13 (p : A -> bool) u :
  lang (Range 1 3 (Class p)) u
  <-> 1 <= length u <= 3 ∧ Forall (λ c, p c = true) u.
Proof.
  unfold Range. simpl. split.
  - intros (u1 & u2 & -> & H1 & H2)%lang_seq_inv.
    apply lang_seq_inv in H1 as (v1 & v2 & -> & (c1 & -> & Hc1)%lang_class_inv
                                 & ->%lang_empty_inv).
    apply lang_alt_inv in H2 as [H2| ->%lang_empty_inv].
    2:{ simpl. split; [lia|]. by repeat constructor. }
    apply lang_seq_inv in H2 as (v1 & v2 & -> & (c2 & -> & Hc2)%lang_class_inv
                                 & H3).
    apply lang_alt_inv in H3 as [H3| ->%lang_empty_inv].
    2:{ simpl. split; [lia|]. by repeat constructor. }
    apply lang_seq_inv in H3 as (v1 & v3 & -> & (c3 & -> & Hc3)%lang_class_inv
                                 & ->%lang_empty_inv).
    simpl. split; [lia|]. by repeat constructor.
  - intros [[Hlo Hhi] Hall].
    assert (Hc : ∀ c, p c = true -> lang (Class p) [c]) by (by constructor).
    destruct u as [|c1 [|c2 [|c3 [|c4 u]]]]; simpl in *; try lia.
    + apply Forall_cons in Hall as [H1 _].
      apply (lang_seq _ _ [c1] []).
      * apply (lang_seq _ _ [c1] []); [auto|constructor].
      * apply lang_alt_r. constructor.
    + apply Forall_cons in Hall as [H1 [H2 _]%Forall_cons].
      apply (lang_seq _ _ [c1] [c2]).
      * apply (lang_seq _ _ [c1] []); [auto|constructor].
      * apply lang_alt_l. apply (lang_seq _ _ [c2] []); [auto|].
        apply lang_alt_r. constructor.
    + apply Forall_cons in Hall as [H1 [H2 [H3 _]%Forall_cons]%Forall_cons].
      apply (lang_seq _ _ [c1] [c2; c3]).
      * apply (lang_seq _ _ [c1] []); [auto|constructor].
      * apply lang_alt_l. apply (lang_seq _ _ [c2] [c3]); [auto|].
        apply lang_alt_l. apply (lang_seq _ _ [c3] []); [auto|constructor].
Qed.

Lemma lang_lit (c : A) u : lang (Lit c) u <-> u = [c].
Proof.
  split.
  - intros (d & -> & Hd)%lang_class_inv.
    by apply bool_decide_eq_true in Hd as ->.
  - intros ->. constructor. by apply bool_decide_eq_true.
Qed.

End regex_facts.

(** ** The IP-literal detector *)

Section looks_like_ip_facts.
Import PyStr Re Code Reading.

Section pattern_facts.
Context {A : Type} `{EqDecision A}.
Variable chr : ascii -> A.
Variable digit : A -> bool.

Lemma lang_group u :
  lang (Seq (Range 1 3 (Class digit)) (Lit (chr "."))) u
  <-> ∃ g, u = g ++ map chr (py ".") ∧ group13 digit g.
Proof.
  split.
  - intros (g & d & -> & Hg & ->%lang_lit)%lang_seq_inv.
    exists g. split; [done|by apply lang_range13].
  - intros (g & -> & Hg). constructor; [by apply lang_range13|].
    by apply lang_lit.
Qed.

(** The words of the pattern: ["http://"] or ["https://"], then four
    groups of one to three digits with dots between them. *)
Lemma lang_ip_regex_on m :
  lang (ip_regex_on chr digit) m
  <-> ∃ sch g1 g2 g3 g4,
        m = map chr sch ++ g1 ++ map chr (py ".") ++ g2 ++ map chr (py ".")
            ++ g3 ++ map chr (py ".") ++ g4
        ∧ (sch = py "http://" ∨ sch = py "https://")
        ∧ group13 digit g1 ∧ group13 digit g2 ∧ group13 digit g3
        ∧ group13 digit g4.
Proof.
  unfold ip_regex_on. split.
  - intros (m1 & r1 & -> & ->%lang_text & H')%lang_seq_inv.
    apply lang_seq_inv in H' as (m2 & r2 & -> & H2 & H').
    apply lang_seq_inv in H' as (m3 & r3 & -> & ->%lang_text & H').
    apply lang_seq_inv in H' as (m4 & g4 & -> & H4 & Hg4%lang_range13).
    cbn [Rep] in H4.
    apply lang_seq_inv in H4 as (x1 & y1 & -> & (g1 & -> & Hg1)%lang_group & H4).
    apply lang_seq_inv in H4 as (x2 & y2 & -> & (g2 & -> & Hg2)%lang_group & H4).
    apply lang_seq_inv in H4 as (x3 & y3 & -> & (g3 & -> & Hg3)%lang_group
                                 & ->%lang_empty_inv).
    apply lang_alt_inv in H2 as [(c & -> & Hc)%lang_class_inv
                                | ->%lang_empty_inv].
    + apply bool_decide_eq_true, list_elem_of_singleton in Hc as ->.
      exists (py "https://"), g1, g2, g3, g4.
      split; [|by auto]. rewrite app_nil_r, <- !app_assoc. reflexivity.
    + exists (py "http://"), g1, g2, g3, g4.
      split; [|by auto]. rewrite app_nil_r, <- !app_assoc. reflexivity.
  - intros (sch & g1 & g2 & g3 & g4 & -> & Hsch & H1 & H2 & H3 & H4).
    assert (Hrest :
      lang (Seq (Rep 3 (Seq (Range 1 3 (Class digit)) (Lit (chr "."))))
                (Range 1 3 (Class digit)))
           (g1 ++ map chr (py ".") ++ g2 ++ map chr (py ".") ++ g3
            ++ map chr (py ".") ++ g4)).
    { replace (g1 ++ map chr (py ".") ++ g2 ++ map chr (py ".") ++ g3
               ++ map chr (py ".") ++ g4)
        with (((g1 ++ map chr (py ".")) ++ (g2 ++ map chr (py "."))
               ++ (g3 ++ map chr (py ".")) ++ []) ++ g4)
        by (by rewrite app_nil_r, <- !app_assoc).
      constructor; [|by apply lang_range13].
      cbn [Rep].
      repeat (constructor; [apply lang_group; eauto|]). constructor. }
    destruct Hsch as [-> | ->].
    + change (map chr (py "http://") ++ ?x)
        with (map chr (py "http") ++ [] ++ map chr (py "://") ++ x).
      constructor; [by apply lang_text|].
      constructor; [apply lang_alt_r; constructor|].
      constructor; [by apply lang_text|exact Hrest].
    + change (map chr (py "https://") ++ ?x)
        with (map chr (py "http") ++ map chr (py "s") ++ map chr (py "://")
              ++ x).
      constructor; [by apply lang_text|].
      constructor; [apply lang_alt_l; constructor;
                    by apply bool_decide_eq_true, list_elem_of_singleton|].
      constructor; [by apply lang_text|exact Hrest].
Qed.

End pattern_facts.

(** [looks_like_ip] is true exactly on the texts that have ["http://"] or
    ["https://"] somewhere with a dotted quad right after it. *)
Lemma looks_like_ip_spec u :
  looks_like_ip u = true
  <-> quad_after (py "http://") u ∨ quad_after (py "https://") u.
Proof.
  unfold looks_like_ip, ip_regex. rewrite search_spec. split.
  - intros (pre & m & post & -> & Hm).
    apply lang_ip_regex_on in Hm
      as (sch & g1 & g2 & g3 & g4 & -> & Hsch & H1 & H2 & H3 & H4).
    rewrite !map_id.
    destruct Hsch as [-> | ->]; [left|right];
      exists pre, (g1 ++ py "." ++ g2 ++ py "." ++ g3 ++ py "." ++ g4), post;
      (split; [by rewrite <- !app_assoc|by exists g1, g2, g3, g4]).
  - intros [(pre & q & post & -> & (g1 & g2 & g3 & g4 & -> & Hg))
           |(pre & q & post & -> & (g1 & g2 & g3 & g4 & -> & Hg))].
    + exists pre, (py "http://" ++ g1 ++ py "." ++ g2 ++ py "." ++ g3
                   ++ py "." ++ g4), post.
      split; [by rewrite <- !app_assoc|].
      apply lang_ip_regex_on. exists (py "http://"), g1, g2, g3, g4.
      rewrite !map_id. split; [done|]. split; [by left|exact Hg].
    + exists pre, (py "https://" ++ g1 ++ py "." ++ g2 ++ py "." ++ g3
                   ++ py "." ++ g4), post.
      split; [by rewrite <- !app_assoc|].
      apply lang_ip_regex_on. exists (py "https://"), g1, g2, g3, g4.
      rewrite !map_id. split; [done|]. split; [by right|exact Hg].
Qed.

(** C5, as amended: the detector returns true if and only if the text
    has, anywhere in it, ["http://"] or ["https://"] with four groups of
    one to three digits, dots between them, right after it; a digit is a
    character of the class [\d].  What follows the fourth group is not
    looked at and the place need not be the start of the URL.  This is
    proved of the pattern on a text over any alphabet, with any class of
    digits: of [re.search] on a Python string, where [\d] is every decimal
    digit of Unicode, and of [looks_like_ip] on the strings of this file,
    where it is 0 to 9. *)
Theorem looks_like_ip_iff {A : Type} `{EqDecision A} (chr : ascii -> A)
    (digit : A -> bool) (u : list A) :
  (looks_like_ip_on chr digit u = true
   <-> ∃ pre sch g1 g2 g3 g4 post,
         u = pre ++ map chr sch ++ g1 ++ map chr (py ".") ++ g2
             ++ map chr (py ".") ++ g3 ++ map chr (py ".") ++ g4 ++ post
         ∧ (sch = py "http://" ∨ sch = py "https://")
         ∧ group13 digit g1 ∧ group13 digit g2 ∧ group13 digit g3
         ∧ group13 digit g4)
  ∧ ∀ v : str, looks_like_ip v = looks_like_ip_on (λ c, c) isdecimal v.
Proof.
  split; [|done].
  unfold looks_like_ip_on. rewrite search_spec. split.
  - intros (pre & m & post & -> & Hm).
    apply lang_ip_regex_on in Hm
      as (sch & g1 & g2 & g3 & g4 & -> & Hsch & Hg).
    exists pre, sch, g1, g2, g3, g4, post.
    split; [by rewrite <- !app_assoc|done].
  - intros (pre & sch & g1 & g2 & g3 & g4 & post & -> & Hsch & Hg).
    exists pre, (map chr sch ++ g1 ++ map chr (py ".") ++ g2
                 ++ map chr (py ".") ++ g3 ++ map chr (py ".") ++ g4), post.
    split; [by rewrite <- !app_assoc|].
    apply lang_ip_regex_on. by exists sch, g1, g2, g3, g4.
Qed.

(** C5, as stated, fails both ways: a host that only starts like a dotted
    quad is flagged, so is a quad behind a second ["http://"] in the path,
    and the dotted-quad host of ["ftp://1.2.3.4/"] is not flagged; each of
    the three texts is a normalised URL. *)
Lemma looks_like_ip_is_not_a_host_test :
  (looks_like_ip (py "http://1.2.3.4abc.com/") = true
   ∧ host_is_dotted_quad (py "http://1.2.3.4abc.com/") = false)
  ∧ (looks_like_ip (py "http://example.com/http://1.2.3.4") = true
     ∧ host_is_dotted_quad (py "http://example.com/http://1.2.3.4") = false)
  ∧ (looks_like_ip (py "ftp://1.2.3.4/") = false
     ∧ host_is_dotted_quad (py "ftp://1.2.3.4/") = true)
  ∧ (∀ L : Libs,
       normalize_url L (py "http://1.2.3.4abc.com/")
       = Ok (py "http://1.2.3.4abc.com/")
       ∧ normalize_url L (py "http://example.com/http://1.2.3.4")
         = Ok (py "http://example.com/http://1.2.3.4")
       ∧ normalize_url L (py "ftp://1.2.3.4/") = Ok (py "ftp://1.2.3.4/")).
Proof.
  split; [by vm_compute|]. split; [by vm_compute|].
  split; [by vm_compute|]. intros L. by vm_compute.
Qed.

(** The pattern is found wherever it stands, behind the [s] of
    ["shttp://"] as well: a dotted-quad host behind another scheme is
    flagged when the scheme ends in [http] or [https]. *)
Example looks_like_ip_inside_scheme (L : Libs) :
  looks_like_ip (py "shttp://1.2.3.4/") = true
  ∧ normalize_url L (py "shttp://1.2.3.4/") = Ok (py "shttp://1.2.3.4/").
Proof. split; by vm_compute. Qed.

(** C10, as amended: a text that has ["http://"] or ["https://"] with four
    groups of one to three digits, dots between them, right after it is
    flagged, whatever the value of the groups. *)
Theorem looks_like_ip_no_range_check (pre sch g1 g2 g3 g4 post : str) :
  sch = py "http://" ∨ sch = py "https://" ->
  digits13 g1 -> digits13 g2 -> digits13 g3 -> digits13 g4 ->
  looks_like_ip (pre ++ sch ++ g1 ++ py "." ++ g2 ++ py "." ++ g3
                 ++ py "." ++ g4 ++ post) = true.
Proof.
  intros Hsch H1 H2 H3 H4. apply looks_like_ip_spec.
  destruct Hsch as [-> | ->]; [left|right];
    exists pre, (g1 ++ py "." ++ g2 ++ py "." ++ g3 ++ py "." ++ g4), post;
    (split; [by rewrite <- !app_assoc|by exists g1, g2, g3, g4]).
Qed.

Lemma looks_like_ip_no_range_check_witness :
  looks_like_ip (py "http://999.999.999.999/") = true.
Proof.
  apply (looks_like_ip_no_range_check [] (py "http://") (py "999")
           (py "999") (py "999") (py "999") (py "/")).
  - by left.
  - split; [simpl; lia|by repeat constructor].
  - split; [simpl; lia|by repeat constructor].
  - split; [simpl; lia|by repeat constructor].
  - split; [simpl; lia|by repeat constructor].
Defined.

(** C10, as stated, fails: the scheme delimiter is not enough, the pattern
    asks for [http] or [https] right before it.  Four groups of digits
    right after the delimiter of ["ftp://"] are not flagged. *)
Lemma looks_like_ip_other_scheme :
  looks_like_ip (py "ftp://999.999.999.999/") = false
  ∧ ¬ (∀ pre g1 g2 g3 g4 post : str,
         digits13 g1 -> digits13 g2 -> digits13 g3 -> digits13 g4 ->
         looks_like_ip (pre ++ py "://" ++ g1 ++ py "." ++ g2 ++ py "." ++ g3
                        ++ py "." ++ g4 ++ post) = true).
Proof.
  split; [by vm_compute|]. intros H.
  specialize (H (py "ftp") (py "999") (py "999") (py "999") (py "999")
                (py "/")).
  assert (Hd : digits13 (py "999"))
    by (split; [simpl; lia|by repeat constructor]).
  specialize (H Hd Hd Hd Hd). by vm_compute in H.
Qed.

End looks_like_ip_facts.

(** ** Scenario B *)

Section scenario_b.
Import PyStr Code Reading.

(** C9, as amended: on ["https://secure-login-update.paypa1.com-verify.net/auth"]
    the verdict has the secure-transport flag set and the trigger words
    login, secure, update, verify and auth, in the order of the program's
    list; the symbol flag is not set, the URL having three hyphens and not
    more than five; and with the host split the way the public suffix list
    splits it (domain [com-verify], suffix [net]) the text compared with the
    safe domains is ["com-verify.net"], whose best ratio is 6/23, with
    ["apple.com"], so the similarity rule adds nothing: the score is 3 and
    the label the seems-ok one. *)
Theorem scenario_b_verdict (L : Libs) :
  tldextract_extract L
    (py "https://secure-login-update.paypa1.com-verify.net/auth")
  = {| subdomain := py "secure-login-update.paypa1";
       domain := py "com-verify"; suffix := py "net" |} ->
  check_url L (py "https://secure-login-update.paypa1.com-verify.net/auth")
            module_globals
  = (Ok (FullVerdict
           {| original :=
                py "https://secure-login-update.paypa1.com-verify.net/auth";
              ip_in_url := false;
              bad_words := map py ["login"; "secure"; "update"; "verify";
                                   "auth"]%string;
              crazy_chars := false;
              https := true;
              len := 54;
              subs := 2;
              closest_match := ((6 # 23)%Q, Some (py "apple.com"));
              score := 3;
              label := Seems_OK |}),
     module_globals).
Proof.
  intros Hx.
  assert (Hn : normalize_url L
                 (strip (py "https://secure-login-update.paypa1.com-verify.net/auth"))
               = Ok (py "https://secure-login-update.paypa1.com-verify.net/auth"))
    by (by vm_compute).
  unfold check_url, check_url_with.
  replace (bool_decide
             (strip (py "https://secure-login-update.paypa1.com-verify.net/auth")
              = [])) with false by (by vm_compute).
  unfold bind, lift. rewrite Hn.
  unfold find_bad_words, closest_real_site, bind, global, ret, count_subs,
    get_domain_ascii.
  rewrite Hx. by vm_compute.
Qed.

Lemma scenario_b_verdict_witness :
  check_url Sample.libs
            (py "https://secure-login-update.paypa1.com-verify.net/auth")
            module_globals
  = (Ok (FullVerdict
           {| original :=
                py "https://secure-login-update.paypa1.com-verify.net/auth";
              ip_in_url := false;
              bad_words := map py ["login"; "secure"; "update"; "verify";
                                   "auth"]%string;
              crazy_chars := false;
              https := true;
              len := 54;
              subs := 2;
              closest_match := ((6 # 23)%Q, Some (py "apple.com"));
              score := 3;
              label := Seems_OK |}),
     module_globals).
Proof.
  apply (scenario_b_verdict Sample.libs). by vm_compute.
Defined.

(** C9, as stated, fails: whatever the libraries answer and whatever the
    globals hold, no verdict for this input has the symbol flag set; the
    normalised URL has three hyphens, no [@] and no [=]. *)
Lemma scenario_b_symbol_flag_not_set :
  ¬ (∃ (L : Libs) (g g' : Globals) (v : Verdict),
       check_url L
         (py "https://secure-login-update.paypa1.com-verify.net/auth") g
       = (Ok (FullVerdict v), g')
       ∧ https v = true ∧ crazy_chars v = true).
Proof.
  intros (L & g & g' & v & Hv & _ & Hc).
  apply check_url_verdict_inv in Hv as (n & Hn & (_ & _ & _ & Hcrazy & _) & _).
  vm_compute in Hn. injection Hn as <-.
  rewrite Hcrazy in Hc. by vm_compute in Hc.
Qed.

End scenario_b.

(** ** Scenarios A and C *)

Section scenarios_a_c.
Import PyStr Code Reading.

(** Scenario A: on ["http://paypal.com/account"], the host split into the
    domain [paypal] and the suffix [com], the transport is not secure, the
    trigger word is account, the best ratio is 1 with ["paypal.com"], which
    is a piece of the URL, so the similarity rule adds nothing: the score is
    2 + 3 = 5 and the label the suspicious one. *)
Theorem scenario_a_verdict (L : Libs) :
  tldextract_extract L (py "http://paypal.com/account")
  = {| subdomain := []; domain := py "paypal"; suffix := py "com" |} ->
  check_url L (py "http://paypal.com/account") module_globals
  = (Ok (FullVerdict
           {| original := py "http://paypal.com/account";
              ip_in_url := false;
              bad_words := [py "account"];
              crazy_chars := false;
              https := false;
              len := 25;
              subs := 0;
              closest_match := ((20 # 20)%Q, Some (py "paypal.com"));
              score := 5;
              label := Suspicious |}),
     module_globals).
Proof.
  intros Hx.
  assert (Hn : normalize_url L (strip (py "http://paypal.com/account"))
               = Ok (py "http://paypal.com/account")) by (by vm_compute).
  unfold check_url, check_url_with.
  replace (bool_decide (strip (py "http://paypal.com/account") = []))
    with false by (by vm_compute).
  unfold bind, lift. rewrite Hn.
  unfold find_bad_words, closest_real_site, bind, global, ret, count_subs,
    get_domain_ascii.
  rewrite Hx. by vm_compute.
Qed.

Lemma scenario_a_verdict_witness :
  check_url Sample.libs (py "http://paypal.com/account") module_globals
  = (Ok (FullVerdict
           {| original := py "http://paypal.com/account";
              ip_in_url := false;
              bad_words := [py "account"];
              crazy_chars := false;
              https := false;
              len := 25;
              subs := 0;
              closest_match := ((20 # 20)%Q, Some (py "paypal.com"));
              score := 5;
              label := Suspicious |}),
     module_globals).
Proof.
  apply (scenario_a_verdict Sample.libs). by vm_compute.
Defined.

(** Scenario C: on ["http://192.168.1.1/login"], the host being all domain
    as it is an IP address, the IP flag is set (5), the trigger word is
    login (3) and the transport is not secure (2): the score is 10 and the
    label the high-risk one. *)
Theorem scenario_c_verdict (L : Libs) :
  tldextract_extract L (py "http://192.168.1.1/login")
  = {| subdomain := []; domain := py "192.168.1.1"; suffix := [] |} ->
  check_url L (py "http://192.168.1.1/login") module_globals
  = (Ok (FullVerdict
           {| original := py "http://192.168.1.1/login";
              ip_in_url := true;
              bad_words := [py "login"];
              crazy_chars := false;
              https := false;
              len := 24;
              subs := 0;
              closest_match := ((2 # 21)%Q, Some (py "apple.com"));
              score := 10;
              label := HIGH_RISK |}),
     module_globals).
Proof.
  intros Hx.
  assert (Hn : normalize_url L (strip (py "http://192.168.1.1/login"))
               = Ok (py "http://192.168.1.1/login")) by (by vm_compute).
  unfold check_url, check_url_with.
  replace (bool_decide (strip (py "http://192.168.1.1/login") = []))
    with false by (by vm_compute).
  unfold bind, lift. rewrite Hn.
  unfold find_bad_words, closest_real_site, bind, global, ret, count_subs,
    get_domain_ascii.
  rewrite Hx. by vm_compute.
Qed.

Lemma scenario_c_verdict_witness :
  check_url Sample.libs (py "http://192.168.1.1/login") module_globals
  = (Ok (FullVerdict
           {| original := py "http://192.168.1.1/login";
              ip_in_url := true;
              bad_words := [py "login"];
              crazy_chars := false;
              https := false;
              len := 24;
              subs := 0;
              closest_match := ((2 # 21)%Q, Some (py "apple.com"));
              score := 10;
              label := HIGH_RISK |}),
     module_globals).
Proof.
  apply (scenario_c_verdict Sample.libs). by vm_compute.
Defined.

End scenarios_a_c.

(** ** Searching and cutting strings *)

Lemma has_false c u : PyStr.has c u = false <-> c ∉ u.
Proof. unfold PyStr.has. apply bool_decide_eq_false. Qed.

Lemma has_true c u : PyStr.has c u = true <-> c ∈ u.
Proof. unfold PyStr.has. apply bool_decide_eq_true. Qed.

(** Membership in one fixed text follows from membership in another, by
    cases on the character. *)
Ltac char_sub :=
  let c := fresh "c" in
  let H := fresh "H" in
  intros c H; apply has_true in H; apply has_true; revert H;
  destruct c as [[] [] [] [] [] [] [] []]; vm_compute; done.

Section string_facts.
Import PyStr UrlParse Reading.

Lemma find_not_in c u : c ∉ u -> find c u = None.
Proof.
  induction u as [|d u IH]; simpl; [done|].
  intros [Hd Hu]%not_elem_of_cons.
  destruct (decide (d = c)); [done|]. by rewrite IH.
Qed.

Lemma find_in c u : c ∈ u -> ∃ i, find c u = Some i ∧ u !! i = Some c.
Proof.
  induction u as [|d u IH]; simpl.
  - by intros ?%elem_of_nil.
  - destruct (decide (d = c)) as [->|Hne].
    + intros _. by exists 0.
    + intros [?|Hu]%elem_of_cons; [done|].
      destruct (IH Hu) as (i & -> & Hi). by exists (S i).
Qed.

Lemma find_app_skip c u v :
  c ∉ u -> find c (u ++ v) = (λ i, length u + i) <$> find c v.
Proof.
  induction u as [|d u IH]; simpl.
  - intros _. by destruct (find c v).
  - intros [Hd Hu]%not_elem_of_cons.
    destruct (decide (d = c)); [done|]. rewrite IH by done.
    by destruct (find c v).
Qed.

Lemma find_head c v : find c (c :: v) = Some 0.
Proof. simpl. by destruct (decide (c = c)). Qed.

Lemma remove_not_in c u : c ∉ u -> remove c u = u.
Proof.
  unfold remove. induction u as [|d u IH]; [done|].
  intros [Hd Hu]%not_elem_of_cons.
  rewrite filter_cons_True by done. by rewrite IH.
Qed.

Lemma rfind_in c u : c ∈ u -> ∃ r, rfind c u = Some r ∧ u !! r = Some c ∧ c ∉ drop (S r) u.
Proof.
  induction u as [|d u IH]; simpl.
  - by intros ?%elem_of_nil.
  - intros Hin. destruct (decide (c ∈ u)) as [Hu|Hu].
    + destruct (IH Hu) as (r & -> & Hr & Hd). by exists (S r).
    + apply elem_of_cons in Hin as [->|?]; [|done].
      assert (rfind d u = None) as ->.
      { clear IH. induction u as [|e u IH]; simpl; [done|].
        apply not_elem_of_cons in Hu as [He Hu]. rewrite IH by done.
        by destruct (decide (e = d)). }
      destruct (decide (d = d)); [|done]. exists 0. by rewrite drop_0.
Qed.

Lemma lower_scheme_char_facts d :
  lower_scheme_char d = true ->
  lower_char d = d ∧ has d scheme_chars = true ∧ d ≠ ":"%char
  ∧ has d unsafe_url_bytes = false.
Proof.
  destruct d as [[] [] [] [] [] [] [] []]; vm_compute; intuition congruence.
Qed.

Lemma lower_letter_facts c :
  between 97 122 c = true ->
  c0_control_or_space c = false ∧ isascii c = true ∧ ascii_alpha c = true
  ∧ lower_scheme_char c = true.
Proof.
  destruct c as [[] [] [] [] [] [] [] []]; vm_compute; intuition congruence.
Qed.


Lemma Forall_not_in_app (bad : str) (u v : str) :
  Forall (λ c, has c bad = false) u -> Forall (λ c, has c bad = false) v ->
  Forall (λ c, has c bad = false) (u ++ v).
Proof. intros. by apply Forall_app. Qed.

Lemma not_in_Forall (bad : str) b (u : str) :
  b ∈ bad -> Forall (λ c, has c bad = false) u -> b ∉ u.
Proof.
  intros Hb Hu Hin. rewrite Forall_forall in Hu.
  apply Hu in Hin. apply has_false in Hin. done.
Qed.

Lemma Forall_has_weaken (bad bad' : str) (u : str) :
  (∀ c, c ∈ bad' -> c ∈ bad) ->
  Forall (λ c, has c bad = false) u -> Forall (λ c, has c bad' = false) u.
Proof.
  intros Hsub Hu. eapply Forall_impl; [exact Hu|].
  intros c Hc%has_false. apply has_false. auto.
Qed.

Lemma clean_id (u : str) :
  Forall (λ c, has c unsafe_url_bytes = false) u ->
  foldl (λ url b, remove b url) u unsafe_url_bytes = u.
Proof.
  intros Hu.
  assert (H : ∀ b, b ∈ unsafe_url_bytes -> b ∉ u)
    by (intros b Hb; by eapply not_in_Forall).
  unfold unsafe_url_bytes in *. cbn [foldl].
  rewrite (remove_not_in (ascii_of_N 9) u) by (apply H, has_true; by vm_compute).
  rewrite (remove_not_in (ascii_of_N 13) u) by (apply H, has_true; by vm_compute).
  rewrite (remove_not_in (ascii_of_N 10) u) by (apply H, has_true; by vm_compute).
  done.
Qed.

Lemma lower_id (u : str) : Forall (λ c, lower_char c = c) u -> lower u = u.
Proof.
  unfold lower. induction 1 as [|c u Hc _ IH]; simpl; [done|].
  by rewrite Hc, IH.
Qed.

End string_facts.

(** ** Normalisation *)

Section normalize_facts.
Import PyStr UrlParse Code Reading.

Lemma find_Some c u i :
  find c u = Some i -> u !! i = Some c ∧ c ∉ take i u.
Proof.
  revert i. induction u as [|d u IH]; intros i; simpl; [done|].
  destruct (decide (d = c)) as [->|Hne].
  - intros [= <-]. split; [done|]. simpl. by intros ?%elem_of_nil.
  - destruct (find c u) as [i'|]; [|done]. intros [= <-].
    destruct (IH i' eq_refl) as [H1 H2]. split; [done|]. simpl.
    by intros [?|?]%elem_of_cons.
Qed.

Lemma find_None c u : find c u = None -> c ∉ u.
Proof.
  intros H Hin. apply find_in in Hin as (i & Hi & _). congruence.
Qed.

Lemma netloc_end_le rest : netloc_end rest <= length rest.
Proof.
  unfold netloc_end. destruct (find "/" rest) as [i|] eqn:E; simpl; [|lia].
  apply find_Some in E as [E _]. apply lookup_lt_Some in E. lia.
Qed.

Lemma plain_not_in rest c : plain rest -> c ∈ py "?#" -> c ∉ rest.
Proof.
  intros H Hc. eapply not_in_Forall; [|exact H]. revert c Hc. char_sub.
Qed.

Lemma plain_unsafe rest :
  plain rest -> Forall (λ d, has d unsafe_url_bytes = false) rest.
Proof. apply Forall_has_weaken. char_sub. Qed.

(** The netloc of [//rest] is [rest] up to its first [/]. *)
Lemma splitnetloc_plain (rest : str) :
  plain rest ->
  _splitnetloc (py "//" ++ rest) 2
  = (take (netloc_end rest) rest, drop (netloc_end rest) rest).
Proof.
  intros Hp.
  assert (Hq : ∀ c, c ∈ py "?#" -> find_from c 2 (py "//" ++ rest) = None).
  { intros c Hc. unfold find_from.
    change (drop 2 (py "//" ++ rest)) with rest.
    rewrite find_not_in; [done|]. by apply plain_not_in. }
  unfold _splitnetloc. change (py "/?#") with ["/"; "?"; "#"]%char.
  cbn [foldl]. rewrite !Hq by (apply has_true; by vm_compute).
  unfold find_from. change (drop 2 (py "//" ++ rest)) with rest.
  pose proof (netloc_end_le rest) as Hle. unfold netloc_end in *.
  destruct (find "/" rest) as [i|] eqn:E;
    cbn [fmap option_fmap option_map default from_option id] in *.
  - replace (length (py "//" ++ rest) `min` (2 + i)) with (S (S i))
      by (simpl; lia).
    reflexivity.
  - rewrite take_ge by done. rewrite drop_all.
    rewrite take_ge by done. by rewrite drop_all.
Qed.

Lemma split_scheme_normal (scheme rest : str) :
  normal_scheme scheme ->
  split_scheme (scheme ++ ":"%char :: rest) = (scheme, rest).
Proof.
  intros (c & s & -> & Hc & Hs).
  destruct (lower_letter_facts c Hc) as (Hc0 & Hasc & Halpha & Hlc).
  assert (Hcs : Forall (λ d, lower_scheme_char d = true) (c :: s))
    by (by constructor).
  assert (Hlow : lower (c :: s) = c :: s).
  { apply lower_id. eapply Forall_impl; [exact Hcs|].
    intros d Hd. by apply lower_scheme_char_facts in Hd as (? & _). }
  assert (Hsch : forallb (λ d, has d scheme_chars) (c :: s) = true).
  { apply forallb_forall. intros d Hd. rewrite Forall_forall in Hcs.
    apply list_elem_of_In in Hd.
    by apply Hcs, lower_scheme_char_facts in Hd as (_ & ? & _). }
  assert (Hcolon : ":"%char ∉ c :: s).
  { intros Hin. rewrite Forall_forall in Hcs.
    by apply Hcs, lower_scheme_char_facts in Hin as (_ & _ & ? & _). }
  unfold split_scheme.
  rewrite find_app_skip by done. rewrite find_head.
  cbn [fmap option_fmap option_map length Nat.add].
  rewrite Nat.add_0_r.
  change ((c :: s) ++ ":"%char :: rest) with (c :: (s ++ ":"%char :: rest)).
  cbv iota beta.
  assert (Ht : take (S (length s)) (c :: s ++ ":"%char :: rest) = c :: s)
    by (simpl; f_equal; apply take_app_length).
  assert (Hd : drop (S (S (length s))) (c :: s ++ ":"%char :: rest) = rest).
  { cbn [drop]. rewrite (cons_middle ":"%char s), app_assoc.
    rewrite drop_app_length'; [done|]. rewrite length_app. simpl. lia. }
  by rewrite Ht, Hd, Hasc, Halpha, Hsch, Hlow.
Qed.

Lemma normal_scheme_unsafe scheme :
  normal_scheme scheme ->
  Forall (λ d, has d unsafe_url_bytes = false) scheme
  ∧ ∃ c s, scheme = c :: s ∧ c0_control_or_space c = false.
Proof.
  intros (c & s & -> & Hc & Hs).
  destruct (lower_letter_facts c Hc) as (Hc0 & Hasc & Halpha & Hlc).
  split; [|by exists c, s].
  assert (Hcs : Forall (λ d, lower_scheme_char d = true) (c :: s))
    by (by constructor).
  eapply Forall_impl; [exact Hcs|].
  intros d Hd. by apply lower_scheme_char_facts in Hd as (_ & _ & _ & ?).
Qed.

(** What [urlsplit] does with a normal scheme, [://] and a plain text. *)
Lemma urlsplit_reparse L scheme rest :
  normal_scheme scheme -> plain rest ->
  urlsplit L (scheme ++ py "://" ++ rest)
  = (nu <- split_netloc L (py "//" ++ rest) ;;
     Ok {| s_scheme := scheme; s_netloc := take (netloc_end rest) rest;
           s_url := drop (netloc_end rest) rest;
           s_query := []; s_fragment := [] |})%exc.
Proof.
  intros Hs Hp.
  destruct (normal_scheme_unsafe _ Hs) as (Hsu & c & s & -> & Hc0).
  assert (Hsafe : Forall (λ d, has d unsafe_url_bytes = false)
                         ((c :: s) ++ py "://" ++ rest)).
  { apply Forall_app. split; [done|].
    apply Forall_app. split; [by repeat constructor|].
    by apply plain_unsafe. }
  unfold urlsplit.
  replace (lstrip_by c0_control_or_space ((c :: s) ++ py "://" ++ rest))
    with ((c :: s) ++ py "://" ++ rest) by (simpl; by rewrite Hc0).
  rewrite (clean_id _ Hsafe).
  change (py "://" ++ rest) with (":"%char :: py "//" ++ rest).
  rewrite (split_scheme_normal _ _ Hs).
  unfold split_netloc.
  replace (bool_decide (take 2 (py "//" ++ rest) = py "//")) with true
    by (symmetry; by apply bool_decide_eq_true).
  rewrite splitnetloc_plain by done.
  assert (Hno : ∀ c', c' ∈ py "?#" ->
                      has c' (drop (netloc_end rest) rest) = false).
  { intros c' Hc'. apply has_false. intros Hin.
    apply (plain_not_in rest c' Hp Hc'). by eapply subseteq_drop. }
  set (n := take (netloc_end rest) rest).
  destruct (_ || _); [done|].
  destruct (has "[" n && has "]" n).
  - destruct (_check_bracketed_netloc L n) as [[]|e]; [|done].
    cbn [rbind].
    rewrite (Hno "#"%char), (Hno "?"%char) by (apply has_true; by vm_compute).
    done.
  - cbn [rbind].
    rewrite (Hno "#"%char), (Hno "?"%char) by (apply has_true; by vm_compute).
    done.
Qed.

Lemma rfind_after_last c u r :
  rfind c u = Some r -> drop r u = c :: after_last c u.
Proof.
  intros Hr. unfold after_last. rewrite Hr.
  revert r Hr. induction u as [|d u IH]; intros r; simpl; [done|].
  destruct (rfind c u) as [i|] eqn:E.
  - intros [= <-]. simpl. by apply IH.
  - destruct (decide (d = c)) as [->|]; [|done].
    intros [= <-]. by rewrite drop_0.
Qed.

Lemma rfind_None c u : rfind c u = None -> c ∉ u.
Proof.
  intros H Hin. apply rfind_in in Hin as (r & Hr & _). congruence.
Qed.

Lemma after_last_app c u v :
  c ∈ v -> after_last c (u ++ v) = after_last c v.
Proof.
  intros Hv. unfold after_last.
  destruct (rfind_in c v Hv) as (r & Hr & _). rewrite Hr.
  assert (rfind c (u ++ v) = Some (length u + r)) as ->.
  { induction u as [|d u IH]; simpl; [done|]. by rewrite IH. }
  replace (S (length u + r)) with (length u + S r) by lia.
  by rewrite drop_app_add.
Qed.

(** A path that starts with [/] and has no [;] after its last [/] has no
    parameters to split off. *)
Lemma splitparams_normal (path : str) :
  "/"%char ∈ path -> ";"%char ∉ after_last "/" path ->
  _splitparams path = (path, []).
Proof.
  intros Hin Hlast. unfold _splitparams.
  rewrite (proj2 (has_true _ _) Hin).
  destruct (rfind_in _ _ Hin) as (r & Hr & _ & _).
  rewrite Hr. cbn [default from_option id].
  unfold find_from. rewrite (rfind_after_last _ _ _ Hr).
  rewrite find_not_in; [done|].
  intros [?|?]%elem_of_cons; done.
Qed.

(** The parse of a normal scheme, [://] and a plain text without
    parameters: the exception of the netloc's check, or the scheme, the text
    up to its first [/] and the text from there on. *)
Lemma urlparse_reparse L scheme rest :
  normal_scheme scheme -> plain rest -> no_params scheme rest ->
  urlparse L (scheme ++ py "://" ++ rest)
  = (nu <- split_netloc L (py "//" ++ rest) ;;
     Ok {| UrlParse.scheme := scheme;
           netloc := take (netloc_end rest) rest;
           UrlParse.path := drop (netloc_end rest) rest;
           params := []; query := []; fragment := [] |})%exc.
Proof.
  intros Hs Hp Hparams. unfold urlparse.
  rewrite urlsplit_reparse by done.
  destruct (split_netloc L (py "//" ++ rest)) as [[n p]|e]; [|done].
  cbn [rbind s_scheme s_url s_netloc s_query s_fragment].
  destruct (bool_decide (scheme ∈ uses_params)) eqn:Hu; [|done].
  apply bool_decide_eq_true in Hu.
  destruct (has ";" (drop (netloc_end rest) rest)) eqn:Hsemi; [|done].
  apply has_true in Hsemi. cbn [andb].
  unfold netloc_end in *.
  destruct (find "/" rest) as [i|] eqn:Ef;
    cbn [default from_option id] in *.
  2:{ rewrite drop_all in Hsemi. by apply elem_of_nil in Hsemi. }
  apply find_Some in Ef as [Ei Hbefore].
  assert (Hslash : "/"%char ∈ drop i rest).
  { rewrite (drop_S _ _ _ Ei). by left. }
  assert (Heq : after_last "/" rest = after_last "/" (drop i rest)).
  { rewrite <- (take_drop i rest) at 1. by apply after_last_app. }
  rewrite splitparams_normal; [done|done|].
  rewrite <- Heq. apply Hparams; [done|]. by eapply subseteq_drop.
Qed.

Lemma normalize_url_reparse_eq L scheme rest :
  normal_scheme scheme -> plain rest -> no_params scheme rest ->
  normalize_url L (scheme ++ py "://" ++ rest)
  = (nu <- split_netloc L (py "//" ++ rest) ;;
     Ok (scheme ++ py "://" ++ rest))%exc.
Proof.
  intros Hs Hp Hparams. unfold normalize_url.
  rewrite urlparse_reparse by done.
  destruct (split_netloc L (py "//" ++ rest)) as [[n p]|e]; [|done].
  cbn [rbind UrlParse.scheme UrlParse.netloc UrlParse.path].
  destruct Hs as (c & s & -> & _).
  rewrite bool_decide_eq_false_2 by done.
  cbn [rbind UrlParse.scheme UrlParse.netloc UrlParse.path].
  by rewrite take_drop.
Qed.

(** Without a bracket in the netloc its check passes. *)
Lemma split_netloc_plain_ok L rest :
  plain rest ->
  has "[" (take (netloc_end rest) rest) = false ->
  has "]" (take (netloc_end rest) rest) = false ->
  split_netloc L (py "//" ++ rest)
  = Ok (take (netloc_end rest) rest, drop (netloc_end rest) rest).
Proof.
  intros Hp Ho Hc. unfold split_netloc.
  replace (bool_decide (take 2 (py "//" ++ rest) = py "//")) with true
    by (symmetry; by apply bool_decide_eq_true).
  rewrite splitnetloc_plain by done. by rewrite Ho, Hc.
Qed.

(** *** What a parse returns *)

Lemma remove_subseteq b (u : str) : remove b u ⊆ u.
Proof. unfold remove. intros d Hd. by apply list_elem_of_filter in Hd as [_ ?]. Qed.

Lemma remove_gone b (u : str) : b ∉ remove b u.
Proof. unfold remove. intros Hd. by apply list_elem_of_filter in Hd as [? _]. Qed.

(** After the three removals none of TAB, CR, LF is left. *)
Lemma clean_unsafe (u : str) :
  Forall (λ d, has d unsafe_url_bytes = false)
         (foldl (λ url b, remove b url) u unsafe_url_bytes).
Proof.
  unfold unsafe_url_bytes. cbn [foldl].
  apply Forall_forall. intros d Hd. apply has_false.
  intros Hbad.
  apply elem_of_cons in Hbad as [->|Hbad].
  { apply remove_subseteq, remove_subseteq in Hd. by apply remove_gone in Hd. }
  apply elem_of_cons in Hbad as [->|Hbad].
  { apply remove_subseteq in Hd. by apply remove_gone in Hd. }
  apply elem_of_cons in Hbad as [->|Hbad]; [|by apply elem_of_nil in Hbad].
  by apply remove_gone in Hd.
Qed.

Lemma scheme_char_lower d :
  has d scheme_chars = true -> lower_scheme_char (lower_char d) = true.
Proof.
  destruct d as [[] [] [] [] [] [] [] []]; vm_compute; congruence.
Qed.

Lemma alpha_lower c :
  isascii c && ascii_alpha c = true -> between 97 122 (lower_char c) = true.
Proof.
  destruct c as [[] [] [] [] [] [] [] []]; vm_compute; congruence.
Qed.

(** [split_scheme] finds no scheme and leaves the text as it is, or finds a
    normal one and leaves what follows its [:]. *)
Lemma split_scheme_out (url : str) :
  (split_scheme url = ([], url))
  ∨ (normal_scheme (split_scheme url).1
     ∧ ∃ i, (split_scheme url).2 = drop i url).
Proof.
  unfold split_scheme.
  destruct (find ":" url) as [[|i']|]; [by left| |by left].
  destruct url as [|c0 t]; [by left|].
  destruct (isascii c0 && ascii_alpha c0) eqn:Hc0; [|by left].
  destruct (forallb _ _) eqn:Hall; [|by left].
  right. cbn [andb fst snd]. split; [|by eexists].
  cbn [take lower map]. exists (lower_char c0), (map lower_char (take i' t)).
  split; [done|]. split; [by apply alpha_lower|].
  cbn [take forallb] in Hall. apply andb_true_iff in Hall as [_ Hall].
  apply Forall_forall. intros d (d0 & -> & Hd0)%list_elem_of_fmap.
  apply scheme_char_lower. rewrite forallb_forall in Hall.
  apply Hall. by apply list_elem_of_In.
Qed.

Lemma find_from_Some c start (u : str) w delim :
  find_from c start u = Some w -> delim <= w ->
  c ∉ drop start (take delim u).
Proof.
  unfold find_from. destruct (find c (drop start u)) as [i|] eqn:E; [|done].
  intros [= <-] Hle. apply find_Some in E as [_ Hnot].
  intros (j & Hj)%list_elem_of_lookup. rewrite lookup_drop in Hj.
  apply lookup_take_Some in Hj as [Hj Hlt].
  apply Hnot, elem_of_take. exists j. rewrite lookup_drop. split; [done|lia].
Qed.

Lemma find_from_None c start (u : str) delim :
  find_from c start u = None -> c ∉ drop start (take delim u).
Proof.
  unfold find_from. destruct (find c (drop start u)) as [i|] eqn:E; [done|].
  intros _. apply find_None in E.
  intros (j & Hj)%list_elem_of_lookup. rewrite lookup_drop in Hj.
  apply lookup_take_Some in Hj as [Hj Hlt].
  apply E, list_elem_of_lookup. exists j. by rewrite lookup_drop.
Qed.

(** The netloc [_splitnetloc] cuts out has none of [/], [?], [#]. *)
Lemma splitnetloc_out (url : str) start c :
  c ∈ py "/?#" -> c ∉ (_splitnetloc url start).1.
Proof.
  intros Hc. unfold _splitnetloc. change (py "/?#") with ["/"; "?"; "#"]%char.
  cbn [foldl fst].
  set (d0 := length url).
  set (d1 := match find_from "/" start url with
             | Some w => d0 `min` w | None => d0 end).
  set (d2 := match find_from "?" start url with
             | Some w => d1 `min` w | None => d1 end).
  set (d3 := match find_from "#" start url with
             | Some w => d2 `min` w | None => d2 end).
  assert (H3 : d3 <= d2) by (unfold d3; destruct (find_from "#" _ _); lia).
  assert (H2 : d2 <= d1) by (unfold d2; destruct (find_from "?" _ _); lia).
  change (py "/?#") with ["/"; "?"; "#"]%char in Hc.
  apply elem_of_cons in Hc as [->|Hc]; [|apply elem_of_cons in Hc as [->|Hc];
    [|apply elem_of_cons in Hc as [->|Hc]; [|by apply elem_of_nil in Hc]]].
  - destruct (find_from "/" start url) as [w|] eqn:E.
    + eapply find_from_Some; [exact E|]. unfold d1 in *. lia.
    + by apply find_from_None.
  - destruct (find_from "?" start url) as [w|] eqn:E.
    + eapply find_from_Some; [exact E|]. unfold d2 in *. lia.
    + by apply find_from_None.
  - destruct (find_from "#" start url) as [w|] eqn:E.
    + eapply find_from_Some; [exact E|]. unfold d3 in *. lia.
    + by apply find_from_None.
Qed.

Lemma splitnetloc_subseteq (url : str) start :
  ((_splitnetloc url start).1 ⊆ url) ∧ ((_splitnetloc url start).2 ⊆ url).
Proof.
  unfold _splitnetloc. cbn [fst snd]. split.
  - etrans; [apply subseteq_drop|apply subseteq_take].
  - apply subseteq_drop.
Qed.

(** What [split_netloc] returns is made of characters of its argument,
    and its netloc has none of [/], [?], [#]. *)
Lemma split_netloc_out L (url n p : str) :
  split_netloc L url = Ok (n, p) ->
  (n ⊆ url) ∧ (p ⊆ url) ∧ ∀ c, c ∈ py "/?#" -> c ∉ n.
Proof.
  unfold split_netloc. destruct (bool_decide _).
  - pose proof (splitnetloc_subseteq url 2) as [H1 H2].
    pose proof (splitnetloc_out url 2) as H3.
    destruct (_splitnetloc url 2) as [n' p']. simpl in *.
    destruct (_ || _); [done|].
    destruct (_ && _).
    + destruct (_check_bracketed_netloc L n'); simpl; [|done].
      by intros [= <- <-].
    + by intros [= <- <-].
  - intros [= <- <-]. split; [by intros ??%elem_of_nil|]. split; [done|].
    by intros c _ ?%elem_of_nil.
Qed.

Lemma split1_fst c (u : str) :
  c ∈ u -> (c ∉ (split1 c u).1) ∧ ((split1 c u).1 ⊆ u).
Proof.
  intros Hin. unfold split1.
  destruct (find_in c u Hin) as (i & Hi & _). rewrite Hi. simpl.
  apply find_Some in Hi as [_ Hi]. split; [done|apply subseteq_take].
Qed.

Lemma plain_subseteq (u v : str) :
  u ⊆ v -> Forall (λ d, has d unsafe_url_bytes = false) v ->
  "?"%char ∉ u -> "#"%char ∉ u -> plain u.
Proof.
  intros Hsub Hv Hq Hh. apply Forall_forall. intros d Hd.
  apply has_false. intros Hbad.
  change (py "?#" ++ unsafe_url_bytes)
    with ("?"%char :: "#"%char :: unsafe_url_bytes) in Hbad.
  apply elem_of_cons in Hbad as [->|Hbad]; [done|].
  apply elem_of_cons in Hbad as [->|Hbad]; [done|].
  rewrite Forall_forall in Hv. apply Hsub, Hv, has_false in Hd. done.
Qed.

(** What [urlsplit] returns: no scheme or a normal one, a netloc without
    [/], and netloc and path plain. *)
Lemma urlsplit_out L (x : str) r :
  urlsplit L x = Ok r ->
  (s_scheme r = [] ∨ normal_scheme (s_scheme r))
  ∧ ("/"%char ∉ s_netloc r)
  ∧ plain (s_netloc r) ∧ plain (s_url r).
Proof.
  unfold urlsplit.
  set (url1 := foldl _ _ _).
  pose proof (clean_unsafe (lstrip_by c0_control_or_space x)) as Hclean.
  fold url1 in Hclean.
  pose proof (split_scheme_out url1) as Hsch.
  destruct (split_scheme url1) as [sch url2] eqn:E1. simpl in Hsch.
  assert (Hsub2 : url2 ⊆ url1).
  { destruct Hsch as [[= _ ->]|[_ [i ->]]]; [done|apply subseteq_drop]. }
  destruct (split_netloc L url2) as [[n url3]|e] eqn:E2; [|done].
  apply split_netloc_out in E2 as (Hn & Hp & Hnot).
  cbn [rbind].
  set (url4 := if has "#" url3 then split1 "#" url3 else (url3, [])).
  assert (H4 : ("#"%char ∉ url4.1) ∧ (url4.1 ⊆ url3)).
  { unfold url4. destruct (has "#" url3) eqn:Hh.
    - apply split1_fst. by apply has_true.
    - simpl. split; [by apply has_false|done]. }
  destruct url4 as [u4 frag]. simpl in H4. destruct H4 as [H4a H4b].
  set (url5 := if has "?" u4 then split1 "?" u4 else (u4, [])).
  assert (H5 : ("?"%char ∉ url5.1) ∧ (url5.1 ⊆ u4)).
  { unfold url5. destruct (has "?" u4) eqn:Hh.
    - apply split1_fst. by apply has_true.
    - simpl. split; [by apply has_false|done]. }
  destruct url5 as [u5 qry]. simpl in H5. destruct H5 as [H5a H5b].
  unfold _checknetloc. cbn [rbind]. intros [= <-]. simpl.
  split; [|split; [|split]].
  - destruct Hsch as [[= -> _]|[? _]]; auto.
  - apply Hnot. apply has_true. by vm_compute.
  - eapply plain_subseteq; [|exact Hclean| |].
    + etrans; [exact Hn|exact Hsub2].
    + apply Hnot, has_true. by vm_compute.
    + apply Hnot, has_true. by vm_compute.
  - eapply plain_subseteq; [|exact Hclean|done|].
    + etrans; [exact H5b|]. etrans; [exact H4b|]. etrans; [exact Hp|done].
    + intros Hin. by apply H4a, H5b.
Qed.

Lemma rfind_not_in c (u : str) : c ∉ u -> rfind c u = None.
Proof.
  induction u as [|d u IH]; simpl; [done|].
  intros [Hd Hu]%not_elem_of_cons. rewrite IH by done.
  by destruct (decide (d = c)).
Qed.

Lemma after_last_app_last c (x w : str) :
  c ∉ w -> after_last c (x ++ c :: w) = w.
Proof.
  intros Hw. rewrite after_last_app by (by left).
  unfold after_last. simpl. rewrite rfind_not_in by done.
  destruct (decide (c = c)); [|done]. by rewrite drop_0.
Qed.

(** The path left when the parameters are split off is a piece of the
    text, and has no [;] after its last [/]. *)
Lemma splitparams_out (url : str) :
  ";"%char ∈ url ->
  ((_splitparams url).1 ⊆ url)
  ∧ ("/"%char ∈ (_splitparams url).1 ->
     ";"%char ∉ after_last "/" (_splitparams url).1).
Proof.
  intros Hsemi. unfold _splitparams.
  destruct (has "/" url) eqn:Hslash.
  - apply has_true in Hslash.
    destruct (rfind_in _ _ Hslash) as (r & Hr & Hat & Hafter).
    rewrite Hr. cbn [default from_option id]. unfold find_from.
    pose proof (rfind_after_last _ _ _ Hr) as Hdrop.
    assert (Hw : after_last "/" url = drop (S r) url)
      by (unfold after_last; by rewrite Hr).
    rewrite Hdrop. simpl find.
    destruct (decide ("/"%char = ";"%char)) as [?|_]; [done|].
    destruct (find ";" (after_last "/" url)) as [i|] eqn:E; simpl.
    + split; [apply subseteq_take|]. intros _.
      apply find_Some in E as [_ E].
      replace (r + S i) with (S r + i) by lia.
      rewrite <- take_take_drop, <- Hw.
      rewrite (take_S_r _ _ _ Hat), <- app_assoc. simpl.
      rewrite after_last_app_last; [done|].
      intros Hin. apply Hafter. rewrite <- Hw. by eapply subseteq_take.
    + split; [done|]. intros _. by apply find_None.
  - apply has_false in Hslash.
    destruct (find_in _ _ Hsemi) as (i & -> & _). simpl.
    split; [apply subseteq_take|].
    intros Hin. destruct Hslash. by eapply subseteq_take.
Qed.

Lemma plain_mono (u v : str) : u ⊆ v -> plain v -> plain u.
Proof.
  unfold plain. intros Hsub Hv. apply Forall_forall. intros d Hd.
  rewrite Forall_forall in Hv. by apply Hv, Hsub.
Qed.

(** What [urlparse] returns. *)
Lemma urlparse_out L (x : str) r :
  urlparse L x = Ok r ->
  (UrlParse.scheme r = [] ∨ normal_scheme (UrlParse.scheme r))
  ∧ ("/"%char ∉ netloc r)
  ∧ plain (netloc r) ∧ plain (UrlParse.path r)
  ∧ (UrlParse.scheme r ∈ uses_params -> "/"%char ∈ UrlParse.path r ->
     ";"%char ∉ after_last "/" (UrlParse.path r)).
Proof.
  unfold urlparse. destruct (urlsplit L x) as [sr|e] eqn:E; [|done].
  apply urlsplit_out in E as (Hs & Hn & Hpn & Hpu). cbn [rbind].
  destruct (bool_decide (s_scheme sr ∈ uses_params) && has ";" (s_url sr))
    eqn:Hcond.
  - apply andb_true_iff in Hcond as [_ Hsemi%has_true].
    destruct (splitparams_out _ Hsemi) as [Hsub Hlast].
    destruct (_splitparams (s_url sr)) as [p prm]. simpl in *.
    intros [= <-]. simpl.
    split; [done|]. split; [done|]. split; [done|].
    split; [by eapply plain_mono|]. intros _. done.
  - intros [= <-]. simpl.
    split; [done|]. split; [done|]. split; [done|]. split; [done|].
    intros Hu Hslash. apply andb_false_iff in Hcond as [Hc|Hc].
    + by apply bool_decide_eq_false in Hc.
    + apply has_false in Hc. intros Hin. apply Hc.
      unfold after_last in Hin. destruct (rfind "/" (s_url sr)); [|done].
      by eapply subseteq_drop.
Qed.

Lemma remove_app b (u v : str) : remove b (u ++ v) = remove b u ++ remove b v.
Proof. unfold remove. apply filter_app. Qed.

(** With ["http://"] put in front, the scheme found is [http]. *)
Lemma urlparse_http L (u : str) r :
  urlparse L (py "http://" ++ u) = Ok r -> UrlParse.scheme r = py "http".
Proof.
  unfold urlparse, urlsplit.
  change (lstrip_by c0_control_or_space (py "http://" ++ u))
    with (py "http://" ++ u).
  unfold unsafe_url_bytes. cbn [foldl]. rewrite !remove_app.
  change (remove (ascii_of_N 10) (remove (ascii_of_N 13)
            (remove (ascii_of_N 9) (py "http://"))))
    with (py "http" ++ ":"%char :: py "//").
  rewrite <- app_assoc. rewrite <- app_comm_cons.
  rewrite split_scheme_normal.
  2:{ exists "h"%char, (py "ttp"). split; [done|]. split; [done|].
      by repeat constructor. }
  destruct (split_netloc L _) as [[n p]|e]; [|done]. cbn [rbind].
  destruct (if has "#" p then _ else _) as [u4 frag].
  destruct (if has "?" u4 then _ else _) as [u5 qry].
  unfold _checknetloc. cbn [rbind s_scheme s_url].
  destruct (if _ && _ then _ else _). by intros [= <-].
Qed.

(** What [normalize_url] returns: a normal scheme, [://] and a plain text
    without parameters. *)
Lemma normalize_url_out L (u v : str) :
  normalize_url L u = Ok v ->
  ∃ scheme rest,
    v = scheme ++ py "://" ++ rest
    ∧ normal_scheme scheme ∧ plain rest ∧ no_params scheme rest.
Proof.
  unfold normalize_url.
  destruct (urlparse L u) as [r1|e] eqn:E1; [|done]. cbn [rbind].
  assert (Hr : ∀ r x,
             urlparse L x = Ok r -> normal_scheme (UrlParse.scheme r) ->
             ∃ scheme rest,
               UrlParse.scheme r ++ py "://" ++ netloc r ++ UrlParse.path r
               = scheme ++ py "://" ++ rest
               ∧ normal_scheme scheme ∧ plain rest ∧ no_params scheme rest).
  { intros r x Hr Hs.
    apply urlparse_out in Hr as (_ & Hn & Hpn & Hpp & Hparams).
    exists (UrlParse.scheme r), (netloc r ++ UrlParse.path r).
    split; [done|]. split; [done|]. split; [by apply Forall_app|].
    intros Hu [Hin|Hin]%elem_of_app; [done|].
    rewrite after_last_app by done. by apply Hparams. }
  destruct (bool_decide (UrlParse.scheme r1 = [])) eqn:Hsch.
  - destruct (urlparse L (py "http://" ++ u)) as [r2|e] eqn:E2; [|done].
    cbn [rbind]. intros [= <-]. apply (Hr r2 _ E2).
    rewrite (urlparse_http _ _ _ E2).
    exists "h"%char, (py "ttp"). split; [done|]. split; [done|].
    by repeat constructor.
  - cbn [rbind]. intros [= <-]. apply (Hr r1 _ E1).
    apply bool_decide_eq_false in Hsch.
    by apply urlparse_out in E1 as ([?|?] & _).
Qed.

Lemma check_bracketed_netloc_raise L n e :
  _check_bracketed_netloc L n = Raise e -> e = ValueError.
Proof.
  unfold _check_bracketed_netloc, _check_bracketed_host.
  repeat match goal with
         | |- context [match ?x with _ => _ end] => destruct x
         | |- context [if ?x then _ else _] => destruct x
         end; congruence.
Qed.

Lemma split_netloc_raise L url e :
  split_netloc L url = Raise e -> e = ValueError.
Proof.
  unfold split_netloc. destruct (bool_decide _); [|done].
  destruct (_splitnetloc url 2) as [n p].
  destruct (_ || _); [congruence|]. destruct (_ && _); [|done].
  destruct (_check_bracketed_netloc L n) eqn:E; [done|].
  apply check_bracketed_netloc_raise in E as ->. simpl. congruence.
Qed.

(** X1: normalising what [normalize_url] returned: the same URL comes back, or
    [urlparse] raises [ValueError] on it (a bracket in what is now read as
    the host); it never comes back changed. *)
Theorem normalize_url_idempotent_on_outputs (L : Libs) (u v : str) :
  normalize_url L u = Ok v ->
  normalize_url L v = Ok v ∨ normalize_url L v = Raise ValueError.
Proof.
  intros (s & rest & -> & Hs & Hp & Hparams)%normalize_url_out.
  rewrite normalize_url_reparse_eq by done.
  destruct (split_netloc L (py "//" ++ rest)) as [[n p]|e] eqn:E.
  - by left.
  - right. by apply split_netloc_raise in E as ->.
Qed.

Lemma normalize_url_idempotent_on_outputs_witness :
  normalize_url Sample.libs (py "http://example.com/a;b?x=1#top")
  = Ok (py "http://example.com/a")
  ∧ (normalize_url Sample.libs (py "http://example.com/a")
     = Ok (py "http://example.com/a")
     ∨ normalize_url Sample.libs (py "http://example.com/a")
       = Raise ValueError).
Proof.
  assert (H : normalize_url Sample.libs (py "http://example.com/a;b?x=1#top")
              = Ok (py "http://example.com/a")) by (by vm_compute).
  split; [exact H|].
  exact (normalize_url_idempotent_on_outputs Sample.libs _ _ H).
Defined.

(** The second case happens: ["http:["] is normalised to ["http://["], on
    which [urlparse] raises. *)
Example normalize_url_again_raises (L : Libs) :
  normalize_url L (py "http:[") = Ok (py "http://[")
  ∧ normalize_url L (py "http://[") = Raise ValueError.
Proof. split; by vm_compute. Qed.

(** Scenario E: a URL without a scheme gets ["http://"]. *)
Example normalize_url_default_scheme (L : Libs) :
  normalize_url L (py "example.com/page") = Ok (py "http://example.com/page").
Proof. by vm_compute. Qed.




End normalize_facts.


(** ** The matcher's blocks lie in their range, and its loop ends

    A block found in [a[alo:ahi]] and [b[blo:bhi]] lies inside both, so
    the positions the matcher computes by subtraction are never cut off at
    zero, and every turn of the loop of [get_matching_blocks] leaves less to
    look at: the fuel the loop is started with is never used up. *)

Section difflib_bounds.
Import Difflib.
Variables a b : str.

Lemma j2lenget_le (j2len : gmap nat nat) j n :
  (∀ j k, j2len !! j = Some k -> k <= n) -> j2lenget j2len j <= n.
Proof.
  intros H. destruct j as [|j]; simpl; [lia|].
  destruct (j2len !! j) as [k|] eqn:E; simpl; [by eapply H|lia].
Qed.

Lemma scan_row_bounds alo blo bhi i j2len js new best :
  alo <= i ->
  (∀ j k, j2len !! j = Some k -> k <= i - alo) ->
  (∀ j k, new !! j = Some k -> k <= S i - alo) ->
  alo <= m_a best -> m_a best + m_size best <= S i ->
  let r := scan_row blo bhi i j2len js new best in
  (∀ j k, r.1 !! j = Some k -> k <= S i - alo)
  ∧ alo <= m_a r.2 ∧ m_a r.2 + m_size r.2 <= S i.
Proof.
  intros Hi Hold. revert new best.
  induction js as [|j js IH]; intros new best Hnew Hlo Hhi; simpl.
  - done.
  - destruct (j <? blo); [by apply IH|].
    destruct (bhi <=? j); [done|].
    pose proof (j2lenget_le j2len j (i - alo) Hold) as Hk.
    apply IH.
    + intros j' k'. rewrite lookup_insert.
      destruct (decide (j = j')); [|by apply Hnew].
      intros [= <-]. lia.
    + destruct (m_size best <? j2lenget j2len j + 1); simpl; lia.
    + destruct (m_size best <? j2lenget j2len j + 1); simpl; lia.
Qed.

Lemma scan_rows_bounds alo blo bhi n i j2len best :
  alo <= i ->
  (∀ j k, j2len !! j = Some k -> k <= i - alo) ->
  alo <= m_a best -> m_a best + m_size best <= i ->
  let r := scan_rows a b blo bhi (seq i n) j2len best in
  alo <= m_a r ∧ m_a r + m_size r <= i + n.
Proof.
  revert i j2len best.
  induction n as [|n IH]; intros i j2len best Hi Hold Hlo Hhi; simpl.
  - lia.
  - match goal with |- context [scan_row ?x ?y ?i ?m ?js ?nw ?bst] =>
      pose proof (scan_row_bounds alo x y i m js nw bst Hi Hold) as Hrow;
      destruct (scan_row x y i m js nw bst) as [new best'] end.
    simpl in Hrow. destruct Hrow as (Hnew & Hlo' & Hhi'); [done|done|lia|].
    specialize (IH (S i) new best').
    simpl in IH. replace (i + S n) with (S i + n) by lia.
    apply IH; [lia| |done|done].
    intros j k Hjk. apply Hnew in Hjk. lia.
Qed.

Lemma extend_left_bounds alo blo besti bestj bestsize :
  alo <= besti ->
  let r := extend_left a b alo blo besti bestj bestsize in
  alo <= m_a r ∧ m_a r + m_size r = besti + bestsize.
Proof.
  revert bestj bestsize.
  induction besti as [|i IH]; intros bestj bestsize Hlo; simpl; [lia|].
  destruct bestj as [|j]; simpl; [lia|].
  destruct (Nat.ltb_spec alo (S i)); simpl; [|lia].
  destruct (_ && _); simpl; [|lia].
  specialize (IH j (S bestsize)). simpl in IH. destruct IH; lia.
Qed.

Lemma extend_left_stop alo blo bestj bestsize :
  extend_left a b alo blo alo bestj bestsize
  = {| m_a := alo; m_b := bestj; m_size := bestsize |}.
Proof.
  destruct alo as [|i], bestj as [|j]; simpl; try done.
  by rewrite Nat.ltb_irrefl.
Qed.

Lemma extend_right_bounds room ahi bhi besti bestj bestsize :
  besti + bestsize <= ahi ->
  let r := extend_right a b room ahi bhi besti bestj bestsize in
  m_a r = besti ∧ m_a r + m_size r <= ahi.
Proof.
  revert bestsize.
  induction room as [|room IH]; intros bestsize Hhi; simpl; [lia|].
  destruct (Nat.ltb_spec (besti + bestsize) ahi); simpl; [|lia].
  destruct (_ && _); simpl; [|lia].
  apply IH. lia.
Qed.

Lemma find_longest_match_bounds alo ahi blo bhi :
  let m := find_longest_match a b alo ahi blo bhi in
  m_size m ≠ 0 -> alo <= m_a m ∧ m_a m + m_size m <= ahi.
Proof.
  unfold find_longest_match. simpl.
  destruct (Nat.le_gt_cases alo ahi) as [Hle|Hgt].
  - intros _.
    pose proof (scan_rows_bounds alo blo bhi (ahi - alo) alo ∅
                  {| m_a := alo; m_b := blo; m_size := 0 |}) as Hs.
    simpl in Hs. destruct Hs as [Hs1 Hs2]; [done|done|lia|lia|].
    set (best := scan_rows a b blo bhi (seq alo (ahi - alo)) ∅ _) in *.
    pose proof (extend_left_bounds alo blo (m_a best) (m_b best)
                  (m_size best) Hs1) as Hl.
    simpl in Hl. destruct Hl as [Hl1 Hl2].
    set (best' := extend_left a b alo blo _ _ _) in *.
    pose proof (extend_right_bounds (ahi - (m_a best' + m_size best')) ahi bhi
                  (m_a best') (m_b best') (m_size best')) as Hr.
    simpl in Hr. destruct Hr as [Hr1 Hr2]; [lia|]. lia.
  - replace (ahi - alo) with 0 by lia. simpl.
    rewrite extend_left_stop. simpl.
    replace (ahi - (alo + 0)) with 0 by lia. simpl. done.
Qed.

(** The same on the side of [b], for a range that is not upside down. *)
Lemma scan_row_bounds_b blo bhi i j2len js new best :
  (∀ j k, j2len !! j = Some k -> k <= S j - blo) ->
  blo <= m_b best -> m_b best + m_size best <= bhi ->
  let r := scan_row blo bhi i j2len js new best in
  blo <= m_b r.2 ∧ m_b r.2 + m_size r.2 <= bhi.
Proof.
  intros Hold. revert new best.
  induction js as [|j js IH]; intros new best Hlo Hhi; simpl; [done|].
  destruct (Nat.ltb_spec j blo); [by apply IH|].
  destruct (Nat.leb_spec bhi j); [done|].
  assert (Hk : j2lenget j2len j + 1 <= S j - blo).
  { destruct j as [|j']; simpl; [lia|].
    destruct (j2len !! j') as [k|] eqn:E; simpl; [|lia].
    apply Hold in E. lia. }
  apply IH; destruct (m_size best <? j2lenget j2len j + 1); simpl; lia.
Qed.

Lemma scan_row_new_b blo bhi i j2len js new best :
  (∀ j k, j2len !! j = Some k -> k <= S j - blo) ->
  (∀ j k, new !! j = Some k -> k <= S j - blo) ->
  ∀ j k, (scan_row blo bhi i j2len js new best).1 !! j = Some k ->
         k <= S j - blo.
Proof.
  intros Hold. revert new best.
  induction js as [|j js IH]; intros new best Hnew; simpl; [done|].
  destruct (Nat.ltb_spec j blo); [by apply IH|].
  destruct (Nat.leb_spec bhi j); [done|].
  apply IH. intros j' k'. rewrite lookup_insert.
  destruct (decide (j = j')) as [<-|]; [|by apply Hnew].
  intros [= <-]. destruct j as [|j0]; simpl; [lia|].
  destruct (j2len !! j0) as [k|] eqn:E; simpl; [|lia].
  apply Hold in E. lia.
Qed.

Lemma scan_rows_bounds_b blo bhi rows j2len best :
  (∀ j k, j2len !! j = Some k -> k <= S j - blo) ->
  blo <= m_b best -> m_b best + m_size best <= bhi ->
  let r := scan_rows a b blo bhi rows j2len best in
  blo <= m_b r ∧ m_b r + m_size r <= bhi.
Proof.
  revert j2len best.
  induction rows as [|i rows IH]; intros j2len best Hold Hlo Hhi; simpl;
    [done|].
  match goal with |- context [scan_row ?x ?y ?i ?m ?js ?nw ?bst] =>
    pose proof (scan_row_bounds_b x y i m js nw bst Hold Hlo Hhi) as Hrow;
    pose proof (scan_row_new_b x y i m js nw bst Hold) as Hnew;
    destruct (scan_row x y i m js nw bst) as [new best'] end.
  simpl in Hrow, Hnew. destruct Hrow as [Hlo' Hhi'].
  apply IH; [|done|done]. apply Hnew. intros j k. by rewrite lookup_empty.
Qed.

Lemma extend_left_bounds_b alo blo besti bestj bestsize :
  blo <= bestj ->
  let r := extend_left a b alo blo besti bestj bestsize in
  blo <= m_b r ∧ m_b r + m_size r = bestj + bestsize.
Proof.
  revert bestj bestsize.
  induction besti as [|i IH]; intros bestj bestsize Hlo; simpl; [lia|].
  destruct bestj as [|j]; simpl; [lia|].
  destruct (alo <? S i); simpl; [|lia].
  destruct (Nat.ltb_spec blo (S j)); simpl; [|lia].
  destruct (same_at a b i j); simpl; [|lia].
  specialize (IH j (S bestsize)). simpl in IH. destruct IH; lia.
Qed.

Lemma extend_right_bounds_b room ahi bhi besti bestj bestsize :
  bestj + bestsize <= bhi ->
  let r := extend_right a b room ahi bhi besti bestj bestsize in
  m_b r = bestj ∧ m_b r + m_size r <= bhi.
Proof.
  revert bestsize.
  induction room as [|room IH]; intros bestsize Hhi; simpl; [lia|].
  destruct (besti + bestsize <? ahi); simpl; [|lia].
  destruct (Nat.ltb_spec (bestj + bestsize) bhi); simpl; [|lia].
  destruct (same_at a b _ _); simpl; [|lia].
  apply IH. lia.
Qed.

Lemma find_longest_match_bounds_b alo ahi blo bhi :
  blo <= bhi ->
  let m := find_longest_match a b alo ahi blo bhi in
  blo <= m_b m ∧ m_b m + m_size m <= bhi.
Proof.
  intros Hle. unfold find_longest_match. simpl.
  pose proof (scan_rows_bounds_b blo bhi (seq alo (ahi - alo)) ∅
                {| m_a := alo; m_b := blo; m_size := 0 |}) as Hs.
  simpl in Hs. destruct Hs as [Hs1 Hs2];
    [intros j k; by rewrite lookup_empty|done|lia|].
  set (best := scan_rows a b blo bhi (seq alo (ahi - alo)) ∅ _) in *.
  pose proof (extend_left_bounds_b alo blo (m_a best) (m_b best)
                (m_size best) Hs1) as Hl.
  simpl in Hl. destruct Hl as [Hl1 Hl2].
  set (best' := extend_left a b alo blo _ _ _) in *.
  pose proof (extend_right_bounds_b (ahi - (m_a best' + m_size best')) ahi bhi
                (m_a best') (m_b best') (m_size best')) as Hr.
  simpl in Hr. destruct Hr as [Hr1 Hr2]; [lia|]. lia.
Qed.

Lemma queue_weight_nil_inv queue : queue_weight queue = 0 -> queue = [].
Proof.
  destruct queue as [|[[[alo ahi] blo] bhi] queue]; [done|]. simpl. lia.
Qed.

(** The fuel [blocks_loop] is given is enough: with any greater fuel the
    loop returns the same blocks. *)
Lemma blocks_loop_enough fuel fuel' queue blocks :
  queue_weight queue <= fuel -> queue_weight queue <= fuel' ->
  blocks_loop a b fuel queue blocks = blocks_loop a b fuel' queue blocks.
Proof.
  revert fuel' queue blocks.
  induction fuel as [|fuel IH]; intros fuel' queue blocks H H'.
  - assert (queue = []) as -> by (apply queue_weight_nil_inv; lia).
    by destruct fuel'.
  - destruct queue as [|[[[alo ahi] blo] bhi] queue]; [by destruct fuel'|].
    destruct fuel' as [|fuel']; [simpl in H'; lia|].
    cbn [blocks_loop]. cbv zeta.
    pose proof (find_longest_match_bounds alo ahi blo bhi) as Hb.
    simpl in Hb.
    set (x := find_longest_match a b alo ahi blo bhi) in *.
    simpl in H, H'.
    destruct (Nat.eqb_spec (m_size x) 0) as [E|E].
    + apply IH; lia.
    + destruct (Hb E) as [Hb1 Hb2]. apply IH.
      * destruct (_ && _), (_ && _); simpl; lia.
      * destruct (_ && _), (_ && _); simpl; lia.
Qed.

End difflib_bounds.

(** ** The detectors on their own

    What [find_bad_words], [too_many_symbols], [count_subs] and
    [get_domain_ascii] do with any text. *)

Section detector_facts.
Import PyStr UrlParse Code Reading.

Lemma startswith_spec (pre u : str) :
  startswith pre u = true <-> ∃ post, u = pre ++ post.
Proof.
  revert u. induction pre as [|c pre IH]; intros u; simpl.
  - split; [eauto|done].
  - destruct u as [|d u].
    + split; [done|]. by intros [post ?].
    + rewrite andb_true_iff, bool_decide_eq_true, IH. split.
      * intros [-> [post ->]]. eauto.
      * intros [post [= -> ->]]. eauto.
Qed.

Lemma contains_spec (sub u : str) :
  contains sub u = true <-> ∃ pre post, u = pre ++ sub ++ post.
Proof.
  induction u as [|d u IH].
  - simpl. rewrite orb_false_r, startswith_spec. split.
    + intros [post H]. by exists [], post.
    + intros (pre & post & H). symmetry in H.
      apply app_eq_nil in H as [-> H]. exists post. done.
  - cbn [contains]. rewrite orb_true_iff, startswith_spec, IH. split.
    + intros [[post H]|(pre & post & H)].
      * by exists [], post.
      * exists (d :: pre), post. by rewrite H.
    + intros (pre & post & H). destruct pre as [|e pre].
      * left. by exists post.
      * right. injection H as -> ->. eauto.
Qed.

Lemma filter_sublist {A} (p : A -> bool) (l : list A) :
  sublist (List.filter p l) l.
Proof.
  induction l as [|x l IH]; simpl; [constructor|].
  destruct (p x); by constructor.
Qed.

Lemma lower_char_idemp c : lower_char (lower_char c) = lower_char c.
Proof. by destruct c as [[] [] [] [] [] [] [] []]. Qed.

Lemma count_app c (u v : str) : count c (u ++ v) = count c u + count c v.
Proof. unfold count. by rewrite filter_app, length_app. Qed.

(** X15: [find_bad_words] returns the words of [TRICKY_WORDS] that occur in
    the text put in lower case, in the order of the list and as often as
    the list has them. *)
Theorem find_bad_words_spec (g : Globals) (u : str) :
  ∃ ws,
    find_bad_words u g = (Ok ws, g)
    ∧ sublist ws (TRICKY_WORDS g)
    ∧ ∀ w, w ∈ ws
           <-> w ∈ TRICKY_WORDS g ∧ ∃ pre post, lower u = pre ++ w ++ post.
Proof.
  eexists. split; [reflexivity|]. split; [apply filter_sublist|].
  intros w. rewrite !list_elem_of_In, filter_In, contains_spec. done.
Qed.

Lemma find_bad_words_inv (g g' : Globals) (u : str) ws w :
  find_bad_words u g = (Ok ws, g') -> w ∈ ws ->
  w ∈ TRICKY_WORDS g ∧ ∃ pre post, lower u = pre ++ w ++ post.
Proof.
  intros [= <- _]. by rewrite !list_elem_of_In, filter_In, contains_spec.
Qed.

(** X16: the text is put in lower case and the words are not: a word of the
    list that has a capital letter is never reported, whatever the text. *)
Theorem find_bad_words_upper_case_word (g g' : Globals) (u : str)
    (ws : list str) (w : str) (c : ascii) :
  find_bad_words u g = (Ok ws, g') ->
  c ∈ w -> lower_char c ≠ c -> w ∉ ws.
Proof.
  intros Hf Hc Hup Hw.
  destruct (find_bad_words_inv _ _ _ _ _ Hf Hw) as (_ & pre & post & Hl).
  assert (Hin : c ∈ lower u).
  { rewrite Hl. apply elem_of_app. right. apply elem_of_app. by left. }
  unfold lower in Hin. apply list_elem_of_fmap in Hin as (d & -> & _).
  by rewrite lower_char_idemp in Hup.
Qed.

Lemma find_bad_words_upper_case_word_witness :
  py "Login"
  ∉ List.filter (λ w, contains w (lower (py "http://example.com/Login")))
                [py "Login"; py "secure"].
Proof.
  apply (find_bad_words_upper_case_word
           {| SAFE_DOMAINS := []; TRICKY_WORDS := [py "Login"; py "secure"] |}
           {| SAFE_DOMAINS := []; TRICKY_WORDS := [py "Login"; py "secure"] |}
           (py "http://example.com/Login") _ (py "Login") "L"%char).
  - reflexivity.
  - by left.
  - by vm_compute.
Defined.

(** X17: text added in front of a URL or behind it never clears the flag of
    [too_many_symbols]. *)
Theorem too_many_symbols_monotone (pre u post : str) :
  too_many_symbols u = true -> too_many_symbols (pre ++ u ++ post) = true.
Proof.
  unfold too_many_symbols. rewrite !orb_true_iff, !Nat.ltb_lt, !count_app. lia.
Qed.

Lemma too_many_symbols_monotone_witness :
  too_many_symbols (py "http://" ++ py "a-b-c-d-e-f-g" ++ py ".example.com/")
  = true.
Proof.
  apply (too_many_symbols_monotone (py "http://") (py "a-b-c-d-e-f-g")
           (py ".example.com/")).
  reflexivity.
Defined.

Lemma split_no_sep c (w : str) : c ∉ w -> split c w = [w].
Proof.
  induction w as [|d w IH]; simpl; [done|].
  intros [Hd Hw]%not_elem_of_cons. destruct (decide (d = c)); [done|].
  by rewrite IH.
Qed.

Lemma split_app_sep c (w rest : str) :
  c ∉ w -> split c (w ++ c :: rest) = w :: split c rest.
Proof.
  induction w as [|d w IH]; simpl.
  - intros _. by destruct (decide (c = c)).
  - intros [Hd Hw]%not_elem_of_cons. destruct (decide (d = c)); [done|].
    by rewrite IH.
Qed.

Lemma split_join c (labels : list str) :
  labels ≠ [] -> Forall (λ w, c ∉ w) labels ->
  split c (Sample.join [c] labels) = labels.
Proof.
  induction labels as [|w ws IH]; [done|]. intros _ Hall.
  apply Forall_cons in Hall as [Hw Hws].
  destruct ws as [|w2 ws].
  - simpl. by apply split_no_sep.
  - change (Sample.join [c] (w :: w2 :: ws))
      with (w ++ c :: Sample.join [c] (w2 :: ws)).
    rewrite split_app_sep by done. by rewrite IH.
Qed.

(** X18: when the subdomain [tldextract] returns is made of labels with dots
    between them, [count_subs] is the number of the labels that are not
    blank: an empty label, between two dots, is not counted, and no
    subdomain counts zero. *)
Theorem count_subs_counts_labels (L : Libs) (u : str) (labels : list str) :
  subdomain (tldextract_extract L u) = Sample.join (py ".") labels ->
  Forall (λ w, "."%char ∉ w) labels ->
  count_subs L u
  = length (List.filter (λ w, negb (bool_decide (strip w = []))) labels).
Proof.
  intros Hsub Hall. unfold count_subs. rewrite Hsub.
  destruct labels as [|w ws]; [done|].
  by rewrite (split_join "."%char) by done.
Qed.

Lemma count_subs_counts_labels_witness :
  count_subs Sample.libs (py "http://a..b.example.com/")
  = length (List.filter (λ w, negb (bool_decide (strip w = [])))
                        [py "a"; []; py "b"]).
Proof.
  apply (count_subs_counts_labels Sample.libs
           (py "http://a..b.example.com/") [py "a"; []; py "b"]).
  - reflexivity.
  - repeat (apply Forall_cons; split; [apply has_false; reflexivity|]).
    constructor.
Defined.

(** X19: [get_domain_ascii] returns the domain, a dot and the suffix; the
    domain is as [tldextract] gave it when it is ASCII (whether the codec
    accepts it or raises on the length of a label) and when the codec
    raises, and as the codec encoded it otherwise. *)
Theorem get_domain_ascii_fallback (L : Libs) (u : str) :
  let parts := tldextract_extract L u in
  (forallb isascii (domain parts) = true ->
   get_domain_ascii L u = domain parts ++ py "." ++ suffix parts)
  ∧ (∀ e, idna_encode_nonascii L (domain parts) = Raise e ->
          get_domain_ascii L u = domain parts ++ py "." ++ suffix parts)
  ∧ (∀ x, forallb isascii (domain parts) = false ->
          idna_encode_nonascii L (domain parts) = Ok x ->
          get_domain_ascii L u = x ++ py "." ++ suffix parts).
Proof.
  intros parts. unfold get_domain_ascii, Idna.encode. fold parts.
  destruct (bool_decide (domain parts = [])) eqn:He.
  { apply bool_decide_eq_true in He. rewrite He. simpl.
    split; [done|]. split; [done|]. done. }
  destruct (forallb isascii (domain parts)) eqn:Ha.
  - split; [|split; [|done]].
    + intros _. by destruct (_ && _).
    + intros e _. by destruct (_ && _).
  - split; [done|]. split.
    + intros e ->. done.
    + intros x _ ->. done.
Qed.

End detector_facts.

(** ** What follows a [?] or a [#] is dropped

    [urlsplit] finds the same scheme, netloc and path in a text and in the
    text with a [?] or a [#] and anything else put behind it. *)

Section url_cut.
Import PyStr UrlParse Code Reading.

Lemma lstrip_by_app_stop p (u : str) d q :
  p d = false -> lstrip_by p (u ++ d :: q) = lstrip_by p u ++ d :: q.
Proof.
  intros Hd. induction u as [|c u IH]; simpl.
  - by rewrite Hd.
  - by destruct (p c).
Qed.

Lemma find_app_in c (u v : str) i :
  find c u = Some i -> find c (u ++ v) = Some i.
Proof.
  revert i. induction u as [|e u IH]; intros i; simpl; [done|].
  destruct (decide (e = c)); [done|].
  destruct (find c u) as [k|]; [|done]. intros [= <-]. by rewrite (IH k).
Qed.

Lemma find_lt c (u : str) i : find c u = Some i -> i < length u.
Proof. intros [H _]%find_Some. by eapply lookup_lt_Some. Qed.

Lemma forallb_false_in {A} (f : A -> bool) (l : list A) x :
  x ∈ l -> f x = false -> forallb f l = false.
Proof.
  intros Hin Hx. destruct (forallb f l) eqn:E; [|done].
  rewrite forallb_forall in E. apply list_elem_of_In in Hin.
  apply E in Hin. congruence.
Qed.

(** A [?] or [#] and what follows it stay out of the scheme. *)
Lemma split_scheme_cut (y q1 : str) d :
  d ≠ ":"%char -> has d scheme_chars = false ->
  split_scheme (y ++ d :: q1)
  = ((split_scheme y).1, (split_scheme y).2 ++ d :: q1).
Proof.
  intros Hd Hs. unfold split_scheme.
  destruct (find ":" y) as [i|] eqn:E.
  - rewrite (find_app_in _ _ _ _ E). pose proof (find_lt _ _ _ E) as Hlt.
    destruct y as [|c0 y']; [done|].
    destruct i as [|i']; [done|].
    rewrite <- app_comm_cons. rewrite app_comm_cons.
    simpl in Hlt.
    rewrite take_app_le by (simpl; lia).
    rewrite drop_app_le by (simpl; lia).
    by destruct (_ && _ && _).
  - apply find_None in E. rewrite find_app_skip by done.
    simpl find. destruct (decide (d = ":"%char)) as [?|_]; [done|].
    cbn [fst snd].
    destruct (find ":" q1) as [k|] eqn:Ek;
      cbn [fmap option_fmap option_map]; [|done].
    assert (Hall : forallb (λ c, has c scheme_chars)
                     (take (length y + S k) (y ++ d :: q1)) = false).
    { apply (forallb_false_in _ _ d); [|done].
      rewrite take_app_add. apply elem_of_app. right. simpl. by left. }
    destruct (length y + S k) as [|i'] eqn:En; [lia|].
    revert Hall. destruct (y ++ d :: q1) as [|c0 rest]; [done|].
    intros ->. by rewrite andb_false_r.
Qed.

Lemma find_from_cut c start (r q1 : str) d :
  start <= length r ->
  find_from c start (r ++ d :: q1)
  = match find_from c start r with
    | Some w => Some w
    | None => if decide (d = c) then Some (length r)
              else (λ i, length r + S i) <$> find c q1
    end.
Proof.
  intros Hs. unfold find_from. rewrite drop_app_le by done.
  destruct (find c (drop start r)) as [i|] eqn:E.
  - by rewrite (find_app_in _ _ _ _ E).
  - apply find_None in E. rewrite find_app_skip by done. simpl find.
    rewrite length_drop. destruct (decide (d = c)).
    + simpl. f_equal. lia.
    + destruct (find c q1); simpl; [f_equal; lia|done].
Qed.

Lemma find_from_lt c start (r : str) w :
  find_from c start r = Some w -> w < length r.
Proof.
  unfold find_from. destruct (find c (drop start r)) as [i|] eqn:E; [|done].
  apply find_lt in E. rewrite length_drop in E. intros [= <-]. lia.
Qed.

Lemma splitnetloc_cut (r q1 : str) d start :
  d = "?"%char ∨ d = "#"%char -> start <= length r ->
  _splitnetloc (r ++ d :: q1) start
  = ((_splitnetloc r start).1, (_splitnetloc r start).2 ++ d :: q1).
Proof.
  intros Hd Hs.
  pose (D := λ url : str,
          foldl (λ delim c,
                   match find_from c start url with
                   | Some wdelim => min delim wdelim
                   | None => delim
                   end) (length url) ["/"%char; "?"%char; "#"%char]).
  assert (HD : D (r ++ d :: q1) = D r ∧ D r <= length r).
  { unfold D. cbn [foldl]. rewrite !find_from_cut by done.
    rewrite length_app. simpl length.
    destruct (find_from "/" start r) as [w1|] eqn:E1;
      [apply find_from_lt in E1|];
      (destruct (find_from "?" start r) as [w2|] eqn:E2;
       [apply find_from_lt in E2|]);
      (destruct (find_from "#" start r) as [w3|] eqn:E3;
       [apply find_from_lt in E3|]);
      destruct Hd as [-> | ->];
      repeat match goal with
             | |- context [decide (?a = ?b)] =>
                 destruct (decide (a = b)); try done
             end;
      repeat match goal with
             | |- context [find ?c q1] => destruct (find c q1); simpl
             end; lia. }
  destruct HD as [HD Hle].
  change (_splitnetloc (r ++ d :: q1) start)
    with (drop start (take (D (r ++ d :: q1)) (r ++ d :: q1)),
          drop (D (r ++ d :: q1)) (r ++ d :: q1)).
  change (_splitnetloc r start)
    with (drop start (take (D r) r), drop (D r) r).
  rewrite HD. cbn [fst snd].
  rewrite take_app_le by done. rewrite drop_app_le by done. done.
Qed.

Lemma split_netloc_cut L (r q1 : str) d :
  d = "?"%char ∨ d = "#"%char ->
  split_netloc L (r ++ d :: q1)
  = (np <- split_netloc L r ;; Ok (np.1, np.2 ++ d :: q1))%exc.
Proof.
  intros Hd. unfold split_netloc.
  destruct r as [|a [|b r']].
  - destruct Hd as [-> | ->]; done.
  - destruct Hd as [-> | ->]; simpl app; cbn [take];
      rewrite !bool_decide_eq_false_2; try done; by intros [= ?].
  - change (take 2 ((a :: b :: r') ++ d :: q1)) with [a; b].
    change (take 2 (a :: b :: r')) with [a; b].
    destruct (bool_decide ([a; b] = py "//")); [|done].
    rewrite splitnetloc_cut by (done || simpl; lia).
    destruct (_splitnetloc (a :: b :: r') 2) as [n p]. cbn [fst snd].
    destruct (_ || _); [done|]. destruct (_ && _); [|done].
    by destruct (_check_bracketed_netloc L n).
Qed.

Lemma split1_cut c (u v : str) :
  (split1 c (u ++ c :: v)).1 = (if has c u then split1 c u else (u, [])).1.
Proof.
  unfold split1. destruct (has c u) eqn:H.
  - apply has_true, find_in in H as (i & E & _).
    rewrite (find_app_in _ _ _ _ E), E. simpl.
    apply find_lt in E. by rewrite take_app_le by lia.
  - apply has_false in H. rewrite find_app_skip by done.
    rewrite find_head. simpl. rewrite Nat.add_0_r. by rewrite take_app_length.
Qed.

Lemma split1_cut_other c d (u v : str) :
  c ∈ u -> (split1 c (u ++ d :: v)).1 = (split1 c u).1.
Proof.
  intros (i & E & _)%find_in. unfold split1.
  rewrite (find_app_in _ _ _ _ E), E. simpl.
  apply find_lt in E. by rewrite take_app_le by lia.
Qed.

(** The text before the fragment and the query of [p ++ d :: q1] is
    that of [p]. *)
Lemma path_cut (p q1 : str) d :
  d = "?"%char ∨ d = "#"%char ->
  let cut url :=
    let '(url, fragment) :=
      if has "#" url then split1 "#" url else (url, []) in
    let '(url, query) :=
      if has "?" url then split1 "?" url else (url, []) in
    url in
  cut (p ++ d :: q1) = cut p.
Proof.
  intros Hd cut. unfold cut.
  assert (H4 : ∃ tail,
            (if has "#" (p ++ d :: q1) then split1 "#" (p ++ d :: q1)
             else (p ++ d :: q1, [])).1
            = (if has "#" p then split1 "#" p else (p, [])).1 ++ tail
            ∧ (tail = [] ∨ ∃ q2, tail = "?"%char :: q2)).
  { destruct (has "#" p) eqn:Hp.
    - exists []. rewrite app_nil_r. split; [|by left].
      replace (has "#" (p ++ d :: q1)) with true.
      2:{ symmetry. apply has_true, elem_of_app. left. by apply has_true. }
      apply split1_cut_other. by apply has_true.
    - destruct Hd as [-> | ->].
      + destruct (has "#" (p ++ "?"%char :: q1)) eqn:H1.
        * apply has_false in Hp. unfold split1.
          rewrite find_app_skip by done. simpl find.
          destruct (decide ("?"%char = "#"%char)) as [?|_]; [done|].
          apply has_true, elem_of_app in H1 as [?|H1]; [done|].
          apply elem_of_cons in H1 as [?|H1]; [done|].
          apply find_in in H1 as (k & -> & _). simpl.
          rewrite take_app_add. simpl. eexists. split; [done|]. right. eauto.
        * simpl. eexists. split; [done|]. right. eauto.
      + exists []. rewrite app_nil_r. split; [|by left].
        replace (has "#" (p ++ "#"%char :: q1)) with true.
        2:{ symmetry. apply has_true, elem_of_app. right. by left. }
        rewrite split1_cut. by rewrite Hp. }
  destruct H4 as (tail & H4 & Htail).
  destruct (if has "#" (p ++ d :: q1) then _ else _) as [u4' f'].
  destruct (if has "#" p then _ else _) as [u4 f].
  simpl in H4. subst u4'.
  destruct Htail as [->|[q2 ->]].
  - by rewrite app_nil_r.
  - replace (has "?" (u4 ++ "?"%char :: q2)) with true.
    2:{ symmetry. apply has_true, elem_of_app. right. by left. }
    pose proof (split1_cut "?" u4 q2) as H5.
    destruct (split1 "?" (u4 ++ "?"%char :: q2)) as [a1 a2].
    destruct (if has "?" u4 then _ else _) as [b1 b2]. done.
Qed.

Lemma clean_cut (x q : str) d :
  d ∉ unsafe_url_bytes ->
  foldl (λ url b, remove b url) (x ++ d :: q) unsafe_url_bytes
  = foldl (λ url b, remove b url) x unsafe_url_bytes
    ++ d :: foldl (λ url b, remove b url) q unsafe_url_bytes.
Proof.
  intros Hd. unfold unsafe_url_bytes in *. cbn [foldl].
  assert (Hr : ∀ b (u v : str), b ≠ d ->
                 remove b (u ++ d :: v) = remove b u ++ d :: remove b v).
  { intros b u v Hb. rewrite remove_app. f_equal. unfold remove.
    by rewrite filter_cons_True by done. }
  rewrite !Hr; [done|..]; intros <-; apply Hd.
  - do 2 right. by left.
  - right. by left.
  - by left.
Qed.

Lemma urlsplit_cut L (u q : str) d :
  d = "?"%char ∨ d = "#"%char ->
  match urlsplit L u, urlsplit L (u ++ d :: q) with
  | Ok r, Ok r' =>
      s_scheme r' = s_scheme r ∧ s_netloc r' = s_netloc r
      ∧ s_url r' = s_url r
  | Raise e, Raise e' => e' = e
  | _, _ => False
  end.
Proof.
  intros Hd. unfold urlsplit.
  rewrite lstrip_by_app_stop by (by destruct Hd as [-> | ->]).
  rewrite clean_cut.
  2:{ apply has_false. by destruct Hd as [-> | ->]. }
  rewrite split_scheme_cut; [|by destruct Hd as [-> | ->]..].
  destruct (split_scheme _) as [sch url2]. cbn [fst snd].
  rewrite split_netloc_cut by done.
  destruct (split_netloc L url2) as [[n p]|e]; cbn [rbind fst snd]; [|done].
  set (q1 := foldl _ q _).
  pose proof (path_cut p q1 d Hd) as Hcut. cbv beta zeta in Hcut. revert Hcut.
  destruct (if has "#" (p ++ d :: q1) then _ else _) as [u4' f'].
  destruct (if has "?" u4' then _ else _) as [u5' qy'].
  destruct (if has "#" p then _ else _) as [u4 f].
  destruct (if has "?" u4 then _ else _) as [u5 qy].
  intros ->. unfold _checknetloc. cbn [rbind]. simpl. done.
Qed.

Lemma urlparse_cut L (u q : str) d :
  d = "?"%char ∨ d = "#"%char ->
  match urlparse L u, urlparse L (u ++ d :: q) with
  | Ok r, Ok r' =>
      UrlParse.scheme r' = UrlParse.scheme r ∧ netloc r' = netloc r
      ∧ UrlParse.path r' = UrlParse.path r
  | Raise e, Raise e' => e' = e
  | _, _ => False
  end.
Proof.
  intros Hd. unfold urlparse. pose proof (urlsplit_cut L u q d Hd) as H.
  destruct (urlsplit L u) as [r|e], (urlsplit L (u ++ d :: q)) as [r'|e'];
    try done; cbn [rbind].
  destruct H as (-> & -> & ->).
  by destruct (if _ && _ then _ else _).
Qed.

(** What follows the first [?] or [#] is dropped. *)
Lemma normalize_url_cut L (u q : str) d :
  d = "?"%char ∨ d = "#"%char ->
  normalize_url L (u ++ d :: q) = normalize_url L u.
Proof.
  intros Hd. unfold normalize_url.
  pose proof (urlparse_cut L u q d Hd) as H1.
  pose proof (urlparse_cut L (py "http://" ++ u) q d Hd) as H2.
  rewrite <- app_assoc in H2.
  destruct (urlparse L u) as [r|e], (urlparse L (u ++ d :: q)) as [r'|e'];
    try done; cbn [rbind]; [|by subst].
  destruct H1 as (H1 & H1n & H1p). rewrite H1.
  destruct (bool_decide (UrlParse.scheme r = [])); cbn [rbind].
  - destruct (urlparse L (py "http://" ++ u)) as [r2|e2],
      (urlparse L (py "http://" ++ u ++ d :: q)) as [r2'|e2'];
      try done; cbn [rbind]; [|by subst].
    destruct H2 as (H2 & H2n & H2p). by rewrite H2, H2n, H2p.
  - by rewrite H1, H1n, H1p.
Qed.

End url_cut.

(** ** What [normalize_url] returns and raises *)

Section normalize_more.
Import PyStr UrlParse Code Reading.

Lemma strip_subseteq (u : str) : strip u ⊆ u.
Proof.
  unfold strip, rstrip_by. intros c Hc.
  apply list_elem_of_In in Hc. apply <- in_rev in Hc.
  apply list_elem_of_In in Hc.
  destruct (lstrip_by_sublist isspace (rev (lstrip_by isspace u)))
    as [v Hv].
  assert (H : c ∈ rev (lstrip_by isspace u)).
  { rewrite Hv. apply elem_of_app. by right. }
  apply list_elem_of_In in H. apply <- in_rev in H.
  apply list_elem_of_In in H.
  destruct (lstrip_by_sublist isspace u) as [v' Hv'].
  rewrite Hv'. apply elem_of_app. by right.
Qed.

Lemma urlsplit_raise L x e : urlsplit L x = Raise e -> e = ValueError.
Proof.
  unfold urlsplit.
  destruct (split_scheme _) as [sch url2].
  destruct (split_netloc L url2) as [[n url3]|e'] eqn:E.
  - cbn [rbind]. destruct (if has "#" url3 then _ else _) as [u4 frag].
    destruct (if has "?" u4 then _ else _) as [u5 qry]. done.
  - cbn [rbind]. intros [= <-]. by apply split_netloc_raise in E.
Qed.

Lemma urlparse_raise L x e : urlparse L x = Raise e -> e = ValueError.
Proof.
  unfold urlparse. destruct (urlsplit L x) as [sr|e'] eqn:E.
  - cbn [rbind]. by destruct (if _ && _ then _ else _).
  - cbn [rbind]. intros [= <-]. by apply urlsplit_raise in E.
Qed.

Lemma normalize_url_raise L u e :
  normalize_url L u = Raise e -> e = ValueError.
Proof.
  unfold normalize_url. destruct (urlparse L u) as [r|e'] eqn:E.
  - cbn [rbind]. destruct (bool_decide _).
    + destruct (urlparse L (py "http://" ++ u)) as [r2|e2] eqn:E2; [done|].
      cbn [rbind]. intros [= <-]. by apply urlparse_raise in E2.
    + done.
  - cbn [rbind]. intros [= <-]. by apply urlparse_raise in E.
Qed.

(** X9: the only exception [check_url] lets out is the [ValueError] of
    [urlparse], raised in [normalize_url] on the stripped input; the
    module's lists are as they were. *)
Theorem check_url_raises_only_value_error (L : Libs) (g g' : Globals)
    (u : str) (e : exn) :
  check_url L u g = (Raise e, g') ->
  e = ValueError ∧ g' = g ∧ normalize_url L (strip u) = Raise ValueError.
Proof.
  intros H. unfold check_url in H.
  destruct (check_url_with_cases L (normalize_url L) u g)
    as [[_ Hc]|[(_ & e' & Hn & Hc)|(_ & n & v & _ & Hc & _)]];
    rewrite Hc in H; try done.
  injection H as <- <-.
  pose proof (normalize_url_raise _ _ _ Hn) as ->. done.
Qed.

Lemma check_url_raises_only_value_error_witness :
  ValueError = ValueError ∧ module_globals = module_globals
  ∧ normalize_url Sample.libs (strip (py "http://[")) = Raise ValueError.
Proof.
  apply (check_url_raises_only_value_error Sample.libs module_globals
           module_globals (py "http://[") ValueError).
  reflexivity.
Defined.

Lemma split_scheme_no_colon (url : str) :
  ":"%char ∉ url -> split_scheme url = ([], url).
Proof. intros H. unfold split_scheme. by rewrite find_not_in. Qed.

Lemma clean_subseteq (u : str) :
  foldl (λ url b, remove b url) u unsafe_url_bytes ⊆ u.
Proof.
  unfold unsafe_url_bytes. cbn [foldl].
  etrans; [apply remove_subseteq|]. etrans; [apply remove_subseteq|].
  apply remove_subseteq.
Qed.

Lemma lstrip_by_subseteq p (u : str) : lstrip_by p u ⊆ u.
Proof.
  destruct (lstrip_by_sublist p u) as [v Hv]. intros c Hc.
  rewrite Hv. apply elem_of_app. by right.
Qed.

Lemma urlparse_no_colon L (x : str) r :
  ":"%char ∉ x -> urlparse L x = Ok r -> UrlParse.scheme r = [].
Proof.
  intros Hx. unfold urlparse, urlsplit.
  rewrite split_scheme_no_colon.
  2:{ intros Hin. apply Hx.
      exact (lstrip_by_subseteq _ _ _ (clean_subseteq _ _ Hin)). }
  destruct (split_netloc L _) as [[n p]|e]; [|done]. cbn [rbind].
  destruct (if has "#" p then _ else _) as [u4 frag].
  destruct (if has "?" u4 then _ else _) as [u5 qry].
  unfold _checknetloc. cbn [rbind s_scheme s_url].
  destruct (if _ && _ then _ else _). by intros [= <-].
Qed.

Lemma normalize_url_no_colon L (u v : str) :
  ":"%char ∉ u -> normalize_url L u = Ok v ->
  ∃ rest, v = py "http://" ++ rest.
Proof.
  intros Hu. unfold normalize_url.
  destruct (urlparse L u) as [r|e] eqn:E; [|done]. cbn [rbind].
  rewrite (urlparse_no_colon _ _ _ Hu E).
  rewrite bool_decide_eq_true_2 by done.
  destruct (urlparse L (py "http://" ++ u)) as [r2|e2] eqn:E2; [|done].
  cbn [rbind]. intros [= <-]. rewrite (urlparse_http _ _ _ E2).
  by eexists.
Qed.

Lemma score_of_insecure v : https v = false -> (2 <= score_of v)%Z.
Proof.
  intros H. unfold score_of, points. rewrite H. cbn [negb].
  repeat match goal with |- context [if ?b then _ else _] => destruct b end;
    lia.
Qed.

(** X11: an input without a colon has no scheme, so it is given [http://]:
    its verdict is never for a secure URL, and its score is at least the two
    points of that rule. *)
Theorem check_url_no_colon_insecure (L : Libs) (g g' : Globals) (u : str)
    (v : Verdict) :
  ":"%char ∉ u -> check_url L u g = (Ok (FullVerdict v), g') ->
  (∃ rest, original v = py "http://" ++ rest)
  ∧ https v = false ∧ (2 <= score v)%Z.
Proof.
  intros Hu (n & Hn & Hf & Hs)%check_url_verdict_inv.
  destruct Hf as (Ho & _ & _ & _ & Hh & _).
  apply normalize_url_no_colon in Hn as [rest ->].
  2:{ intros Hin. exact (Hu (strip_subseteq _ _ Hin)). }
  assert (Hsec : https v = false) by (by rewrite Hh).
  split; [by exists rest|]. split; [done|].
  rewrite Hs. by apply score_of_insecure.
Qed.

Lemma check_url_no_colon_insecure_witness :
  ∃ v, check_url Sample.libs (py "paypal.com/account") module_globals
       = (Ok (FullVerdict v), module_globals)
       ∧ (∃ rest, original v = py "http://" ++ rest)
       ∧ https v = false ∧ (2 <= score v)%Z.
Proof.
  eexists. split; [by vm_compute|].
  eapply (check_url_no_colon_insecure Sample.libs module_globals
            module_globals (py "paypal.com/account")).
  - apply has_false. reflexivity.
  - by vm_compute.
Defined.

Lemma app_sep_inj c (a a' x x' : str) :
  c ∉ a -> c ∉ a' -> a ++ c :: x = a' ++ c :: x' -> a = a' ∧ x = x'.
Proof.
  revert a'. induction a as [|d a IH]; intros [|d' a'] Ha Ha'; simpl.
  - by intros [= ->].
  - intros [= <- _]. destruct Ha'. by left.
  - intros [= -> _]. destruct Ha. by left.
  - intros [= -> H]. apply not_elem_of_cons in Ha as [_ Ha].
    apply not_elem_of_cons in Ha' as [_ Ha'].
    destruct (IH _ Ha Ha' H) as [-> ->]. done.
Qed.

Lemma normal_scheme_lower scheme :
  normal_scheme scheme -> lower scheme = scheme ∧ ":"%char ∉ scheme.
Proof.
  intros (c & s & -> & Hc & Hs).
  apply lower_letter_facts in Hc as (_ & _ & _ & Hc).
  assert (Hall : Forall (λ d, lower_scheme_char d = true) (c :: s))
    by (by constructor).
  split.
  - apply lower_id. eapply Forall_impl; [exact Hall|].
    intros d Hd. by apply lower_scheme_char_facts in Hd as (? & _).
  - intros Hin. rewrite Forall_forall in Hall. apply Hall in Hin.
    by apply lower_scheme_char_facts in Hin as (_ & _ & ? & _).
Qed.

(** X10: on a URL [normalize_url] returned, [is_secure] holds exactly when
    the URL starts with ["https://"], the scheme being in lower case
    there. *)
Theorem is_secure_after_normalize (L : Libs) (u v : str) :
  normalize_url L u = Ok v ->
  is_secure v = true <-> ∃ rest, v = py "https://" ++ rest.
Proof.
  intros (s & rest & -> & Hs & _)%normalize_url_out.
  destruct (normal_scheme_lower _ Hs) as [Hl Hc].
  split.
  - unfold is_secure. intros [post Hpost]%startswith_spec.
    unfold lower in Hpost. rewrite map_app in Hpost. fold (lower s) in Hpost.
    rewrite Hl in Hpost.
    change (py "https://" ++ post) with (py "https" ++ ":"%char :: py "//" ++ post)
      in Hpost.
    change (map lower_char (py "://" ++ rest))
      with (":"%char :: py "//" ++ map lower_char rest) in Hpost.
    apply app_sep_inj in Hpost as [-> _]; [|done|].
    + by exists rest.
    + apply has_false. reflexivity.
  - intros [rest' H]. unfold is_secure. rewrite H. reflexivity.
Qed.

Lemma is_secure_after_normalize_witness :
  is_secure (py "https://example.com/") = true
  <-> ∃ rest, py "https://example.com/" = py "https://" ++ rest.
Proof.
  apply (is_secure_after_normalize Sample.libs (py "HTTPS://example.com/")
           (py "https://example.com/")).
  reflexivity.
Defined.

Lemma lower_scheme_char_plain d :
  lower_scheme_char d = true ->
  has d (py "?#" ++ unsafe_url_bytes) = false.
Proof. destruct d as [[] [] [] [] [] [] [] []]; vm_compute; congruence. Qed.

(** X3: what [normalize_url] returns is a scheme in lower case, [://] and
    a text; it has no [?] and no [#] (the query string and the fragment are
    removed) and no TAB, CR or LF. *)
Theorem normalize_url_output_shape (L : Libs) (u v : str) :
  normalize_url L u = Ok v ->
  (∃ scheme rest, v = scheme ++ py "://" ++ rest ∧ normal_scheme scheme)
  ∧ Forall (λ c, has c (py "?#" ++ unsafe_url_bytes) = false) v.
Proof.
  intros (s & rest & -> & Hs & Hp & _)%normalize_url_out.
  split; [by exists s, rest|].
  apply Forall_app. split.
  - destruct Hs as (c & s' & -> & Hc & Hs').
    apply lower_letter_facts in Hc as (_ & _ & _ & Hc).
    constructor; [by apply lower_scheme_char_plain|].
    eapply Forall_impl; [exact Hs'|]. apply lower_scheme_char_plain.
  - apply Forall_app. split; [by repeat constructor|done].
Qed.

Lemma normalize_url_output_shape_witness :
  (∃ scheme rest,
     py "http://example.com/a" = scheme ++ py "://" ++ rest
     ∧ normal_scheme scheme)
  ∧ Forall (λ c, has c (py "?#" ++ unsafe_url_bytes) = false)
           (py "http://example.com/a").
Proof.
  apply (normalize_url_output_shape Sample.libs
           (py "HTTP://example.com/a?login=1#top") (py "http://example.com/a")).
  reflexivity.
Defined.

(** X4: [normalize_url] does the same with a text and with the text
    followed by a [?] or a [#] and anything else: the verdict never
    depends on a query string or a fragment. *)
Theorem normalize_url_ignores_query_and_fragment (L : Libs) (u q : str) :
  normalize_url L (u ++ py "?" ++ q) = normalize_url L u
  ∧ normalize_url L (u ++ py "#" ++ q) = normalize_url L u.
Proof. split; apply normalize_url_cut; auto. Qed.

End normalize_more.

(** ** White space, query strings and the letter case of the scheme *)

Section check_url_more.
Import PyStr UrlParse Code Reading.

Lemma lstrip_by_app p (u v : str) :
  lstrip_by p (u ++ v)
  = match lstrip_by p u with
    | [] => lstrip_by p v
    | w => w ++ v
    end.
Proof.
  induction u as [|c u IH]; simpl; [by destruct (lstrip_by p v)|].
  by destruct (p c).
Qed.

Lemma rstrip_by_app_all p (u post : str) :
  Forall (λ c, p c = true) post -> rstrip_by p (u ++ post) = rstrip_by p u.
Proof.
  intros Hpost. unfold rstrip_by. rewrite rev_app_distr, lstrip_by_app.
  rewrite lstrip_by_all; [done|].
  apply Forall_forall. intros c Hc. rewrite Forall_forall in Hpost.
  apply Hpost. apply list_elem_of_In. apply in_rev. by apply list_elem_of_In.
Qed.

Lemma rstrip_by_app_stop p (x rest : str) c :
  p c = false -> rstrip_by p (x ++ c :: rest) = x ++ c :: rstrip_by p rest.
Proof.
  intros Hc. unfold rstrip_by. rewrite rev_app_distr. simpl rev.
  rewrite <- app_assoc. simpl app.
  rewrite lstrip_by_app_stop by done.
  rewrite rev_app_distr. simpl rev. rewrite rev_involutive.
  by rewrite <- app_assoc.
Qed.

Lemma lstrip_by_none p (u : str) :
  Forall (λ c, p c = false) u -> lstrip_by p u = u.
Proof. destruct 1 as [|c u Hc _]; simpl; [done|]. by rewrite Hc. Qed.

Lemma strip_none (u : str) :
  Forall (λ c, isspace c = false) u -> strip u = u.
Proof.
  intros Hu. unfold strip, rstrip_by. rewrite (lstrip_by_none _ u Hu).
  rewrite lstrip_by_none; [apply rev_involutive|].
  apply Forall_forall. intros c Hc. rewrite Forall_forall in Hu.
  apply Hu. apply list_elem_of_In. apply in_rev. by apply list_elem_of_In.
Qed.

(** X7: white space in front of the input and behind it makes no
    difference to what [check_url] returns. *)
Theorem check_url_ignores_outer_space (L : Libs) (g : Globals)
    (pre u post : str) :
  Forall (λ c, isspace c = true) pre ->
  Forall (λ c, isspace c = true) post ->
  check_url L (pre ++ u ++ post) g = check_url L u g.
Proof.
  intros Hpre Hpost.
  assert (Hstrip : strip (pre ++ u ++ post) = strip u).
  { unfold strip.
    rewrite (lstrip_by_app _ pre), (lstrip_by_all _ pre Hpre).
    rewrite lstrip_by_app.
    destruct (lstrip_by isspace u) as [|c w] eqn:E.
    - by rewrite (lstrip_by_all _ post Hpost).
    - by apply rstrip_by_app_all. }
  unfold check_url, check_url_with. by rewrite Hstrip.
Qed.

Lemma check_url_ignores_outer_space_witness :
  check_url Sample.libs (py "  " ++ py "http://paypal.com/account" ++ py " ")
            module_globals
  = check_url Sample.libs (py "http://paypal.com/account") module_globals.
Proof.
  apply (check_url_ignores_outer_space Sample.libs module_globals
           (py "  ") (py "http://paypal.com/account") (py " "));
    by repeat constructor.
Defined.

(** X5: [check_url] returns the same for a URL and for the URL followed by
    a query string or a fragment, whatever they hold, as long as the URL
    does not end in white space: trigger words, symbols and length behind
    the first [?] or [#] are not seen. *)
Theorem check_url_ignores_query_and_fragment (L : Libs) (g : Globals)
    (w : str) (c d : ascii) (q : str) :
  isspace c = false -> d = "?"%char ∨ d = "#"%char ->
  check_url L (w ++ c :: d :: q) g = check_url L (w ++ [c]) g.
Proof.
  intros Hc Hd.
  assert (Hds : isspace d = false) by (by destruct Hd as [-> | ->]).
  assert (H1 : strip (w ++ c :: d :: q)
               = (lstrip_by isspace w ++ [c]) ++ d :: rstrip_by isspace q).
  { unfold strip. rewrite lstrip_by_app_stop by done.
    rewrite rstrip_by_app_stop by done.
    pose proof (rstrip_by_app_stop isspace [] q d Hds) as Hr.
    cbn [app] in Hr. rewrite Hr. by rewrite <- app_assoc. }
  assert (H2 : strip (w ++ [c]) = lstrip_by isspace w ++ [c]).
  { unfold strip. rewrite lstrip_by_app_stop by done.
    by rewrite rstrip_by_app_stop by done. }
  unfold check_url, check_url_with. rewrite H1, H2.
  rewrite normalize_url_cut by done.
  rewrite !bool_decide_eq_false_2; [done|..]; by destruct (lstrip_by _ _).
Qed.

Lemma check_url_ignores_query_and_fragment_witness :
  check_url Sample.libs (py "http://example.com/a?login=1&next=bank")
            module_globals
  = check_url Sample.libs (py "http://example.com/a") module_globals.
Proof.
  apply (check_url_ignores_query_and_fragment Sample.libs module_globals
           (py "http://example.com/") "a"%char "?"%char
           (py "login=1&next=bank")).
  - reflexivity.
  - by left.
Defined.

Lemma lstrip_by_none_head p (u : str) :
  match u with c :: _ => p c = false | [] => True end -> lstrip_by p u = u.
Proof. destruct u as [|c u]; simpl; [done|]. by intros ->. Qed.

Lemma scheme_char_facts d :
  has d scheme_chars = true ->
  d ≠ ":"%char ∧ has d unsafe_url_bytes = false ∧ isspace d = false
  ∧ lower_char (lower_char d) = lower_char d
  ∧ has (lower_char d) scheme_chars = true.
Proof.
  destruct d as [[] [] [] [] [] [] [] []]; vm_compute; intuition congruence.
Qed.

Lemma alpha_facts c :
  ascii_alpha c = true ->
  isascii c = true ∧ has c scheme_chars = true
  ∧ c0_control_or_space c = false ∧ ascii_alpha (lower_char c) = true.
Proof.
  destruct c as [[] [] [] [] [] [] [] []]; vm_compute; intuition congruence.
Qed.

Lemma scheme_name_chars scheme :
  scheme_name scheme -> Forall (λ d, has d scheme_chars = true) scheme.
Proof.
  intros (c & s & -> & Hc & Hs). constructor; [|done].
  by apply alpha_facts in Hc as (_ & ? & _).
Qed.

Lemma scheme_name_lower scheme :
  scheme_name scheme -> scheme_name (lower scheme).
Proof.
  intros (c & s & -> & Hc & Hs). exists (lower_char c), (lower s).
  split; [done|]. split; [by apply alpha_facts in Hc as (_ & _ & _ & ?)|].
  unfold lower. apply Forall_fmap. eapply Forall_impl; [exact Hs|].
  intros d Hd. simpl. by apply scheme_char_facts in Hd as (_ & _ & _ & _ & ?).
Qed.

Lemma lower_idemp (u : str) : lower (lower u) = lower u.
Proof.
  unfold lower. rewrite <- list_fmap_compose. apply list_fmap_ext.
  intros _ c _. simpl. apply lower_char_idemp.
Qed.

(** [urlsplit] takes a scheme name off, in lower case. *)
Lemma split_scheme_name (scheme rest : str) :
  scheme_name scheme ->
  split_scheme (scheme ++ ":"%char :: rest) = (lower scheme, rest).
Proof.
  intros Hs. pose proof (scheme_name_chars _ Hs) as Hcs.
  destruct Hs as (c & s & -> & Hc & Hs).
  destruct (alpha_facts c Hc) as (Hasc & _ & _ & _).
  assert (Hsch : forallb (λ d, has d scheme_chars) (c :: s) = true).
  { apply forallb_forall. intros d Hd. rewrite Forall_forall in Hcs.
    apply list_elem_of_In in Hd. by apply Hcs. }
  assert (Hcolon : ":"%char ∉ c :: s).
  { intros Hin. rewrite Forall_forall in Hcs.
    by apply Hcs, scheme_char_facts in Hin as (? & _). }
  unfold split_scheme.
  rewrite find_app_skip by done. rewrite find_head.
  cbn [fmap option_fmap option_map length Nat.add].
  rewrite Nat.add_0_r.
  change ((c :: s) ++ ":"%char :: rest) with (c :: (s ++ ":"%char :: rest)).
  cbv iota beta.
  assert (Ht : take (S (length s)) (c :: s ++ ":"%char :: rest) = c :: s)
    by (simpl; f_equal; apply take_app_length).
  assert (Hd : drop (S (S (length s))) (c :: s ++ ":"%char :: rest) = rest).
  { cbn [drop]. rewrite (cons_middle ":"%char s), app_assoc.
    rewrite drop_app_length'; [done|]. rewrite length_app. simpl. lia. }
  by rewrite Ht, Hd, Hasc, Hc, Hsch.
Qed.

(** Up to the scheme, [urlsplit] does the same with a URL and with the
    URL whose scheme is put in lower case. *)
Lemma urlsplit_scheme_case L (scheme rest : str) :
  scheme_name scheme ->
  urlsplit L (scheme ++ ":"%char :: rest)
  = urlsplit L (lower scheme ++ ":"%char :: rest).
Proof.
  intros Hs. pose proof (scheme_name_lower _ Hs) as Hl.
  assert (Hpre : ∀ S, scheme_name S ->
            foldl (λ url b, remove b url)
                  (lstrip_by c0_control_or_space (S ++ ":"%char :: rest))
                  unsafe_url_bytes
            = S ++ ":"%char :: foldl (λ url b, remove b url) rest
                                     unsafe_url_bytes).
  { intros S HS. pose proof (scheme_name_chars _ HS) as Hcs.
    destruct HS as (c & s & -> & Hc & _).
    destruct (alpha_facts c Hc) as (_ & _ & Hc0 & _).
    replace (lstrip_by c0_control_or_space ((c :: s) ++ ":"%char :: rest))
      with ((c :: s) ++ ":"%char :: rest) by (simpl; by rewrite Hc0).
    rewrite clean_cut by (apply has_false; reflexivity).
    rewrite clean_id; [done|].
    eapply Forall_impl; [exact Hcs|]. intros d Hd.
    by apply scheme_char_facts in Hd as (_ & ? & _). }
  unfold urlsplit. rewrite (Hpre _ Hs), (Hpre _ Hl).
  rewrite !split_scheme_name by done. by rewrite lower_idemp.
Qed.

Lemma urlparse_scheme L (scheme rest : str) r :
  scheme_name scheme ->
  urlparse L (scheme ++ ":"%char :: rest) = Ok r ->
  UrlParse.scheme r = lower scheme.
Proof.
  intros Hs. unfold urlparse, urlsplit.
  pose proof (scheme_name_chars _ Hs) as Hcs.
  assert (Hpre :
            foldl (λ url b, remove b url)
                  (lstrip_by c0_control_or_space (scheme ++ ":"%char :: rest))
                  unsafe_url_bytes
            = scheme ++ ":"%char :: foldl (λ url b, remove b url) rest
                                          unsafe_url_bytes).
  { destruct Hs as (c & s & -> & Hc & _).
    destruct (alpha_facts c Hc) as (_ & _ & Hc0 & _).
    replace (lstrip_by c0_control_or_space ((c :: s) ++ ":"%char :: rest))
      with ((c :: s) ++ ":"%char :: rest) by (simpl; by rewrite Hc0).
    rewrite clean_cut by (apply has_false; reflexivity).
    rewrite clean_id; [done|].
    eapply Forall_impl; [exact Hcs|]. intros d Hd.
    by apply scheme_char_facts in Hd as (_ & ? & _). }
  rewrite Hpre, split_scheme_name by done.
  destruct (split_netloc L _) as [[n p]|e]; [|done]. cbn [rbind].
  destruct (if has "#" p then _ else _) as [u4 frag].
  destruct (if has "?" u4 then _ else _) as [u5 qry].
  unfold _checknetloc. cbn [rbind s_scheme s_url].
  destruct (if _ && _ then _ else _). by intros [= <-].
Qed.

Lemma normalize_url_scheme_case L (scheme rest : str) :
  scheme_name scheme ->
  normalize_url L (scheme ++ ":"%char :: rest)
  = normalize_url L (lower scheme ++ ":"%char :: rest).
Proof.
  intros Hs. unfold normalize_url, urlparse at 1 3.
  rewrite (urlsplit_scheme_case L scheme rest Hs).
  fold (urlparse L (lower scheme ++ ":"%char :: rest)).
  destruct (urlparse L (lower scheme ++ ":"%char :: rest)) as [r|e] eqn:E;
    [|done].
  cbn [rbind].
  rewrite (urlparse_scheme L (lower scheme) rest r) by
    (done || by apply scheme_name_lower).
  destruct Hs as (c & s & -> & _). done.
Qed.

(** X8: the letter case of the scheme makes no difference to what
    [check_url] returns: the detectors run on the normalised URL, whose
    scheme is in lower case. *)
Theorem check_url_scheme_case (L : Libs) (g : Globals) (scheme rest : str) :
  scheme_name scheme ->
  check_url L (scheme ++ py ":" ++ rest) g
  = check_url L (lower scheme ++ py ":" ++ rest) g.
Proof.
  intros Hs. pose proof (scheme_name_lower _ Hs) as Hl.
  assert (Hstrip : ∀ S, scheme_name S ->
            strip (S ++ py ":" ++ rest)
            = S ++ ":"%char :: rstrip_by isspace rest).
  { intros S HS. pose proof (scheme_name_chars _ HS) as Hcs.
    unfold strip. rewrite lstrip_by_none_head.
    - simpl app. by rewrite rstrip_by_app_stop.
    - destruct HS as (c & s & -> & Hc & _). simpl.
      inversion Hcs as [|? ? Hd _]; subst.
      by apply scheme_char_facts in Hd as (_ & _ & ? & _). }
  unfold check_url, check_url_with.
  rewrite (Hstrip _ Hs), (Hstrip _ Hl).
  rewrite normalize_url_scheme_case by done.
  rewrite !bool_decide_eq_false_2; [done|..].
  - destruct Hl as (c & s & -> & _). done.
  - destruct Hs as (c & s & -> & _). done.
Qed.

Lemma check_url_scheme_case_witness :
  check_url Sample.libs (py "HTTPS" ++ py ":" ++ py "//example.com/")
            module_globals
  = check_url Sample.libs (lower (py "HTTPS") ++ py ":" ++ py "//example.com/")
              module_globals.
Proof.
  apply (check_url_scheme_case Sample.libs module_globals (py "HTTPS")
           (py "//example.com/")).
  exists "H"%char, (py "TTPS"). split; [reflexivity|]. split; [reflexivity|].
  repeat (apply Forall_cons; split; [reflexivity|]). constructor.
Defined.

End check_url_more.

(** ** Inputs without a scheme, and the labels *)

Section bare_facts.
Import PyStr UrlParse Code Reading.

Lemma bare_char_facts c :
  bare_char c = true ->
  isspace c = false ∧ c0_control_or_space c = false
  ∧ has c (py "?#" ++ unsafe_url_bytes) = false
  ∧ c ≠ ":"%char ∧ c ≠ "["%char ∧ c ≠ "]"%char ∧ c ≠ ";"%char.
Proof.
  destruct c as [[] [] [] [] [] [] [] []]; vm_compute; intuition congruence.
Qed.

Lemma bare_not_in (u : str) c :
  bare u -> bare_char c = false -> c ∉ u.
Proof.
  intros Hu Hc Hin. unfold bare in Hu. rewrite Forall_forall in Hu.
  apply Hu in Hin. congruence.
Qed.

Lemma split_netloc_ok L (url : str) :
  "["%char ∉ url -> "]"%char ∉ url -> ∃ np, split_netloc L url = Ok np.
Proof.
  intros Ho Hc. unfold split_netloc.
  destruct (bool_decide _); [|by eexists].
  destruct (splitnetloc_subseteq url 2) as [Hn _].
  destruct (_splitnetloc url 2) as [n p]. simpl in Hn.
  assert (H1 : has "[" n = false).
  { apply has_false. intros Hin. exact (Ho (Hn _ Hin)). }
  assert (H2 : has "]" n = false).
  { apply has_false. intros Hin. exact (Hc (Hn _ Hin)). }
  rewrite H1, H2. simpl. by eexists.
Qed.

Lemma urlparse_ok L (x : str) :
  "["%char ∉ x -> "]"%char ∉ x -> ∃ r, urlparse L x = Ok r.
Proof.
  intros Ho Hc. unfold urlparse, urlsplit.
  set (url1 := foldl _ _ _).
  assert (Hsub1 : url1 ⊆ x).
  { intros c Hin. exact (lstrip_by_subseteq _ _ _ (clean_subseteq _ _ Hin)). }
  pose proof (split_scheme_out url1) as Hsch.
  destruct (split_scheme url1) as [sch url2] eqn:E1. simpl in Hsch.
  assert (Hsub2 : url2 ⊆ url1).
  { destruct Hsch as [[= _ ->]|[_ [i ->]]]; [done|apply subseteq_drop]. }
  destruct (split_netloc_ok L url2) as [[n p] ->].
  { intros Hin. exact (Ho (Hsub1 _ (Hsub2 _ Hin))). }
  { intros Hin. exact (Hc (Hsub1 _ (Hsub2 _ Hin))). }
  cbn [rbind].
  destruct (if has "#" p then _ else _) as [u4 frag].
  destruct (if has "?" u4 then _ else _) as [u5 qry].
  unfold _checknetloc. cbn [rbind s_scheme s_url].
  destruct (if _ && _ then _ else _). by eexists.
Qed.

Lemma normalize_url_bare L (u : str) :
  bare u -> normalize_url L u = Ok (py "http://" ++ u).
Proof.
  intros Hu.
  assert (Hno : ∀ c, bare_char c = false -> c ∉ u)
    by (intros c; by apply bare_not_in).
  assert (Hplain : plain u).
  { eapply Forall_impl; [exact Hu|]. intros c Hc.
    by apply bare_char_facts in Hc as (_ & _ & ? & _). }
  destruct (urlparse_ok L u) as [r Hr]; [by apply Hno..|].
  unfold normalize_url. rewrite Hr. cbn [rbind].
  rewrite (urlparse_no_colon L u r) by (done || by apply Hno).
  rewrite bool_decide_eq_true_2 by done.
  change (py "http://" ++ u) with (py "http" ++ py "://" ++ u).
  rewrite urlparse_reparse; [|..|done|].
  - rewrite split_netloc_plain_ok; [|done|..].
    + cbn [rbind UrlParse.scheme netloc UrlParse.path].
      by rewrite take_drop.
    + apply has_false. intros Hin. apply (Hno "["%char); [done|].
      by eapply subseteq_take.
    + apply has_false. intros Hin. apply (Hno "]"%char); [done|].
      by eapply subseteq_take.
  - exists "h"%char, (py "ttp"). split; [done|]. split; [done|].
    by repeat constructor.
  - intros _ _ Hin. apply (Hno ";"%char); [done|].
    unfold after_last in Hin. destruct (rfind "/" u); [|done].
    by eapply subseteq_drop.
Qed.

(** X6: a text of visible ASCII characters with none of [: ? # [ ] ;] is
    normalised to ["http://"] followed by the text. *)
Theorem normalize_url_adds_http (L : Libs) (u : str) :
  bare u -> normalize_url L u = Ok (py "http://" ++ u).
Proof. apply normalize_url_bare. Qed.

Lemma normalize_url_adds_http_witness :
  normalize_url Sample.libs (py "example.com/page")
  = Ok (py "http://" ++ py "example.com/page").
Proof.
  apply (normalize_url_adds_http Sample.libs (py "example.com/page")).
  unfold bare. repeat (apply Forall_cons; split; [reflexivity|]).
  constructor.
Defined.

Lemma label_of_not_ok z l : label_of z l -> (4 <= z)%Z -> l ≠ Seems_OK.
Proof.
  intros (H8 & H4 & _) Hz. destruct (Z.le_gt_cases 8 z) as [H|H].
  - by rewrite H8.
  - rewrite H4; [done|lia].
Qed.

(** X12: an address of four groups of digits typed with no scheme, with or
    without a path behind it, is found by the IP rule, [http://] having been
    put in front: the verdict has the IP flag, is not secure, scores at
    least 7 and is not labelled "Seems OK". *)
Theorem check_url_bare_ip_address (L : Libs) (g : Globals) (q rest : str) :
  dotted_quad q -> bare (q ++ rest) ->
  ∃ v, check_url L (q ++ rest) g = (Ok (FullVerdict v), g)
       ∧ original v = py "http://" ++ q ++ rest
       ∧ ip_in_url v = true ∧ https v = false
       ∧ (7 <= score v)%Z ∧ label v ≠ Seems_OK.
Proof.
  intros Hq Hu.
  assert (Hstrip : strip (q ++ rest) = q ++ rest).
  { apply strip_none. eapply Forall_impl; [exact Hu|]. intros c Hc.
    by apply bare_char_facts in Hc as (? & _). }
  assert (Hne : q ++ rest ≠ []).
  { destruct Hq as (g1 & g2 & g3 & g4 & -> & [H1 _] & _).
    destruct g1; [simpl in H1; lia|done]. }
  destruct (check_url_with_cases L (normalize_url L) (q ++ rest) g)
    as [[Hb _]|[(_ & e & Hn & _)|(_ & n & v & Hn & Hc & Hf & Hs & Hl)]].
  - by rewrite Hstrip in Hb.
  - by rewrite Hstrip, normalize_url_bare in Hn.
  - rewrite Hstrip, normalize_url_bare in Hn by done.
    injection Hn as <-. exists v.
    destruct Hf as (Ho & Hip & _ & _ & Hh & _).
    assert (Hip' : ip_in_url v = true).
    { rewrite Hip. apply looks_like_ip_spec. left.
      exists [], q, rest. split; [|done]. done. }
    assert (Hh' : https v = false) by (by rewrite Hh).
    assert (Hsc : (7 <= score v)%Z).
    { rewrite Hs. unfold score_of, points. rewrite Hip', Hh'. cbn [negb].
      repeat match goal with
             | |- context [if ?b then _ else _] => destruct b
             end; lia. }
    split; [exact Hc|]. split; [done|]. split; [done|]. split; [done|].
    split; [done|]. eapply label_of_not_ok; [exact Hl|lia].
Qed.

Lemma check_url_bare_ip_address_witness :
  ∃ v, check_url Sample.libs (py "192.168.1.1" ++ py "/login") module_globals
       = (Ok (FullVerdict v), module_globals)
       ∧ original v = py "http://" ++ py "192.168.1.1" ++ py "/login"
       ∧ ip_in_url v = true ∧ https v = false
       ∧ (7 <= score v)%Z ∧ label v ≠ Seems_OK.
Proof.
  apply (check_url_bare_ip_address Sample.libs module_globals
           (py "192.168.1.1") (py "/login")).
  - exists (py "192"), (py "168"), (py "1"), (py "1").
    split; [reflexivity|].
    repeat split; try (simpl; lia); by repeat constructor.
  - unfold bare. repeat (apply Forall_cons; split; [reflexivity|]).
    constructor.
Defined.

(** X13: a verdict is labelled "Seems OK" exactly when neither the IP rule
    nor the similarity rule applies and at most one of the five rules worth
    two or three points does; the label "HIGH RISK" takes at least two of
    the seven rules. *)
Theorem check_url_seems_ok_iff (L : Libs) (g g' : Globals) (u : str)
    (v : Verdict) :
  check_url L u g = (Ok (FullVerdict v), g') ->
  (label v = Seems_OK
   <-> ip_in_url v = false
       ∧ similar_rule (closest_match v) (original v) = false
       ∧ length (List.filter id (minor_rules v)) <= 1)
  ∧ (label v = HIGH_RISK ->
     2 <= length (List.filter id
                    (ip_in_url v
                     :: similar_rule (closest_match v) (original v)
                     :: minor_rules v))).
Proof.
  intros H.
  destruct (check_url_with_cases L (normalize_url L) u g)
    as [[_ Hc]|[(_ & e & _ & Hc)|(_ & n & v' & _ & Hc & _ & Hs & Hl)]];
    unfold check_url in H; rewrite Hc in H; try done.
  injection H as -> _.
  destruct Hl as (H8 & H4 & H0). rewrite Hs in H8, H4, H0.
  unfold minor_rules. revert H8 H4 H0. unfold score_of, points.
  destruct (ip_in_url v), (similar_rule _ _),
    (negb (bool_decide (bad_words v = []))), (negb (https v)),
    (crazy_chars v), (100 <? len v), (3 <? subs v);
    cbn [List.filter id length]; intros H8 H4 H0;
    (split; [split|]);
    first [ intros Hlab; (rewrite H8 in Hlab by lia)
                         || (rewrite H4 in Hlab by lia)
                         || (rewrite H0 in Hlab by lia); done
          | intros (? & ? & ?); first [done | lia | apply H0; lia]
          | intros _; first [lia | repeat split; done || lia]
          | idtac ].
Qed.

Lemma check_url_seems_ok_iff_witness :
  ∃ v, check_url Sample.libs (py "https://example.com/login") module_globals
       = (Ok (FullVerdict v), module_globals)
       ∧ label v = Seems_OK
       ∧ length (List.filter id (minor_rules v)) = 1.
Proof.
  eexists. split; [by vm_compute|]. split; [|by vm_compute].
  eapply (check_url_seems_ok_iff Sample.libs module_globals module_globals
            (py "https://example.com/login")).
  - by vm_compute.
  - split; [reflexivity|]. split; [reflexivity|]. vm_compute. lia.
Defined.

Lemma closest_in_listed (w : str) :
  w ∈ SAFE_DOMAINS module_globals ->
  ∃ r, closest_in (SAFE_DOMAINS module_globals) w = (r, Some w) ∧ (r == 1)%Q.
Proof.
  intros Hw. simpl in Hw.
  repeat (apply elem_of_cons in Hw as [->|Hw];
          [eexists; split; [by vm_compute|by vm_compute]|]).
  by apply elem_of_nil in Hw.
Qed.

(** X14: with the list of safe domains as shipped, when the text compared
    (domain, dot, suffix of the normalised URL) is an entry of the list,
    the closest match is that entry, with ratio 1, and the similarity rule
    gives its points exactly when that text is not a piece of the
    normalised URL. *)
Theorem check_url_listed_domain (L : Libs) (g' : Globals) (u : str)
    (v : Verdict) :
  check_url L u module_globals = (Ok (FullVerdict v), g') ->
  get_domain_ascii L (original v) ∈ SAFE_DOMAINS module_globals ->
  (closest_match v).2 = Some (get_domain_ascii L (original v))
  ∧ ((closest_match v).1 == 1)%Q
  ∧ similar_rule (closest_match v) (original v)
    = negb (contains (get_domain_ascii L (original v)) (original v)).
Proof.
  intros (n & Hn & Hf & Hs)%check_url_verdict_inv Hin.
  destruct Hf as (Ho & _ & _ & _ & _ & _ & _ & Hc). rewrite Ho in *.
  destruct (closest_in_listed _ Hin) as (r & Hr & H1).
  rewrite Hc, Hr. cbn [fst snd]. split; [done|]. split; [done|].
  unfold similar_rule. cbn [fst snd].
  replace (Qgtb r (85 # 100)) with true; [done|].
  symmetry. apply Qgtb_lt. rewrite H1. reflexivity.
Qed.

Lemma check_url_listed_domain_witness :
  ∃ v, check_url Sample.libs (py "http://paypal.com/") module_globals
       = (Ok (FullVerdict v), module_globals)
       ∧ (closest_match v).2 = Some (get_domain_ascii Sample.libs (original v))
       ∧ ((closest_match v).1 == 1)%Q
       ∧ similar_rule (closest_match v) (original v)
         = negb (contains (get_domain_ascii Sample.libs (original v))
                          (original v)).
Proof.
  eexists. split; [by vm_compute|].
  eapply (check_url_listed_domain Sample.libs module_globals
            (py "http://paypal.com/")).
  - by vm_compute.
  - apply list_elem_of_In. vm_compute. do 5 right. left. reflexivity.
Defined.

End bare_facts.

(** ** The scheme, the host and the verdict *)

Section scheme_and_host.
Import PyStr UrlParse Code Reading.

Lemma scheme_name_normal scheme :
  scheme_name scheme -> normal_scheme (lower scheme).
Proof.
  intros (c & s & -> & Hc & Hs). exists (lower_char c), (lower s).
  split; [done|]. split.
  - apply alpha_lower. destruct (alpha_facts c Hc) as (-> & _). by rewrite Hc.
  - unfold lower. apply Forall_fmap. eapply Forall_impl; [exact Hs|].
    intros d Hd. simpl. by apply scheme_char_lower.
Qed.

(** White space is only taken off behind a text that starts with a
    scheme name and a colon. *)
Lemma strip_scheme (scheme rest : str) :
  scheme_name scheme ->
  strip (scheme ++ ":"%char :: rest)
  = scheme ++ ":"%char :: rstrip_by isspace rest.
Proof.
  intros HS. pose proof (scheme_name_chars _ HS) as Hcs.
  unfold strip. rewrite lstrip_by_none_head.
  - by rewrite rstrip_by_app_stop.
  - destruct HS as (c & s & -> & Hc & _). simpl.
    inversion Hcs as [|? ? Hd _]; subst.
    by apply scheme_char_facts in Hd as (_ & _ & ? & _).
Qed.

(** What [normalize_url] returns for a text that starts with a scheme
    name and a colon starts with the scheme in lower case. *)
Lemma normalize_url_scheme L (scheme rest n : str) :
  scheme_name scheme ->
  normalize_url L (scheme ++ ":"%char :: rest) = Ok n ->
  ∃ r, urlparse L (scheme ++ ":"%char :: rest) = Ok r
       ∧ UrlParse.scheme r = lower scheme
       ∧ n = lower scheme ++ py "://" ++ netloc r ++ UrlParse.path r.
Proof.
  intros Hs. unfold normalize_url.
  destruct (urlparse L (scheme ++ ":"%char :: rest)) as [r|e] eqn:E; [|done].
  cbn [rbind]. pose proof (urlparse_scheme L scheme rest r Hs E) as Hr.
  rewrite Hr. rewrite bool_decide_eq_false_2.
  2:{ destruct Hs as (c & s & -> & _). done. }
  cbn [rbind]. rewrite Hr. intros [= <-]. by exists r.
Qed.

(** X24: for an input that starts with a scheme name and a colon, the
    verdict has [https] true exactly when the scheme, in lower case, is
    [https], with or without [//] behind the colon. *)
Theorem check_url_https_iff_scheme (L : Libs) (g g' : Globals)
    (scheme rest : str) (v : Verdict) :
  scheme_name scheme ->
  check_url L (scheme ++ py ":" ++ rest) g = (Ok (FullVerdict v), g') ->
  https v = true <-> lower scheme = py "https".
Proof.
  intros Hs (n & Hn & Hf & _)%check_url_verdict_inv.
  destruct Hf as (_ & _ & _ & _ & -> & _).
  change (scheme ++ py ":" ++ rest) with (scheme ++ ":"%char :: rest) in Hn.
  rewrite strip_scheme in Hn by done.
  apply normalize_url_scheme in Hn as (r & _ & _ & ->); [|done].
  destruct (normal_scheme_lower _ (scheme_name_normal _ Hs)) as [Hl Hc].
  unfold is_secure. split.
  - intros [post Hpost]%startswith_spec.
    unfold lower in Hpost at 1. rewrite map_app in Hpost.
    fold (lower (lower scheme)) in Hpost. rewrite Hl in Hpost.
    change (py "https://" ++ post)
      with (py "https" ++ ":"%char :: py "//" ++ post) in Hpost.
    change (map lower_char (py "://" ++ netloc r ++ UrlParse.path r))
      with (":"%char :: py "//"
                     ++ map lower_char (netloc r ++ UrlParse.path r))
      in Hpost.
    apply app_sep_inj in Hpost as [-> _]; [done|done|].
    apply has_false. reflexivity.
  - intros ->. reflexivity.
Qed.

Lemma check_url_https_iff_scheme_witness :
  ∃ v, check_url Sample.libs (py "HttpS" ++ py ":" ++ py "example.com")
                 module_globals
       = (Ok (FullVerdict v), module_globals)
       ∧ (https v = true <-> lower (py "HttpS") = py "https").
Proof.
  eexists. split; [by vm_compute|].
  apply (check_url_https_iff_scheme Sample.libs module_globals module_globals
           (py "HttpS") (py "example.com")).
  - exists "H"%char, (py "ttpS"). split; [reflexivity|]. split; [reflexivity|].
    repeat (apply Forall_cons; split; [reflexivity|]). constructor.
  - by vm_compute.
Defined.

(** X25: checking the URL of a verdict again, when it has no white space
    at its end: [check_url] returns the very same verdict, or [urlparse]
    raises on it; it never returns another verdict. *)
Theorem check_url_again (L : Libs) (g g' : Globals) (u : str) (v : Verdict) :
  check_url L u g = (Ok (FullVerdict v), g') ->
  strip (original v) = original v ->
  check_url L (original v) g = (Ok (FullVerdict v), g)
  ∨ check_url L (original v) g = (Raise ValueError, g).
Proof.
  intros H Hstrip.
  pose proof H as (n & Hn & (Ho & _) & _)%check_url_verdict_inv.
  pose proof (check_url_with_frame L (normalize_url L) u g) as Hg.
  unfold check_url in Hg. fold (check_url L u g) in Hg. rewrite H in Hg.
  simpl in Hg. subst g'.
  pose proof Hn as (s & rest & Hv & Hs & Hp & Hparams)%normalize_url_out.
  assert (Hne : original v ≠ []).
  { rewrite Ho, Hv. destruct Hs as (c & s' & -> & _). done. }
  assert (Hnn : normalize_url L (original v) = Ok (original v)
                ∨ normalize_url L (original v) = Raise ValueError).
  { rewrite Ho, Hv. rewrite normalize_url_reparse_eq by done.
    destruct (split_netloc L (py "//" ++ rest)) as [[n' p]|e] eqn:E.
    - by left.
    - right. by apply split_netloc_raise in E as ->. }
  unfold check_url, check_url_with in *.
  rewrite Hstrip. rewrite (bool_decide_eq_false_2 _ Hne).
  destruct (bool_decide (strip u = [])); [done|].
  unfold bind at 1, lift at 1. unfold bind at 1, lift at 1 in H.
  rewrite Hn in H. rewrite <- Ho in H.
  destruct Hnn as [-> | ->]; [left; exact H|by right].
Qed.

Lemma check_url_again_witness :
  ∃ v, check_url Sample.libs (py " HTTP://paypal.com/account?x=1 ")
                 module_globals
       = (Ok (FullVerdict v), module_globals)
       ∧ original v = py "http://paypal.com/account"
       ∧ (check_url Sample.libs (original v) module_globals
          = (Ok (FullVerdict v), module_globals)
          ∨ check_url Sample.libs (original v) module_globals
            = (Raise ValueError, module_globals)).
Proof.
  eexists. split; [by vm_compute|]. split; [by vm_compute|].
  eapply (check_url_again Sample.libs module_globals module_globals
            (py " HTTP://paypal.com/account?x=1 ")).
  - by vm_compute.
  - by vm_compute.
Defined.

Lemma clean_app (u v : str) :
  foldl (λ url b, remove b url) (u ++ v) unsafe_url_bytes
  = foldl (λ url b, remove b url) u unsafe_url_bytes
    ++ foldl (λ url b, remove b url) v unsafe_url_bytes.
Proof. unfold unsafe_url_bytes. cbn [foldl]. by rewrite !remove_app. Qed.

Lemma quad_char_facts c :
  isdecimal c = true ∨ c = "."%char ->
  has c (py "/?#") = false ∧ has c unsafe_url_bytes = false
  ∧ isspace c = false.
Proof.
  intros [H| ->]; [|by vm_compute]. revert H.
  destruct c as [[] [] [] [] [] [] [] []]; vm_compute; intuition congruence.
Qed.

Lemma dotted_quad_chars q :
  dotted_quad q -> q ≠ [] ∧ Forall (λ c, isdecimal c = true ∨ c = "."%char) q.
Proof.
  intros (g1 & g2 & g3 & g4 & -> & [H1 D1] & [_ D2] & [_ D3] & [_ D4]).
  split; [destruct g1; [simpl in H1; lia|done]|].
  assert (Hd : ∀ g, Forall (λ c, isdecimal c = true) g ->
                 Forall (λ c, isdecimal c = true ∨ c = "."%char) g).
  { intros g Hg. eapply Forall_impl; [exact Hg|]. auto. }
  cbn [py list_ascii_of_string app].
  repeat first [ apply Forall_cons; split; [by right|]
               | apply Forall_app; split; [by apply Hd|] ].
  by apply Hd.
Qed.

(** A host that starts with digits and dots: the netloc starts with
    them. *)
Lemma splitnetloc_host (q r : str) :
  Forall (λ c, has c (py "/?#") = false) q ->
  ∃ k, _splitnetloc (py "//" ++ q ++ r) 2 = (q ++ take k r, drop k r).
Proof.
  intros Hq.
  assert (Hfind : ∀ c, c ∈ py "/?#" ->
            find_from c 2 (py "//" ++ q ++ r)
            = (λ i, 2 + length q + i) <$> find c r).
  { intros c Hc. unfold find_from.
    change (drop 2 (py "//" ++ q ++ r)) with (q ++ r).
    rewrite find_app_skip by (by eapply not_in_Forall).
    destruct (find c r); simpl; [f_equal; lia|done]. }
  pose (D := λ url : str,
          foldl (λ delim c,
                   match find_from c 2 url with
                   | Some wdelim => min delim wdelim
                   | None => delim
                   end) (length url) ["/"%char; "?"%char; "#"%char]).
  assert (HD : ∃ k, D (py "//" ++ q ++ r) = length (py "//" ++ q) + k).
  { exists (D (py "//" ++ q ++ r) - length (py "//" ++ q)).
    unfold D. cbn [foldl].
    rewrite !Hfind by (apply has_true; reflexivity).
    rewrite !length_app. change (length (py "//")) with 2.
    destruct (find "/" r), (find "?" r), (find "#" r); simpl; lia. }
  destruct HD as [k HD]. exists k.
  change (_splitnetloc (py "//" ++ q ++ r) 2)
    with (drop 2 (take (D (py "//" ++ q ++ r)) (py "//" ++ q ++ r)),
          drop (D (py "//" ++ q ++ r)) (py "//" ++ q ++ r)).
  rewrite HD. rewrite (app_assoc (py "//") q r).
  rewrite take_app_add, drop_app_add. by rewrite <- app_assoc.
Qed.

Lemma urlparse_host L (s q rest : str) r0 :
  normal_scheme s ->
  Forall (λ c, isdecimal c = true ∨ c = "."%char) q ->
  urlparse L (s ++ py "://" ++ q ++ rest) = Ok r0 ->
  ∃ t, netloc r0 = q ++ t.
Proof.
  intros Hs Hq.
  destruct (normal_scheme_unsafe _ Hs) as (Hsu & c & s' & -> & Hc0).
  assert (Hsafe : Forall (λ d, has d unsafe_url_bytes = false)
                         ((c :: s') ++ py "://" ++ q)).
  { apply Forall_app. split; [done|].
    apply Forall_app. split; [by repeat constructor|].
    eapply Forall_impl; [exact Hq|]. intros d Hd.
    by apply quad_char_facts in Hd as (_ & ? & _). }
  unfold urlparse, urlsplit.
  replace (lstrip_by c0_control_or_space ((c :: s') ++ py "://" ++ q ++ rest))
    with (((c :: s') ++ py "://" ++ q) ++ rest)
    by (rewrite <- !app_assoc; simpl; by rewrite Hc0).
  rewrite clean_app, (clean_id _ Hsafe).
  set (r := foldl _ rest _).
  rewrite <- !app_assoc.
  change (py "://" ++ q ++ r) with (":"%char :: py "//" ++ q ++ r).
  rewrite (split_scheme_normal _ _ Hs).
  unfold split_netloc.
  replace (bool_decide (take 2 (py "//" ++ q ++ r) = py "//")) with true
    by (symmetry; by apply bool_decide_eq_true).
  destruct (splitnetloc_host q r) as [k ->].
  { eapply Forall_impl; [exact Hq|]. intros d Hd.
    by apply quad_char_facts in Hd as (? & _). }
  destruct (_ || _); [done|].
  assert (Hend : ∀ x : result SplitResult,
            (match x with Ok sr => s_netloc sr = q ++ take k r | _ => True end) ->
            (splitresult <- x ;;
             let scheme := s_scheme splitresult in
             let url := s_url splitresult in
             let '(url0, params) :=
               if bool_decide (scheme ∈ uses_params) && has ";" url
               then _splitparams url else (url, []) in
             Ok {| UrlParse.scheme := scheme; netloc := s_netloc splitresult;
                   UrlParse.path := url0; params := params;
                   query := s_query splitresult;
                   fragment := s_fragment splitresult |})%exc = Ok r0 ->
            ∃ t, netloc r0 = q ++ t).
  { intros [sr|e] Hx; [|done]. cbn [rbind]. cbv zeta.
    destruct (if _ && _ then _ else _). intros [= <-]. simpl. eauto. }
  apply Hend.
  destruct (has "[" (q ++ take k r) && has "]" (q ++ take k r)).
  - destruct (_check_bracketed_netloc L _) as [[]|e]; [|done].
    cbn [rbind].
    destruct (if has "#" (drop k r) then _ else _) as [u4 frag].
    destruct (if has "?" u4 then _ else _) as [u5 qry]. done.
  - cbn [rbind].
    destruct (if has "#" (drop k r) then _ else _) as [u4 frag].
    destruct (if has "?" u4 then _ else _) as [u5 qry]. done.
Qed.

Lemma score_of_ip v : ip_in_url v = true -> (5 <= score_of v)%Z.
Proof.
  intros H. unfold score_of, points. rewrite H.
  repeat match goal with |- context [if ?b then _ else _] => destruct b end;
    lia.
Qed.

(** X26: a URL with the scheme [http] or [https], in any letter case, whose
    host starts with four groups of one to three digits with dots between
    them: whenever [check_url] returns a verdict, the IP flag is set, the
    score is at least 5 and the label is not "Seems OK". *)
Theorem check_url_ip_host (L : Libs) (g g' : Globals)
    (scheme q rest : str) (v : Verdict) :
  scheme_name scheme ->
  lower scheme = py "http" ∨ lower scheme = py "https" ->
  dotted_quad q ->
  check_url L (scheme ++ py "://" ++ q ++ rest) g = (Ok (FullVerdict v), g') ->
  ip_in_url v = true ∧ (5 <= score v)%Z ∧ label v ≠ Seems_OK.
Proof.
  intros Hs Hsch Hq H.
  destruct (dotted_quad_chars _ Hq) as [Hne Hqc].
  destruct (check_url_with_cases L (normalize_url L)
              (scheme ++ py "://" ++ q ++ rest) g)
    as [[_ Hc]|[(_ & e & _ & Hc)|(_ & n & v' & Hn & Hc & Hf & Hsc & Hl)]];
    unfold check_url in H; rewrite Hc in H; try done.
  injection H as -> _.
  assert (Hstrip : ∃ rest',
            strip (scheme ++ py "://" ++ q ++ rest)
            = scheme ++ ":"%char :: py "//" ++ q ++ rest').
  { change (scheme ++ py "://" ++ q ++ rest)
      with (scheme ++ ":"%char :: py "//" ++ q ++ rest).
    rewrite strip_scheme by done.
    destruct (exists_last Hne) as (q0 & c & ->).
    apply Forall_app in Hqc as [_ Hc'].
    apply Forall_cons in Hc' as [Hc' _].
    apply quad_char_facts in Hc' as (_ & _ & Hsp).
    exists (rstrip_by isspace rest).
    assert (He : ∀ x : str,
              py "//" ++ (q0 ++ [c]) ++ x = (py "//" ++ q0) ++ c :: x)
      by (intros x; by rewrite <- !app_assoc).
    rewrite !He. by rewrite rstrip_by_app_stop by done. }
  destruct Hstrip as [rest' Hstrip]. rewrite Hstrip in Hn.
  rewrite normalize_url_scheme_case in Hn by done.
  apply normalize_url_scheme in Hn as (r & Hr & _ & ->);
    [|by apply scheme_name_lower].
  apply (urlparse_host L (lower scheme) q rest' r) in Hr as [t Ht];
    [|by apply scheme_name_normal|done].
  rewrite lower_idemp, Ht in Hf.
  destruct Hf as (_ & Hip & _).
  assert (Hip' : ip_in_url v = true).
  { rewrite Hip. apply looks_like_ip_spec.
    destruct Hsch as [-> | ->]; [left|right];
      exists [], q, (t ++ UrlParse.path r);
      (split; [by rewrite <- !app_assoc|done]). }
  split; [done|].
  pose proof (score_of_ip v Hip') as H5. rewrite <- Hsc in H5.
  split; [done|]. eapply label_of_not_ok; [exact Hl|lia].
Qed.

Lemma check_url_ip_host_witness :
  ∃ v, check_url Sample.libs
         (py "HTTPS" ++ py "://" ++ py "999.1.2.3" ++ py ".example.com/")
         module_globals
       = (Ok (FullVerdict v), module_globals)
       ∧ ip_in_url v = true ∧ (5 <= score v)%Z ∧ label v ≠ Seems_OK.
Proof.
  eexists. split; [by vm_compute|].
  eapply (check_url_ip_host Sample.libs module_globals module_globals
            (py "HTTPS") (py "999.1.2.3") (py ".example.com/")).
  - exists "H"%char, (py "TTPS"). split; [reflexivity|]. split; [reflexivity|].
    repeat (apply Forall_cons; split; [reflexivity|]). constructor.
  - right. reflexivity.
  - exists (py "999"), (py "1"), (py "2"), (py "3").
    split; [reflexivity|].
    repeat split; try (simpl; lia); by repeat constructor.
  - by vm_compute.
Defined.

End scheme_and_host.

(** ** The ratio lies between 0 and 1 *)

Section difflib_sum.
Import Difflib.
Variables a b : str.

Lemma sizes_snoc (blocks : list Match) x :
  foldr (λ x n, m_size x + n) 0 (blocks ++ [x])
  = foldr (λ x n, m_size x + n) 0 blocks + m_size x.
Proof. induction blocks as [|y blocks IH]; simpl; lia. Qed.

(** The blocks found in a range are no longer, taken together, than the
    range is wide, in [a] and in [b]. *)
Lemma blocks_loop_sum fuel (queue : list (nat * nat * nat * nat)) blocks :
  Forall (λ '(alo, ahi, blo, bhi), blo <= bhi) queue ->
  let total :=
    foldr (λ x n, m_size x + n) 0 (blocks_loop a b fuel queue blocks) in
  total <= foldr (λ x n, m_size x + n) 0 blocks
           + foldr (λ '(alo, ahi, _, _) w, (ahi - alo) + w) 0 queue
  ∧ total <= foldr (λ x n, m_size x + n) 0 blocks
             + foldr (λ '(_, _, blo, bhi) w, (bhi - blo) + w) 0 queue.
Proof.
  revert queue blocks.
  induction fuel as [|fuel IH]; intros queue blocks Hq; [simpl; lia|].
  destruct queue as [|[[[alo ahi] blo] bhi] queue]; [simpl; lia|].
  apply Forall_cons in Hq as [Hle Hq].
  cbn [blocks_loop]. cbv zeta.
  pose proof (find_longest_match_bounds a b alo ahi blo bhi) as Ha.
  pose proof (find_longest_match_bounds_b a b alo ahi blo bhi Hle) as Hb.
  simpl in Ha, Hb.
  set (x := find_longest_match a b alo ahi blo bhi) in *.
  destruct (Nat.eqb_spec (m_size x) 0) as [E|E].
  - specialize (IH queue blocks Hq). simpl in *. lia.
  - destruct (Ha E) as [Ha1 Ha2]. destruct Hb as [Hb1 Hb2].
    match goal with |- context [blocks_loop a b fuel ?q ?bl] =>
      specialize (IH q bl) end.
    rewrite sizes_snoc in IH.
    destruct IH as [IH1 IH2].
    { destruct (_ && _), (_ && _); repeat (apply Forall_cons; split);
        try done; lia. }
    revert IH1 IH2. cbv zeta.
    destruct (_ && _), (_ && _); simpl; lia.
Qed.

Lemma matches_le : matches a b <= length a ∧ matches a b <= length b.
Proof.
  unfold matches, matching_blocks.
  pose proof (blocks_loop_sum (queue_weight [(0, length a, 0, length b)])
                [(0, length a, 0, length b)] []) as H.
  simpl in H. destruct H as [H1 H2]; [repeat constructor; lia|].
  simpl. lia.
Qed.

End difflib_sum.

Section ratio_range.
Import PyStr Code Reading.

Lemma ratio_le_1 (a b : str) : (Difflib.ratio a b <= 1)%Q.
Proof.
  unfold Difflib.ratio, Difflib._calculate_ratio.
  destruct (matches_le a b) as [Ha Hb].
  destruct (length a + length b) as [|n] eqn:E; cbn [Nat.eqb];
    [apply Qle_refl|].
  unfold Qle. cbn [Qnum Qden].
  assert (Hpos : Z.pos (Pos.of_nat (S n)) = Z.of_nat (S n)).
  { rewrite <- positive_nat_Z. by rewrite Nat2Pos.id. }
  rewrite Hpos. lia.
Qed.

Lemma closest_in_range safe domain :
  (0 <= (closest_in safe domain).1 <= 1)%Q.
Proof.
  unfold closest_in.
  pose proof (foldl_closer_spec domain safe 0%Q None) as H.
  destruct (foldl (closer domain) (0%Q, None) safe) as [r c].
  destruct H as [_ [[= -> _]|(pre & w & post & _ & _ & -> & _)]]; simpl.
  - split; [apply Qle_refl|done].
  - split; [apply ratio_nonneg|apply ratio_le_1].
Qed.

(** X20: the ratio [closest_real_site] returns lies between 0 and 1, as does
    the ratio of the compared text with any entry: the blocks the matcher
    finds are, taken together, no longer than either text. *)
Theorem closest_real_site_ratio_range (L : Libs) (g : Globals) (u : str) :
  ∃ r c,
    closest_real_site L u g = (Ok (r, c), g) ∧ (0 <= r <= 1)%Q
    ∧ ∀ w, (0 <= Difflib.ratio (get_domain_ascii L u) w <= 1)%Q.
Proof.
  pose proof (closest_in_range (SAFE_DOMAINS g) (get_domain_ascii L u)) as H.
  unfold closest_real_site, bind, global, ret.
  destruct (closest_in _ _) as [r c]. exists r, c.
  split; [done|]. split; [done|].
  intros w. split; [apply ratio_nonneg|apply ratio_le_1].
Qed.

End ratio_range.

(** ** The command line *)

Section cli_facts.
Import PyStr UrlParse Code Reading Cli.

Lemma risk_bar_length z : (0 <= z)%Z -> length (risk_bar z) = 10.
Proof.
  intros Hz. unfold risk_bar. rewrite length_app, !repeat_length. lia.
Qed.

Lemma risk_bar_red z :
  length (List.filter is_red (risk_bar z))
  = Z.to_nat (Z.min z 10).
Proof.
  unfold risk_bar. rewrite List.filter_app, length_app.
  generalize (Z.to_nat (Z.min z 10)) as n.
  generalize (Z.to_nat (10 - Z.min z 10)) as m. intros m n.
  assert (H1 : List.filter is_red (repeat red n)
               = repeat red n) by (induction n; simpl; congruence).
  assert (H2 : List.filter is_red (repeat green m) = [])
    by (induction m; simpl; congruence).
  rewrite H1, H2, repeat_length. simpl. lia.
Qed.

(** X21: the risk bar printed for a verdict of [check_url] has ten squares,
    [min(score, 10)] of them red; eight or more are red exactly when the
    label is "HIGH RISK", three or fewer exactly when it is "Seems OK". *)
Theorem risk_bar_of_verdict (L : Libs) (g g' : Globals) (u : str)
    (v : Verdict) :
  check_url L u g = (Ok (FullVerdict v), g') ->
  let reds :=
    length (List.filter is_red (risk_bar (score v))) in
  length (risk_bar (score v)) = 10
  ∧ Z.of_nat reds = Z.min (score v) 10
  ∧ (label v = HIGH_RISK <-> 8 <= reds)
  ∧ (label v = Seems_OK <-> reds <= 3).
Proof.
  intros H reds.
  destruct (check_url_with_cases L (normalize_url L) u g)
    as [[_ Hc]|[(_ & e & _ & Hc)|(_ & n & v' & _ & Hc & _ & Hs & Hl)]];
    unfold check_url in H; rewrite Hc in H; try done.
  injection H as -> _.
  pose proof (score_of_range v) as Hr. rewrite <- Hs in Hr.
  assert (Hreds : Z.of_nat reds = Z.min (score v) 10).
  { unfold reds. rewrite risk_bar_red. lia. }
  split; [apply risk_bar_length; lia|]. split; [done|].
  destruct Hl as (H8 & H4 & H0).
  split; split; intros Hx.
  - destruct (Z.le_gt_cases 8 (score v)) as [?|?]; [lia|].
    destruct (Z.le_gt_cases 4 (score v)) as [?|?].
    + rewrite H4 in Hx by lia. done.
    + rewrite H0 in Hx by lia. done.
  - apply H8. lia.
  - destruct (Z.le_gt_cases 4 (score v)) as [?|?]; [|lia].
    destruct (Z.le_gt_cases 8 (score v)) as [?|?].
    + rewrite H8 in Hx by lia. done.
    + rewrite H4 in Hx by lia. done.
  - apply H0. lia.
Qed.

Lemma risk_bar_of_verdict_witness :
  ∃ v, check_url Sample.libs (py "http://192.168.1.1/login") module_globals
       = (Ok (FullVerdict v), module_globals)
       ∧ risk_bar (score v) = repeat red 10
       ∧ length (risk_bar (score v)) = 10.
Proof.
  eexists. split; [by vm_compute|]. split; [by vm_compute|].
  eapply (risk_bar_of_verdict Sample.libs module_globals module_globals
            (py "http://192.168.1.1/login")).
  by vm_compute.
Defined.

Lemma main_loop_exit L (g : Globals) (before after : list str)
    (typed : str) (printed : list line) :
  main_loop L before g = (printed, EndOfInput) ->
  lower (strip typed) = py "exit" ->
  main_loop L (before ++ typed :: after) g = (printed ++ [GoodbyeLine], Quit).
Proof.
  intros Hb Hexit. revert g printed Hb.
  induction before as [|l before IH]; intros g printed.
  - simpl. intros [= <-]. by rewrite bool_decide_eq_true_2.
  - cbn [main_loop app]. cbv zeta.
    destruct (bool_decide (lower (strip l) = py "exit")); [done|].
    destruct (check_url L (strip l) g) as [[o|e] g1]; [|done].
    destruct (main_loop L before g1) as [more e] eqn:E.
    intros [= <- ->]. rewrite (IH g1 more E).
    by rewrite app_comm_cons, app_assoc.
Qed.

(** X22: when the lines typed so far have all been answered, a line that
    reads [exit], in any letter case and with white space around it, ends
    the run with "Goodbye!": what was printed is kept, and the lines behind
    it are not read. *)
Theorem main_exit (L : Libs) (g : Globals) (before after : list str)
    (typed : str) (printed : list line) :
  main L before g = (printed, EndOfInput) ->
  lower (strip typed) = py "exit" ->
  main L (before ++ typed :: after) g = (printed ++ [GoodbyeLine], Quit).
Proof.
  unfold main. intros Hb Hexit.
  destruct (main_loop L before g) as [out e] eqn:E.
  injection Hb as <- ->.
  rewrite (main_loop_exit L g before after typed out E Hexit).
  by rewrite app_assoc.
Qed.

Lemma main_exit_witness :
  main Sample.libs ([py "http://paypal.com/account"; py ""]
                    ++ py "  EXIT " :: [py "http://["])
       module_globals
  = ((main Sample.libs [py "http://paypal.com/account"; py ""]
           module_globals).1 ++ [GoodbyeLine], Quit).
Proof.
  apply (main_exit Sample.libs module_globals
           [py "http://paypal.com/account"; py ""] [py "http://["]
           (py "  EXIT ")).
  - by vm_compute.
  - by vm_compute.
Defined.

End cli_facts.
